(** * Cap table engine: event replay, allocation, SAFE conversion, vesting
      and exit waterfall

    Shallow embedding of the cap table engine of the captable app
    ([apps/captable-app/src/lib/storage.ts], the part headed "Cap Table
    Engine - Client-Side TypeScript Port") with the types it works on, and
    of the local storage provider of the same file, with theorems on the
    allocator, the SAFE conversion, the vesting calculator, the event
    handlers, the replay, the cap table views, the exit waterfall and the
    storage of companies and events.

    Conventions of the embedding.
    - A [Decimal] (decimal.js, set to [precision: 28] and [ROUND_HALF_UP])
      is a rational number.  [plus], [minus], [times] and [div] round their
      exact result to 28 significant digits, half away from zero
      ([Decimal.finalise]); [floor], [round] and [toFixed] round as they do
      in the library.  A division by zero, which decimal.js answers with
      [Infinity] or [NaN], is followed through the comparisons of the SAFE
      conversion ([Extended]); elsewhere it ends the computation with the
      outcome [NonFinite], as does a result that holds a value that is not
      finite.
    - A JavaScript number is a double.  The share counts that [roundShares]
      and the allocator return, the discount factor of a SAFE, the shares
      of a grant by percentage and the numbers that the exit waterfall
      sorts and sums are the doubles that the source computes ([Double]):
      each operation rounds to the nearest double, ties to even.  The
      other numbers hold counts (quantities read with [parseInt], months,
      ranks) or percentages and multiples; they are integers of [Z] and
      rationals, and the arithmetic on them is exact, as it is in the
      source while the integers and their products stay below 2^53 and the
      percentages are whole numbers.  The vesting calculator, whose
      division by zero yields [NaN] or an infinity that the code then
      compares, computes over [JsNum.t]; the options that it counts as
      vested at the cliff are set against the doubles of the source in
      [cliffVestedNumber].  A count beyond 2^1024, which a double holds as
      an infinity, is not followed.
    - A date string is the timestamp [new Date(s).getTime()], in
      milliseconds.
    - A string that holds an integer ([quantity]) is that integer, a string
      that holds a decimal ([principalAmount], [pricePerShare], ...) is that
      rational; an optional field that is absent is [None].
    - The payload of an event is typed by the type of the event, as in the
      interfaces of the source; the payload of a SAFE issuance is the list
      [data.safes || [data]].
    - [uuidv4()] reads the next identifier of a supply [uuid : nat ->
      string], and the number of identifiers drawn is threaded through the
      handlers. *)

From Stdlib Require Import ZArith QArith Qround Qabs Qpower Sorted Lia Lqa.
From stdpp Require Import base option list strings pretty gmap.

Local Open Scope Z_scope.

(** * Decimal arithmetic *)

Module Decimal.

Local Open Scope Q_scope.

Definition precision : Z := 28.

Definition ten : Q := 10 # 1.

(** Number of decimal digits of a positive integer. *)
Fixpoint digits_fuel (fuel : nat) (a : Z) : Z :=
  match fuel with
  | O => 1
  | S f => if (a <? 10)%Z then 1%Z else (1 + digits_fuel f (a / 10))%Z
  end.

Definition ndigits (a : Z) : Z := digits_fuel (Z.to_nat (Z.log2 a)) a.

(** Decimal exponent of a non-zero rational: the [e] with
    [10^e <= |q| < 10^(e+1)]. *)
Definition exponent (q : Q) : Z :=
  let e0 := (ndigits (Z.abs (Qnum q)) - ndigits (Zpos (Qden q)))%Z in
  if Qle_bool (ten ^ e0) (Qabs q) then e0 else (e0 - 1)%Z.

(** Nearest integer, ties away from zero ([ROUND_HALF_UP]). *)
Definition round_half_up (q : Q) : Z :=
  if Qle_bool 0 q then Qfloor (q + (1 # 2)) else (- Qfloor (- q + (1 # 2)))%Z.

Definition round_floor (q : Q) : Z := Qfloor q.

(** Rounding at [k] decimal places ([k] may be negative). *)
Definition round_at (k : Z) (q : Q) : Q :=
  inject_Z (round_half_up (q * ten ^ k)) / ten ^ k.

(** Rounding to [precision] significant digits. *)
Definition finalise (q : Q) : Q :=
  if Qeq_bool q 0 then 0
  else Qred (round_at (precision - 1 - exponent q) q).

Definition plus (a b : Q) : Q := finalise (a + b).
Definition minus (a b : Q) : Q := finalise (a - b).
Definition times (a b : Q) : Q := finalise (a * b).

Definition isZero (a : Q) : bool := Qeq_bool a 0.
Definition lt (a b : Q) : bool := negb (Qle_bool b a).
Definition gt (a b : Q) : bool := negb (Qle_bool a b).
Definition gte (a b : Q) : bool := Qle_bool b a.
Definition max (a b : Q) : Q := if Qle_bool a b then b else a.

(** [toFixed(dp)]: the value written with [dp] decimals. *)
Definition toFixed (dp : Z) (a : Q) : Q := Qred (round_at dp a).

End Decimal.

(** * Values that may not be finite

    A [Decimal] and a number are finite, [NaN] or an infinity.  The
    functions below follow the non-finite values where the source compares
    them or divides by them; a zero divisor is the positive zero. *)

Module Extended.

Inductive t : Type :=
| Finite (q : Q)
| NaN
| PosInf
| NegInf.

(** [a < b], for decimals ([lt]) and for numbers; false as soon as one side
    is [NaN]. *)
Definition lt (a b : t) : bool :=
  match a, b with
  | NaN, _ | _, NaN => false
  | Finite x, Finite y => Decimal.lt x y
  | NegInf, NegInf => false
  | NegInf, _ => true
  | _, NegInf => false
  | PosInf, _ => false
  | Finite _, PosInf => true
  end.

Definition opp (a : t) : t :=
  match a with
  | Finite q => Finite (- q)
  | NaN => NaN
  | PosInf => NegInf
  | NegInf => PosInf
  end.

(** The value of [a / 0] and of [a * Infinity]: the infinity of the sign of
    [a], and [NaN] for zero. *)
Definition infinity_of (a : Q) : t :=
  if Decimal.isZero a then NaN else if Qle_bool 0 a then PosInf else NegInf.

(** [a.div(b)] for finite decimals. *)
Definition div (a b : Q) : t :=
  if Decimal.isZero b then infinity_of a else Finite (Decimal.finalise (a / b)).

(** [a.times(b)] and [a.div(b)] for a finite decimal [a]. *)
Definition times (a : Q) (b : t) : t :=
  match b with
  | Finite y => Finite (Decimal.times a y)
  | NaN => NaN
  | PosInf => infinity_of a
  | NegInf => infinity_of (- a)
  end.

Definition div_by (a : Q) (b : t) : t :=
  match b with
  | Finite y => div a y
  | NaN => NaN
  | PosInf | NegInf => Finite 0
  end.

End Extended.

(** * Numbers

    A JavaScript number is an IEEE 754 double: a finite one is the rational
    that it holds.  Every operation returns the double nearest to the exact
    result, ties going to the even significand, and an infinity from 2^1024
    on. *)

Module Double.

Import Extended.
Local Open Scope Q_scope.

Definition two : Q := 2 # 1.

(** Binary exponent of a non-zero rational: the [e] with
    [2^e <= |q| < 2^(e+1)]. *)
Definition binade (q : Q) : Z :=
  let e0 := (Z.log2 (Z.abs (Qnum q)) - Z.log2 (Zpos (Qden q)))%Z in
  if Qle_bool (two ^ e0) (Qabs q) then e0 else (e0 - 1)%Z.

(** Nearest integer, ties to the even one. *)
Definition round_even (q : Q) : Z :=
  let f := Qfloor q in
  match Qcompare (q - inject_Z f) (1 # 2) with
  | Lt => f
  | Gt => (f + 1)%Z
  | Eq => if Z.even f then f else (f + 1)%Z
  end.

(** Exponent of the unit in the last place of the doubles around [q]: 53
    significant bits, and 2^-1074 among the subnormal numbers. *)
Definition ulp_exponent (q : Q) : Z := Z.max (binade q - 52) (-1074).

(** The double nearest to [q], were the exponent unbounded above. *)
Definition round (q : Q) : Q :=
  if Qeq_bool q 0 then 0
  else
    let e := ulp_exponent q in
    Qred (inject_Z (round_even (q / two ^ e)) * two ^ e).

Definition limit : Q := two ^ 1024.

(** The number that the decimal [q] reads as ([parseFloat], [toNumber], a
    number written in an event), and the result of an operation whose
    exact value is [q]. *)
Definition ofQ (q : Q) : t :=
  let r := round q in
  if Qle_bool limit r then PosInf
  else if Qle_bool r (- limit) then NegInf
  else Finite r.

(** The integer-valued number nearest to an integer, below 2^1024. *)
Definition ofZ (z : Z) : Z := Qfloor (round (inject_Z z)).

Definition add (a b : t) : t :=
  match a, b with
  | NaN, _ | _, NaN => NaN
  | Finite x, Finite y => ofQ (x + y)
  | PosInf, NegInf | NegInf, PosInf => NaN
  | PosInf, _ | _, PosInf => PosInf
  | NegInf, _ | _, NegInf => NegInf
  end.

Definition sub (a b : t) : t := add a (opp b).

Definition mul (a b : t) : t :=
  match a, b with
  | NaN, _ | _, NaN => NaN
  | Finite x, Finite y => ofQ (x * y)
  | Finite x, PosInf | PosInf, Finite x => infinity_of x
  | Finite x, NegInf | NegInf, Finite x => infinity_of (- x)
  | PosInf, PosInf | NegInf, NegInf => PosInf
  | PosInf, NegInf | NegInf, PosInf => NegInf
  end.

Definition div (a b : t) : t :=
  match a, b with
  | NaN, _ | _, NaN => NaN
  | Finite x, Finite y => if Qeq_bool y 0 then infinity_of x else ofQ (x / y)
  | Finite _, _ => Finite 0
  | PosInf, Finite y => if Qle_bool 0 y then PosInf else NegInf
  | NegInf, Finite y => if Qle_bool 0 y then NegInf else PosInf
  | _, _ => NaN
  end.

(** [String(x)] for a positive double [x] writes the decimal of the fewest
    digits that reads as [x], and among these the one nearest to [x].  With
    [k] digits this is one of the two decimals of [k] digits around [x]. *)
Definition candidate (x : Q) (k : Z) : option Q :=
  let scale := Decimal.ten ^ (Decimal.exponent x + 1 - k) in
  let lo := Qfloor (x / scale) in
  let below := Qred (inject_Z lo * scale) in
  let above := Qred (inject_Z (lo + 1) * scale) in
  match Qeq_bool (round below) x, Qeq_bool (round above) x with
  | true, true =>
      match Qcompare (x - below) (above - x) with
      | Lt => Some below
      | Gt => Some above
      | Eq => Some (if Z.even lo then below else above)
      end
  | true, false => Some below
  | false, true => Some above
  | false, false => None
  end.

Fixpoint shortest_from (fuel : nat) (x : Q) (k : Z) : Q :=
  match fuel with
  | O => x
  | S fuel' =>
      match candidate x k with
      | Some c => c
      | None => shortest_from fuel' x (k + 1)
      end
  end.

(** The decimal that [String(x)] writes; 17 digits identify a double. *)
Definition shortest (x : Q) : Q :=
  if Qeq_bool x 0 then 0
  else if Qle_bool 0 x then shortest_from 17 x 1
  else - shortest_from 17 (- x) 1.

Definition is_safe_integer (x : Q) : bool :=
  Qeq_bool x (inject_Z (Qfloor x)) && Qle_bool (Qabs x) (two ^ 53).

(** [new Decimal(x)] for a finite number [x]: the decimal that [String(x)]
    writes, which is [x] itself for an integer up to 2^53. *)
Definition toDecimal (x : Q) : Q :=
  if is_safe_integer x then x else shortest x.

Definition asDecimal (x : t) : t :=
  match x with
  | Finite q => Finite (toDecimal q)
  | other => other
  end.

(** [x.toFixed(2)]: for a finite number the nearest decimal with two
    decimals, ties away from zero, and what [String(x)] writes from 10^21
    on. *)
Definition toFixed2 (x : t) : t :=
  match x with
  | Finite q =>
      Finite (if Qle_bool (Decimal.ten ^ 21) (Qabs q) then shortest q
              else Decimal.toFixed 2 q)
  | other => other
  end.

End Double.

(** * Outcomes of engine functions

    [Ok] is a normal return, [Throw] a thrown [Error] with its message,
    [NonFinite] a computation that left the finite decimals. *)

Inductive outcome (A : Type) : Type :=
| Ok (a : A)
| Throw (msg : string)
| NonFinite.
Arguments Ok {A} a.
Arguments Throw {A} msg.
Arguments NonFinite {A}.

Definition obind {A B : Type} (o : outcome A) (k : A -> outcome B) : outcome B :=
  match o with
  | Ok a => k a
  | Throw msg => Throw msg
  | NonFinite => NonFinite
  end.

(** Engine computations draw fresh identifiers: [uuid n] is the result of
    the [n]-th call of [uuidv4()], and the count of calls is threaded. *)
Definition M (A : Type) : Type := (nat -> string) -> nat -> outcome (A * nat).

Definition ret {A : Type} (a : A) : M A := fun _ n => Ok (a, n).

Definition bind {A B : Type} (c : M A) (k : A -> M B) : M B :=
  fun uuid n =>
    match c uuid n with
    | Ok (a, n') => k a uuid n'
    | Throw msg => Throw msg
    | NonFinite => NonFinite
    end.

Definition lift {A : Type} (o : outcome A) : M A :=
  fun _ n => obind o (fun a => Ok (a, n)).

Definition throw {A : Type} (msg : string) : M A := fun _ _ => Throw msg.

Definition uuidv4 : M string := fun uuid n => Ok (uuid n, S n).

Declare Scope engine_scope.
Delimit Scope engine_scope with engine.
Notation "x <- c ;; k" := (bind c (fun x => k))
  (at level 100, c at next level, right associativity) : engine_scope.
Notation "x <~ o ;; k" := (obind o (fun x => k))
  (at level 100, o at next level, right associativity) : engine_scope.

(** Monadic left fold: a [for ... of] loop whose body may throw. *)
Fixpoint foldM {A B : Type} (f : A -> B -> M A) (a : A) (l : list B) : M A :=
  match l with
  | [] => ret a
  | b :: l' => bind (f a b) (fun a' => foldM f a' l')
  end.

(** [Decimal.div]: the quotient rounded to 28 significant digits. *)
Definition ddiv (a b : Q) : outcome Q :=
  if Decimal.isZero b then NonFinite else Ok (Decimal.finalise (a / b)).

(** * JavaScript helpers *)

(** Truthiness of an optional string: absent and empty strings are falsy. *)
Definition truthy (s : option string) : bool :=
  match s with
  | Some s => negb (String.eqb s "")
  | None => false
  end.

(** [Array.prototype.sort]: stable; [gt a b] says that the comparator is
    positive on [(a, b)], so that [b] goes first. *)
Fixpoint sort_insert {A : Type} (gt : A -> A -> bool) (x : A) (l : list A) : list A :=
  match l with
  | [] => [x]
  | y :: l' => if gt x y then y :: sort_insert gt x l' else x :: y :: l'
  end.

Definition sort {A : Type} (gt : A -> A -> bool) (l : list A) : list A :=
  foldr (sort_insert gt) [] l.

(** [Array.prototype.find] with the index of the element found. *)
Fixpoint find_index {A : Type} (p : A -> bool) (l : list A) : option (nat * A) :=
  match l with
  | [] => None
  | x :: l' => if p x then Some (O, x)
               else match find_index p l' with
                    | Some (i, y) => Some (S i, y)
                    | None => None
                    end
  end.

Definition find {A : Type} (p : A -> bool) (l : list A) : option A :=
  snd <$> find_index p l.

Definition sumZ (l : list Z) : Z := fold_left Z.add l 0.

(** Numbers of the vesting calculator: integers, [NaN] and the infinities. *)
Module JsNum.

Inductive t : Type :=
| Int (z : Z)
| NaN
| PosInf
| NegInf.

(** [Math.floor(n / d)] for integers [n] and [d]. *)
Definition div_floor (n d : Z) : t :=
  if d =? 0 then
    (if n =? 0 then NaN else if 0 <? n then PosInf else NegInf)
  else Int (n / d).

(** [Math.min]. *)
Definition min (a b : t) : t :=
  match a, b with
  | NaN, _ | _, NaN => NaN
  | NegInf, _ | _, NegInf => NegInf
  | PosInf, x | x, PosInf => x
  | Int x, Int y => Int (Z.min x y)
  end.

Definition add (a b : t) : t :=
  match a, b with
  | NaN, _ | _, NaN => NaN
  | PosInf, NegInf | NegInf, PosInf => NaN
  | PosInf, _ | _, PosInf => PosInf
  | NegInf, _ | _, NegInf => NegInf
  | Int x, Int y => Int (x + y)
  end.

(** [a - b]. *)
Definition sub (a b : t) : t :=
  match a, b with
  | NaN, _ | _, NaN => NaN
  | PosInf, PosInf | NegInf, NegInf => NaN
  | PosInf, _ | _, NegInf => PosInf
  | NegInf, _ | _, PosInf => NegInf
  | Int x, Int y => Int (x - y)
  end.

(** [Math.round]: the nearest integer, ties upwards. *)
Definition round (x : Extended.t) : t :=
  match x with
  | Extended.Finite q => Int (Qfloor (q + (1 # 2)))
  | Extended.NaN => NaN
  | Extended.PosInf => PosInf
  | Extended.NegInf => NegInf
  end.

(** [Math.floor]. *)
Definition floor (x : Extended.t) : t :=
  match x with
  | Extended.Finite q => Int (Qfloor q)
  | Extended.NaN => NaN
  | Extended.PosInf => PosInf
  | Extended.NegInf => NegInf
  end.

(** [a < b]; false as soon as one side is [NaN]. *)
Definition lt (a b : t) : bool :=
  match a, b with
  | NaN, _ | _, NaN => false
  | Int x, Int y => x <? y
  | NegInf, NegInf => false
  | NegInf, _ => true
  | _, NegInf => false
  | PosInf, _ => false
  | Int _, PosInf => true
  end.

End JsNum.

(** * Core types *)

Inductive PersonType : Type :=
  FOUNDER | EMPLOYEE | ADVISOR | INVESTOR | OTHER | ESOP_POOL.

Inductive ShareClassType : Type := COMMON | PREFERRED | OPTION.

Inductive ParticipationType : Type :=
  non_participating | participating | capped_participating.

Inductive ValuationType : Type := pre_money | post_money.

Inductive VestingFrequency : Type := monthly | quarterly | yearly.

Definition ESOP_POOL_HOLDER_ID : string := "__esop_pool__".

#[export] Instance PersonType_eq_dec : EqDecision PersonType.
Proof. solve_decision. Defined.
#[export] Instance ShareClassType_eq_dec : EqDecision ShareClassType.
Proof. solve_decision. Defined.
#[export] Instance ParticipationType_eq_dec : EqDecision ParticipationType.
Proof. solve_decision. Defined.
#[export] Instance ValuationType_eq_dec : EqDecision ValuationType.
Proof. solve_decision. Defined.

Definition date : Type := Z.

Module Person.
Record t : Type := mk {
  id : string;
  name : string;
  type : PersonType
}.
End Person.

Module ShareClass.
Record t : Type := mk {
  id : string;
  name : string;
  type : ShareClassType;
  seniorityRank : Z;
  liquidationPreferenceMultiple : Q;
  participation : ParticipationType;
  participationCapMultiple : option Q;
  isConvertibleToCommon : bool;
  pricePerShare : option Q
}.
End ShareClass.

Module SecurityHolding.
Record t : Type := mk {
  id : string;
  holderId : string;
  shareClassId : string;
  quantity : Z;
  sourceEventId : string;
  isOption : bool;
  strikePrice : option string;
  vestingScheduleId : option string;
  vestingStartDate : option date;
  grantDate : option date;
  investmentAmount : option Q
}.

(** [holding.quantity = String(q)]. *)
Definition set_quantity (h : t) (q : Z) : t :=
  mk (id h) (holderId h) (shareClassId h) q (sourceEventId h) (isOption h)
     (strikePrice h) (vestingScheduleId h) (vestingStartDate h) (grantDate h)
     (investmentAmount h).
End SecurityHolding.

Module VestingSchedule.
Record t : Type := mk {
  id : string;
  description : option string;
  cliffMonths : Z;
  totalMonths : Z;
  vestingFrequency : VestingFrequency;
  initialCliffPercent : Q
}.

End VestingSchedule.

Module SAFE.
Record t : Type := mk {
  id : string;
  investorId : string;
  investorName : option string;
  principalAmount : Q;
  valuationType : ValuationType;
  valuationCap : option Q;
  discountPercent : option Q;
  mostFavoredNation : bool;
  issueDate : date;
  conversionShareClassId : option string;
  convertedInEventId : option string;
  notes : option string
}.

(** [safe.convertedInEventId = eventId]. *)
Definition set_convertedInEventId (s : t) (e : string) : t :=
  mk (id s) (investorId s) (investorName s) (principalAmount s) (valuationType s)
     (valuationCap s) (discountPercent s) (mostFavoredNation s) (issueDate s)
     (conversionShareClassId s) (Some e) (notes s).
End SAFE.

Module CapTableState.
Record t : Type := mk {
  companyId : string;
  asOfEventId : option string;
  asOfDate : option date;
  shareClasses : list ShareClass.t;
  holdings : list SecurityHolding.t;
  safes : list SAFE.t;
  people : list Person.t;
  vestingSchedules : list VestingSchedule.t
}.

Definition set_asOf (s : t) (e : string) (d : date) : t :=
  mk (companyId s) (Some e) (Some d) (shareClasses s) (holdings s) (safes s)
     (people s) (vestingSchedules s).
Definition set_shareClasses (s : t) (x : list ShareClass.t) : t :=
  mk (companyId s) (asOfEventId s) (asOfDate s) x (holdings s) (safes s)
     (people s) (vestingSchedules s).
Definition set_holdings (s : t) (x : list SecurityHolding.t) : t :=
  mk (companyId s) (asOfEventId s) (asOfDate s) (shareClasses s) x (safes s)
     (people s) (vestingSchedules s).
Definition set_safes (s : t) (x : list SAFE.t) : t :=
  mk (companyId s) (asOfEventId s) (asOfDate s) (shareClasses s) (holdings s) x
     (people s) (vestingSchedules s).
Definition set_people (s : t) (x : list Person.t) : t :=
  mk (companyId s) (asOfEventId s) (asOfDate s) (shareClasses s) (holdings s)
     (safes s) x (vestingSchedules s).
Definition set_vestingSchedules (s : t) (x : list VestingSchedule.t) : t :=
  mk (companyId s) (asOfEventId s) (asOfDate s) (shareClasses s) (holdings s)
     (safes s) (people s) x.
End CapTableState.

(** * Event payloads *)

Inductive InputMode : Type := mode_percentage | mode_shares.

Module Founder.
Record t : Type := mk {
  personId : string;
  name : string;
  percentage : option Q;
  shares : option Z
}.
End Founder.

(** [esopPool] of an incorporation and the payload of a pool creation:
    [inputMode] with the field it selects. *)
Inductive EsopPoolInput : Type :=
| pool_percentage (percentage : Q)
| pool_shares (shares : Z).

Module IncorporationEventData.
Record t : Type := mk {
  totalIssuedShares : Q;
  pricePerShare : option Q;
  founderInputMode : InputMode;
  founders : list Founder.t;
  esopPool : option EsopPoolInput
}.
End IncorporationEventData.

Inductive ValuationInputType : Type :=
  input_post_money | input_pre_money | input_price_per_share.

Module Investor.
Record t : Type := mk {
  personId : string;
  name : string;
  amount : option Q
}.
End Investor.

Module PricedRoundEventData.
Record t : Type := mk {
  valuationInputType : ValuationInputType;
  postMoneyValuation : option Q;
  preMoneyValuation : option Q;
  pricePerShare : option Q;
  totalNewMoney : option Q;
  investors : list Investor.t;
  shareClassId : option string;
  createNewShareClass : bool;
  shareClassName : option string;
  liquidationPreference : option Q;
  participation : option ParticipationType;
  participationCap : option Q;
  esopTargetPercent : option Q;
  safesToConvert : option (list string)
}.
End PricedRoundEventData.

Module SafeInput.
Record t : Type := mk {
  id : option string;
  investorId : string;
  investorName : string;
  principalAmount : Q;
  valuationType : option ValuationType;
  valuationCap : option Q;
  discountPercent : option Q;
  mostFavoredNation : option bool;
  conversionShareClassId : option string;
  notes : option string
}.
End SafeInput.

Module VestingScheduleInput.
Record t : Type := mk {
  description : option string;
  cliffMonths : Z;
  totalMonths : Z;
  vestingFrequency : VestingFrequency;
  initialCliffPercent : Q
}.
End VestingScheduleInput.

Module ESOPGrantEventData.
Record t : Type := mk {
  employeeId : string;
  employeeName : string;
  grantMode : InputMode;
  percentage : option Q;
  shares : option Z;
  strikePrice : option string;
  vestingStartDate : option date;
  vestingScheduleId : option string;
  vestingSchedule : option VestingScheduleInput.t
}.
End ESOPGrantEventData.

Module OptionExerciseEventData.
Record t : Type := mk {
  employeeId : string;
  shares : Z
}.
End OptionExerciseEventData.

(** The event type together with the payload that the handler of this type
    reads; [UNKNOWN] is any other type string. *)
Inductive EventData : Type :=
| INCORPORATION (data : IncorporationEventData.t)
| PRICED_ROUND (data : PricedRoundEventData.t)
| SAFE_ISSUANCE (safes : list SafeInput.t)
| ESOP_POOL_CREATION (data : EsopPoolInput)
| ESOP_POOL_EXTENSION (targetPercent : Q)
| ESOP_GRANT (data : ESOPGrantEventData.t)
| OPTION_EXERCISE (data : OptionExerciseEventData.t)
| UNKNOWN (type : string).

Module EventBase.
Record t : Type := mk {
  id : string;
  companyId : string;
  date : date;
  label : string;
  data : EventData
}.
End EventBase.

(** * Decimal utilities *)

Definition toDecimal (value : option Q) : Q :=
  match value with
  | Some v => v
  | None => 0%Q
  end.

(** [shares.round().toNumber()]. *)
Definition roundShares (shares : Q) : Z := Double.ofZ (Decimal.round_half_up shares).

Module ExactShare.
Record t : Type := mk {
  id : string;
  exact : Q;
  floor : Z;
  remainder : Q
}.
End ExactShare.

(** An entry of [new Map(exactShares.map(r => [r.id, r.floor]))]. *)
Definition floor_entry (m : gmap string Z) (r : ExactShare.t) : gmap string Z :=
  <[ExactShare.id r := ExactShare.floor r]> m.

(** One pass of the award loop: [result.set(id, (result.get(id) || 0) + 1)]. *)
Definition award (result : gmap string Z) (r : ExactShare.t) : gmap string Z :=
  <[ExactShare.id r := Double.ofZ (default 0 (result !! ExactShare.id r) + 1)]> result.

(** The floors, their sum and the count of shares left over are numbers:
    [floor().toNumber()], [sum + r.floor] and [totalShares - distributed]
    are the doubles nearest to the exact values, and the comparator of the
    sort is the number nearest to the difference of two remainders. *)
Definition distributeSharesByLargestRemainder
    (totalShares : Z) (recipients : list (string * Q)) : list (string * Z) :=
  let total := Double.toDecimal (inject_Z totalShares) in
  let exactShares :=
    map (fun r : string * Q =>
           let exact := Decimal.times total (snd r) in
           let floor := Double.ofZ (Decimal.round_floor exact) in
           ExactShare.mk (fst r) exact floor
             (Decimal.minus exact (Double.toDecimal (inject_Z floor))))
        recipients in
  let distributed :=
    fold_left (fun sum r => Double.ofZ (sum + ExactShare.floor r)) exactShares 0 in
  let remaining := Double.ofZ (totalShares - distributed) in
  let sorted :=
    sort (fun a b =>
            Decimal.gt
              (Double.round
                 (Decimal.minus (ExactShare.remainder b) (ExactShare.remainder a)))
              0)
         exactShares in
  let result0 : gmap string Z := fold_left floor_entry exactShares ∅ in
  (* for (let i = 0; i < remaining && i < sorted.length; i++) *)
  let awarded := Z.to_nat (Z.min remaining (Z.of_nat (length sorted))) in
  let result := fold_left award (take awarded sorted) result0 in
  map (fun r : string * Q => (fst r, default 0 (result !! fst r))) recipients.

Definition calculateESOPPoolFromPercent (existingShares : Q) (targetPercent : Q)
    : outcome Z :=
  let existing := existingShares in
  let p := targetPercent in
  if Decimal.gte p 1 then Throw "Target ESOP percentage must be less than 100%"
  else
    (pool <~ ddiv (Decimal.times existing p) (Decimal.minus 1 p) ;;
     Ok (roundShares pool))%engine.

Definition calculateESOPExtension
    (currentFullyDiluted currentPoolSize : Q) (targetPercent : Q) : outcome Z :=
  let totalFD := currentFullyDiluted in
  let currentPool := currentPoolSize in
  let p := targetPercent in
  let nonPoolShares := Decimal.minus totalFD currentPool in
  (targetPool <~ ddiv (Decimal.times nonPoolShares p) (Decimal.minus 1 p) ;;
   let extension := Decimal.minus targetPool currentPool in
   Ok (Z.max 0 (roundShares extension)))%engine.

(** * State management *)

Definition createInitialState (companyId : string) : CapTableState.t :=
  CapTableState.mk companyId None None [] [] [] [] [].

(** [JSON.parse(JSON.stringify(state))]: states are values. *)
Definition cloneState (state : CapTableState.t) : CapTableState.t := state.

(** * Helper functions *)

Module Metrics.
Record t : Type := mk {
  legalIssuedShares : Q;
  fullyDilutedShares : Q
}.
End Metrics.

Definition find_shareClass (state : CapTableState.t) (id : string)
    : option ShareClass.t :=
  find (fun sc => String.eqb (ShareClass.id sc) id) (CapTableState.shareClasses state).

Definition is_type (ty : ShareClassType) (sc : ShareClass.t) : bool :=
  bool_decide (ShareClass.type sc = ty).

(** The totals of [calculatePreRoundMetrics]; the per-class and per-holder
    maps it also returns are read by no function of the engine. *)
Definition calculatePreRoundMetrics (state : CapTableState.t) : Metrics.t :=
  fold_left
    (fun (m : Metrics.t) (holding : SecurityHolding.t) =>
       let qty := inject_Z (SecurityHolding.quantity holding) in
       let legal :=
         match find_shareClass state (SecurityHolding.shareClassId holding) with
         | Some shareClass =>
             if is_type OPTION shareClass then Metrics.legalIssuedShares m
             else Decimal.plus (Metrics.legalIssuedShares m) qty
         | None => Metrics.legalIssuedShares m
         end in
       Metrics.mk legal (Decimal.plus (Metrics.fullyDilutedShares m) qty))
    (CapTableState.holdings state)
    (Metrics.mk 0 0).

Definition is_pool_option (h : SecurityHolding.t) : bool :=
  String.eqb (SecurityHolding.holderId h) ESOP_POOL_HOLDER_ID && SecurityHolding.isOption h.

Definition getUnallocatedESOPPool (state : CapTableState.t) : Z :=
  match find is_pool_option (CapTableState.holdings state) with
  | Some poolHolding => SecurityHolding.quantity poolHolding
  | None => 0
  end.

Module SAFEConversion.
Record t : Type := mk {
  shares : Z;
  effectivePrice : Extended.t;
  method : string
}.
End SAFEConversion.

(** The number [1 - discountPercent / 100]; [discountPercent] is read as
    the double nearest to it. *)
Definition discountFactor (discountPercent : Q) : Extended.t :=
  Double.sub (Extended.Finite 1)
    (Double.div (Double.ofQ discountPercent) (Extended.Finite 100)).

(** [safe.discountPercent && safe.discountPercent > 0]. *)
Definition discount_present (discountPercent : option Q) : option Q :=
  match discountPercent with
  | Some d =>
      if Extended.lt (Extended.Finite 0) (Double.ofQ d) then Some d else None
  | None => None
  end.

(** [price.times(1 - discountPercent / 100)]: the factor enters the product
    as the decimal that is written for it. *)
Definition discountPriceOf (price discountPercent : Q) : Extended.t :=
  Extended.times price (Double.asDecimal (discountFactor discountPercent)).

(** The result has a share count unless the division of the principal by
    the effective price is not finite. *)
Definition calculateSAFEConversion
    (safe : SAFE.t) (roundPrice : Q) (fullyDilutedShares : Q)
    : outcome SAFEConversion.t :=
  let principal := SAFE.principalAmount safe in
  let capPrice :=
    match SAFE.valuationCap safe with
    | Some cap => Some (Extended.div cap fullyDilutedShares)
    | None => None
    end in
  let discountPrice :=
    match discount_present (SAFE.discountPercent safe) with
    | Some d => Some (discountPriceOf roundPrice d)
    | None => None
    end in
  let '(effectivePrice, method) :=
    match capPrice, discountPrice with
    | Some capPrice, Some discountPrice =>
        if Extended.lt capPrice discountPrice then (capPrice, "cap"%string)
        else (discountPrice, "discount"%string)
    | Some capPrice, None =>
        if Extended.lt capPrice (Extended.Finite roundPrice)
        then (capPrice, "cap"%string)
        else (Extended.Finite roundPrice, "round_price"%string)
    | None, Some discountPrice =>
        if Extended.lt discountPrice (Extended.Finite roundPrice)
        then (discountPrice, "discount"%string)
        else (Extended.Finite roundPrice, "round_price"%string)
    | None, None => (Extended.Finite roundPrice, "round_price"%string)
    end in
  match Extended.div_by principal effectivePrice with
  | Extended.Finite q => Ok (SAFEConversion.mk (roundShares q) effectivePrice method)
  | _ => NonFinite
  end.

(** The double [30.44 * 24 * 60 * 60 * 1000], which is [2630016000 + 2^-21]. *)
Definition msPerMonth : Q := (2630016000 + 1 / 2097152)%Q.

Definition monthsElapsed (startDate evalDate : date) : Z :=
  Qfloor (inject_Z (evalDate - startDate) / msPerMonth).

Definition find_vestingSchedule (state : CapTableState.t) (id : string)
    : option VestingSchedule.t :=
  find (fun v => String.eqb (VestingSchedule.id v) id)
       (CapTableState.vestingSchedules state).

(** [holding.vestingStartDate || holding.grantDate || asOfDate]. *)
Definition vestingStart (holding : SecurityHolding.t) (asOfDate : date) : date :=
  match SecurityHolding.vestingStartDate holding with
  | Some d => d
  | None => default asOfDate (SecurityHolding.grantDate holding)
  end.

(** [calculateVestedOptions] once the schedule of the holding is found.
    The product and the quotient of [cliffVested] are exact; they are the
    doubles of the source for a whole percentage and a product below
    2^53. *)
Definition vestedUnderSchedule
    (holding : SecurityHolding.t) (asOfDate : date) (schedule : VestingSchedule.t)
    : JsNum.t :=
  let startDate := vestingStart holding asOfDate in
  let evalDate := asOfDate in
  let totalOptions := SecurityHolding.quantity holding in
  let monthsElapsed := monthsElapsed startDate evalDate in
  if monthsElapsed <? VestingSchedule.cliffMonths schedule then JsNum.Int 0
  else
    let cliffPercent :=
      if Qeq_bool (VestingSchedule.initialCliffPercent schedule) 0
      then (25 # 1)%Q
      else VestingSchedule.initialCliffPercent schedule in
    let cliffVested :=
      Qfloor (inject_Z totalOptions * cliffPercent / 100) in
    let remainingOptions := totalOptions - cliffVested in
    let remainingMonths :=
      VestingSchedule.totalMonths schedule - VestingSchedule.cliffMonths schedule in
    let monthsAfterCliff := monthsElapsed - VestingSchedule.cliffMonths schedule in
    let postCliffVested :=
      JsNum.min (JsNum.Int remainingOptions)
                (JsNum.div_floor (remainingOptions * monthsAfterCliff)
                                 remainingMonths) in
    JsNum.min (JsNum.Int totalOptions)
              (JsNum.add (JsNum.Int cliffVested) postCliffVested).

Definition calculateVestedOptions
    (holding : SecurityHolding.t) (asOfDate : date) (state : CapTableState.t)
    : JsNum.t :=
  if negb (truthy (SecurityHolding.vestingScheduleId holding))
  then JsNum.Int (SecurityHolding.quantity holding)
  else
    match find_vestingSchedule state
            (default ""%string (SecurityHolding.vestingScheduleId holding)) with
    | None => JsNum.Int (SecurityHolding.quantity holding)
    | Some schedule => vestedUnderSchedule holding asOfDate schedule
    end.

(** * Event handlers *)

Local Open Scope engine_scope.

Definition has_person (state : CapTableState.t) (id : string) : bool :=
  bool_decide (is_Some
    (find (fun p => String.eqb (Person.id p) id) (CapTableState.people state))).

Definition push_person (state : CapTableState.t) (p : Person.t) : CapTableState.t :=
  CapTableState.set_people state (CapTableState.people state ++ [p]).

(** [if (!state.people.find(p => p.id === id)) state.people.push(...)]. *)
Definition add_person (state : CapTableState.t) (p : Person.t) : CapTableState.t :=
  if has_person state (Person.id p) then state else push_person state p.

Definition push_shareClass (state : CapTableState.t) (sc : ShareClass.t)
    : CapTableState.t :=
  CapTableState.set_shareClasses state (CapTableState.shareClasses state ++ [sc]).

Definition push_holding (state : CapTableState.t) (h : SecurityHolding.t)
    : CapTableState.t :=
  CapTableState.set_holdings state (CapTableState.holdings state ++ [h]).

(** [holding.quantity = String(parseInt(holding.quantity, 10) + n)] on the
    holding at index [i]. *)
Definition add_quantity (state : CapTableState.t) (i : nat) (n : Z) : CapTableState.t :=
  match CapTableState.holdings state !! i with
  | Some h =>
      CapTableState.set_holdings state
        (<[i := SecurityHolding.set_quantity h (SecurityHolding.quantity h + n)]>
           (CapTableState.holdings state))
  | None => state
  end.

Definition esopPoolPerson : Person.t :=
  Person.mk ESOP_POOL_HOLDER_ID "ESOP Pool (Unallocated)" ESOP_POOL.

Definition optionShareClass (id : string) : ShareClass.t :=
  ShareClass.mk id "Employee Options" OPTION 0 0 non_participating None true None.

Definition plainHolding (id holderId shareClassId : string) (quantity : Z)
    (sourceEventId : string) (isOption : bool) (investmentAmount : option Q)
    : SecurityHolding.t :=
  SecurityHolding.mk id holderId shareClassId quantity sourceEventId isOption
    None None None None investmentAmount.

(** [allocation?.shares || 0] for the first allocation of [personId]. *)
Definition allocated {A : Type} (allocations : list (string * A))
    (shares : A -> option Z) (personId : string) : Z :=
  match find (fun a => String.eqb (fst a) personId) allocations with
  | Some a => default 0 (shares (snd a))
  | None => 0
  end.

Definition applyIncorporation (state : CapTableState.t) (event : EventBase.t)
    (data : IncorporationEventData.t) : M CapTableState.t :=
  commonClassId <- uuidv4 ;;
  let state :=
    push_shareClass state
      (ShareClass.mk commonClassId "Common" COMMON 0 1 non_participating None false
         (Some (default (1 # 10000)%Q (IncorporationEventData.pricePerShare data)))) in
  let state :=
    match IncorporationEventData.esopPool data with
    | Some _ => push_person state esopPoolPerson
    | None => state
    end in
  let founders := IncorporationEventData.founders data in
  let totalFounderShares := IncorporationEventData.totalIssuedShares data in
  let founderAllocations : list (string * option Z) :=
    match IncorporationEventData.founderInputMode data with
    | mode_percentage =>
        let allocations :=
          map (fun f => (Founder.personId f,
                         Decimal.finalise (toDecimal (Founder.percentage f) / 100)))
              founders in
        let distribution :=
          distributeSharesByLargestRemainder (roundShares totalFounderShares)
            allocations in
        map (fun d : string * Z => (fst d, Some (snd d))) distribution
    | mode_shares =>
        map (fun f => (Founder.personId f, Founder.shares f)) founders
    end in
  state <-
    foldM (fun state founder =>
             let state :=
               add_person state
                 (Person.mk (Founder.personId founder) (Founder.name founder) FOUNDER) in
             id <- uuidv4 ;;
             ret (push_holding state
                    (plainHolding id (Founder.personId founder) commonClassId
                       (allocated founderAllocations (fun s => s)
                          (Founder.personId founder))
                       (EventBase.id event) false None)))
          state founders ;;
  match IncorporationEventData.esopPool data with
  | Some esopPool =>
      optionClassId <- uuidv4 ;;
      let state := push_shareClass state (optionShareClass optionClassId) in
      esopShares <-
        lift match esopPool with
             | pool_percentage percentage =>
                 (* a founder without [shares] makes the total [NaN] *)
                 match fold_left (fun sum (f : string * option Z) =>
                                    match sum, snd f with
                                    | Some t, Some s => Some (t + s)
                                    | _, _ => None
                                    end)
                                 founderAllocations (Some 0) with
                 | Some founderTotal =>
                     calculateESOPPoolFromPercent (inject_Z founderTotal)
                       (percentage / 100)
                 | None =>
                     if Decimal.gte (percentage / 100) 1
                     then Throw "Target ESOP percentage must be less than 100%"
                     else NonFinite
                 end
             | pool_shares shares => Ok shares
             end ;;
      id <- uuidv4 ;;
      ret (push_holding state
             (plainHolding id ESOP_POOL_HOLDER_ID optionClassId esopShares
                (EventBase.id event) true None))
  | None => ret state
  end.

Definition unconverted (s : SAFE.t) : bool :=
  negb (truthy (SAFE.convertedInEventId s)).

Definition find_safe (state : CapTableState.t) (id : string) : option (nat * SAFE.t) :=
  find_index (fun s => String.eqb (SAFE.id s) id) (CapTableState.safes state).

(** The price at which the price solver of a round and the exit convert a
    SAFE: the price given, lowered to the cap price and then to the
    discount price where these are less. *)
Definition lowerPrice (price fullyDiluted : Q) (safe : SAFE.t) : Extended.t :=
  let effectivePrice :=
    match SAFE.valuationCap safe with
    | Some cap =>
        let capPrice := Extended.div cap fullyDiluted in
        if Extended.lt capPrice (Extended.Finite price) then capPrice
        else Extended.Finite price
    | None => Extended.Finite price
    end in
  match discount_present (SAFE.discountPercent safe) with
  | Some d =>
      let discountPrice := discountPriceOf price d in
      if Extended.lt discountPrice effectivePrice then discountPrice
      else effectivePrice
  | None => effectivePrice
  end.

(** Shares that one converting SAFE adds to the estimate of an iteration of
    the post-money price solver. *)
Definition estimateSafeShares (preRoundFD totalNewShares pricePerShare : Q)
    (totalSafeSharesCalc : Q) (safe : SAFE.t) : outcome Q :=
  let principal := SAFE.principalAmount safe in
  match SAFE.valuationType safe, SAFE.valuationCap safe with
  | post_money, Some cap =>
      ownershipPercent <~ ddiv principal cap ;;
      let totalSharesEstimate :=
        Decimal.plus (Decimal.plus preRoundFD totalNewShares) totalSafeSharesCalc in
      safeShares <~ ddiv (Decimal.times totalSharesEstimate ownershipPercent)
                         (Decimal.minus 1 ownershipPercent) ;;
      Ok (Decimal.plus totalSafeSharesCalc safeShares)
  | _, _ =>
      let effectivePrice := lowerPrice pricePerShare preRoundFD safe in
      match Extended.div_by principal effectivePrice with
      | Extended.Finite safeShares => Ok (Decimal.plus totalSafeSharesCalc safeShares)
      | _ => NonFinite
      end
  end.

Fixpoint ofoldl {A B : Type} (f : A -> B -> outcome A) (a : A) (l : list B)
    : outcome A :=
  match l with
  | [] => Ok a
  | b :: l' => obind (f a b) (fun a' => ofoldl f a' l')
  end.

(** The [for (let iter = 0; iter < 10; iter++)] loop of a post-money round:
    [iters] is the number of iterations left. *)
Fixpoint solvePostMoneyPrice (iters : nat) (preRoundFD totalCashInvestment
    postMoneyValuation : Q) (convertingSafes : list SAFE.t) (pricePerShare : Q)
    : outcome Q :=
  match iters with
  | O => Ok pricePerShare
  | S iters' =>
      totalNewShares <~ ddiv totalCashInvestment pricePerShare ;;
      totalSafeSharesCalc <~
        ofoldl (estimateSafeShares preRoundFD totalNewShares pricePerShare)
               0%Q convertingSafes ;;
      let totalSharesAfter :=
        Decimal.plus (Decimal.plus preRoundFD totalNewShares) totalSafeSharesCalc in
      newPrice <~ ddiv postMoneyValuation totalSharesAfter ;;
      if Decimal.lt (Qabs (Decimal.minus newPrice pricePerShare)) (1 # 10000)
      then Ok newPrice
      else solvePostMoneyPrice iters' preRoundFD totalCashInvestment
             postMoneyValuation convertingSafes newPrice
  end.

(** Price per share of a round.  In a round given by its price, the new
    share count and the post-money valuation computed by the source are not
    read afterwards. *)
Definition roundPrice (data : PricedRoundEventData.t) (preRoundFD : Q)
    (convertingSafes : list SAFE.t) : outcome Q :=
  let totalCashInvestment := toDecimal (PricedRoundEventData.totalNewMoney data) in
  match PricedRoundEventData.valuationInputType data with
  | input_price_per_share => Ok (toDecimal (PricedRoundEventData.pricePerShare data))
  | input_pre_money =>
      let preMoney := toDecimal (PricedRoundEventData.preMoneyValuation data) in
      ddiv preMoney preRoundFD
  | input_post_money =>
      let postMoneyValuation :=
        toDecimal (PricedRoundEventData.postMoneyValuation data) in
      pricePerShare <~
        ddiv (Decimal.minus postMoneyValuation totalCashInvestment) preRoundFD ;;
      solvePostMoneyPrice 10 preRoundFD totalCashInvestment postMoneyValuation
        convertingSafes pricePerShare
  end.

(** [`Series ${String.fromCharCode(65 + n)}`]. *)
Definition seriesName (n : nat) : string :=
  "Series " +:+ String (Ascii.ascii_of_nat (65 + n)) EmptyString.

Definition or_default_string (s : option string) (d : string) : string :=
  if truthy s then default d s else d.

(** [x || d] for a number. *)
Definition or_default_number (x : option Q) (d : Q) : Q :=
  match x with
  | Some v => if Qeq_bool v 0 then d else v
  | None => d
  end.

Definition convertSAFE (event : EventBase.t) (pricePerShare preRoundFD : Q)
    (preferredClassId : string) (state : CapTableState.t) (safeId : string)
    : M CapTableState.t :=
  match find_safe state safeId with
  | None => ret state
  | Some (i, safe) =>
      if negb (unconverted safe) then ret state
      else
        conversionResult <- lift (calculateSAFEConversion safe pricePerShare preRoundFD) ;;
        let state :=
          add_person state
            (Person.mk (SAFE.investorId safe)
               (or_default_string (SAFE.investorName safe) "SAFE Investor") INVESTOR) in
        id <- uuidv4 ;;
        let state :=
          push_holding state
            (plainHolding id (SAFE.investorId safe) preferredClassId
               (SAFEConversion.shares conversionResult) (EventBase.id event) false
               (Some (SAFE.principalAmount safe))) in
        ret (CapTableState.set_safes state
               (<[i := SAFE.set_convertedInEventId safe (EventBase.id event)]>
                  (CapTableState.safes state)))
  end.

(** A target pool percentage: [calculateESOPExtension] on the current
    metrics, added to the first pool holding. *)
Definition topUpPool (state : CapTableState.t) (targetPercent : Q)
    (poolHolding : SecurityHolding.t -> bool) : outcome CapTableState.t :=
  let metrics := calculatePreRoundMetrics state in
  let currentPool := getUnallocatedESOPPool state in
  extension <~ calculateESOPExtension (Metrics.fullyDilutedShares metrics)
                 (inject_Z currentPool) (targetPercent / 100) ;;
  if 0 <? extension then
    match find_index poolHolding (CapTableState.holdings state) with
    | Some (i, _) => Ok (add_quantity state i extension)
    | None => Ok state
    end
  else Ok state.

Definition applyPricedRound (state : CapTableState.t) (event : EventBase.t)
    (data : PricedRoundEventData.t) : M CapTableState.t :=
  let preRoundMetrics := calculatePreRoundMetrics state in
  let preRoundFD := Metrics.fullyDilutedShares preRoundMetrics in
  let safesToConvert :=
    match PricedRoundEventData.safesToConvert data with
    | Some ids => ids
    | None => map SAFE.id (List.filter unconverted
                             (CapTableState.safes state))
    end in
  let convertingSafes :=
    List.filter unconverted
      (omap (fun id => snd <$> find_safe state id) safesToConvert) in
  pricePerShare <- lift (roundPrice data preRoundFD convertingSafes) ;;
  (* Create preferred share class *)
  created <-
    (if negb (truthy (PricedRoundEventData.shareClassId data))
        || PricedRoundEventData.createNewShareClass data
     then
       preferredClassId <- uuidv4 ;;
       let existingPreferred :=
         List.filter (is_type PREFERRED)
           (CapTableState.shareClasses state) in
       ret (push_shareClass state
              (ShareClass.mk preferredClassId
                 (or_default_string (PricedRoundEventData.shareClassName data)
                    (seriesName (length existingPreferred)))
                 PREFERRED
                 (Z.of_nat (length existingPreferred) + 1)
                 (or_default_number (PricedRoundEventData.liquidationPreference data) 1)
                 (default non_participating (PricedRoundEventData.participation data))
                 (PricedRoundEventData.participationCap data)
                 true
                 (Some pricePerShare)),
            preferredClassId)
     else ret (state, default ""%string (PricedRoundEventData.shareClassId data))) ;;
  let '(state, preferredClassId) := created in
  (* Convert SAFEs *)
  state <- foldM (convertSAFE event pricePerShare preRoundFD preferredClassId)
             state safesToConvert ;;
  (* Issue new shares to cash investors *)
  let investors :=
    List.filter (fun inv => match Investor.amount inv with
                            | Some a => Decimal.gt a 0
                            | None => false
                            end)
      (PricedRoundEventData.investors data) in
  let totalCashInvestmentActual :=
    fold_left (fun sum inv => Decimal.plus sum (toDecimal (Investor.amount inv)))
      investors 0%Q in
  totalNewShares <-
    lift (if Decimal.isZero totalCashInvestmentActual then Ok 0%Q
          else ddiv totalCashInvestmentActual pricePerShare) ;;
  state <-
    (if negb (Nat.eqb (length investors) 0)
        && negb (Decimal.isZero totalCashInvestmentActual)
     then
       let investorAllocations :=
         map (fun inv => (Investor.personId inv,
                          Decimal.finalise (toDecimal (Investor.amount inv)
                                            / totalCashInvestmentActual)))
             investors in
       let distribution :=
         distributeSharesByLargestRemainder (roundShares totalNewShares)
           investorAllocations in
       foldM (fun state investor =>
                let state :=
                  add_person state
                    (Person.mk (Investor.personId investor) (Investor.name investor)
                       INVESTOR) in
                id <- uuidv4 ;;
                ret (push_holding state
                       (plainHolding id (Investor.personId investor) preferredClassId
                          (allocated distribution Some (Investor.personId investor))
                          (EventBase.id event) false (Investor.amount investor))))
             state investors
     else ret state) ;;
  (* Handle ESOP pool target *)
  match PricedRoundEventData.esopTargetPercent data with
  | Some esopTargetPercent =>
      if Qeq_bool esopTargetPercent 0 then ret state
      else
        match find (is_type OPTION) (CapTableState.shareClasses state) with
        | Some optionClass => lift (topUpPool state esopTargetPercent is_pool_option)
        | None => ret state
        end
  | None => ret state
  end.

Definition applySAFEIssuance (state : CapTableState.t) (event : EventBase.t)
    (safes : list SafeInput.t) : M CapTableState.t :=
  foldM (fun state safe =>
           let state :=
             add_person state
               (Person.mk (SafeInput.investorId safe) (SafeInput.investorName safe)
                  INVESTOR) in
           id <- (if truthy (SafeInput.id safe)
                  then ret (default ""%string (SafeInput.id safe))
                  else uuidv4) ;;
           ret (CapTableState.set_safes state
                  (CapTableState.safes state ++
                   [SAFE.mk id (SafeInput.investorId safe)
                      (Some (SafeInput.investorName safe))
                      (SafeInput.principalAmount safe)
                      (default post_money (SafeInput.valuationType safe))
                      (SafeInput.valuationCap safe)
                      (SafeInput.discountPercent safe)
                      (default false (SafeInput.mostFavoredNation safe))
                      (EventBase.date event)
                      (SafeInput.conversionShareClassId safe)
                      None
                      (SafeInput.notes safe)])))
        state safes.

Definition is_pool_of (optionClassId : string) (h : SecurityHolding.t) : bool :=
  String.eqb (SecurityHolding.holderId h) ESOP_POOL_HOLDER_ID
  && String.eqb (SecurityHolding.shareClassId h) optionClassId.

Definition applyESOPPoolCreation (state : CapTableState.t) (event : EventBase.t)
    (data : EsopPoolInput) : M CapTableState.t :=
  let state := add_person state esopPoolPerson in
  created <-
    match find (is_type OPTION) (CapTableState.shareClasses state) with
    | Some optionClass => ret (state, optionClass)
    | None =>
        optionClassId <- uuidv4 ;;
        ret (push_shareClass state (optionShareClass optionClassId),
             optionShareClass optionClassId)
    end ;;
  let '(state, optionClass) := created in
  poolShares <-
    lift match data with
         | pool_percentage percentage =>
             let metrics := calculatePreRoundMetrics state in
             let existingShares := Metrics.legalIssuedShares metrics in
             calculateESOPPoolFromPercent existingShares (percentage / 100)
         | pool_shares shares => Ok shares
         end ;;
  match find_index (is_pool_of (ShareClass.id optionClass))
          (CapTableState.holdings state) with
  | Some (i, _) => ret (add_quantity state i poolShares)
  | None =>
      id <- uuidv4 ;;
      ret (push_holding state
             (plainHolding id ESOP_POOL_HOLDER_ID (ShareClass.id optionClass)
                poolShares (EventBase.id event) true None))
  end.

Definition applyESOPPoolExtension (state : CapTableState.t) (event : EventBase.t)
    (targetPercent : Q) : M CapTableState.t :=
  lift (topUpPool state targetPercent
          (fun h =>
             match find (is_type OPTION) (CapTableState.shareClasses state) with
             | Some optionClass => is_pool_of (ShareClass.id optionClass) h
             | None => false
             end)).

Definition show (n : JsNum.t) : string :=
  match n with
  | JsNum.Int z => pretty z
  | JsNum.NaN => "NaN"
  | JsNum.PosInf => "Infinity"
  | JsNum.NegInf => "-Infinity"
  end.

(** [Math.round(targetPercent * totalFD / (1 - targetPercent))] with
    [targetPercent = parseFloat(percentage) / 100] and
    [totalFD = parseFloat(fullyDilutedShares)], all of them numbers. *)
Definition grantSharesFromPercent (percentage fullyDilutedShares : Q) : JsNum.t :=
  let targetPercent := Double.div (Double.ofQ percentage) (Extended.Finite 100) in
  let totalFD := Double.ofQ fullyDilutedShares in
  JsNum.round
    (Double.div (Double.mul targetPercent totalFD)
       (Double.sub (Extended.Finite 1) targetPercent)).

Definition applyESOPGrant (state : CapTableState.t) (event : EventBase.t)
    (data : ESOPGrantEventData.t) : M CapTableState.t :=
  let state :=
    add_person state
      (Person.mk (ESOPGrantEventData.employeeId data)
         (ESOPGrantEventData.employeeName data) EMPLOYEE) in
  match find (is_type OPTION) (CapTableState.shareClasses state) with
  | None => throw "No option share class exists. Create an ESOP pool first."
  | Some optionClass =>
      let grantShares : JsNum.t :=
        match ESOPGrantEventData.grantMode data,
              ESOPGrantEventData.percentage data with
        | mode_percentage, Some percentage =>
            if Qeq_bool percentage 0
            then JsNum.Int (default 0 (ESOPGrantEventData.shares data))
            else
              let metrics := calculatePreRoundMetrics state in
              grantSharesFromPercent percentage (Metrics.fullyDilutedShares metrics)
        | _, _ => JsNum.Int (default 0 (ESOPGrantEventData.shares data))
        end in
      state <-
        match find_index (is_pool_of (ShareClass.id optionClass))
                (CapTableState.holdings state) with
        | Some (i, poolHolding) =>
            let currentPool := SecurityHolding.quantity poolHolding in
            if JsNum.lt (JsNum.Int currentPool) grantShares
            then throw ("Insufficient ESOP pool. Available: " +:+ pretty currentPool
                        +:+ ", Requested: " +:+ show grantShares)
            else
              match grantShares with
              | JsNum.Int n => ret (add_quantity state i (- n))
              | _ => lift NonFinite
              end
        | None => ret state
        end ;;
      match grantShares with
      | JsNum.Int grantShares =>
          created <-
            match ESOPGrantEventData.vestingSchedule data with
            | Some vestingSchedule =>
                if truthy (ESOPGrantEventData.vestingScheduleId data)
                then ret (state, ESOPGrantEventData.vestingScheduleId data)
                else
                  vestingScheduleId <- uuidv4 ;;
                  ret (CapTableState.set_vestingSchedules state
                         (CapTableState.vestingSchedules state ++
                          [VestingSchedule.mk vestingScheduleId
                             (VestingScheduleInput.description vestingSchedule)
                             (VestingScheduleInput.cliffMonths vestingSchedule)
                             (VestingScheduleInput.totalMonths vestingSchedule)
                             (VestingScheduleInput.vestingFrequency vestingSchedule)
                             (VestingScheduleInput.initialCliffPercent vestingSchedule)]),
                       Some vestingScheduleId)
            | None => ret (state, ESOPGrantEventData.vestingScheduleId data)
            end ;;
          let '(state, vestingScheduleId) := created in
          id <- uuidv4 ;;
          ret (push_holding state
                 (SecurityHolding.mk id (ESOPGrantEventData.employeeId data)
                    (ShareClass.id optionClass) grantShares (EventBase.id event) true
                    (ESOPGrantEventData.strikePrice data)
                    vestingScheduleId
                    (Some (default (EventBase.date event)
                             (ESOPGrantEventData.vestingStartDate data)))
                    (Some (EventBase.date event))
                    None))
      | _ => lift NonFinite
      end
  end.

(** The option holding of an employee, and their common holding. *)
Definition is_option_holding_of (employeeId optionClassId : string)
    (h : SecurityHolding.t) : bool :=
  String.eqb (SecurityHolding.holderId h) employeeId
  && String.eqb (SecurityHolding.shareClassId h) optionClassId
  && SecurityHolding.isOption h.

Definition is_common_holding_of (employeeId commonClassId : string)
    (h : SecurityHolding.t) : bool :=
  String.eqb (SecurityHolding.holderId h) employeeId
  && String.eqb (SecurityHolding.shareClassId h) commonClassId
  && negb (SecurityHolding.isOption h).

Definition applyOptionExercise (state : CapTableState.t) (event : EventBase.t)
    (data : OptionExerciseEventData.t) : M CapTableState.t :=
  match find (is_type OPTION) (CapTableState.shareClasses state),
        find (is_type COMMON) (CapTableState.shareClasses state) with
  | Some optionClass, Some commonClass =>
      match find_index
              (is_option_holding_of (OptionExerciseEventData.employeeId data)
                 (ShareClass.id optionClass))
              (CapTableState.holdings state) with
      | None => throw "Employee has no option holdings"
      | Some (i, optionHolding) =>
          let exerciseShares := OptionExerciseEventData.shares data in
          let currentOptions := SecurityHolding.quantity optionHolding in
          let vestedOptions :=
            calculateVestedOptions optionHolding (EventBase.date event) state in
          if JsNum.lt vestedOptions (JsNum.Int exerciseShares)
          then throw ("Insufficient vested options. Vested: " +:+ show vestedOptions
                      +:+ ", Requested: " +:+ pretty exerciseShares)
          else
            let state := add_quantity state i (- exerciseShares) in
            match find_index
                    (is_common_holding_of (OptionExerciseEventData.employeeId data)
                       (ShareClass.id commonClass))
                    (CapTableState.holdings state) with
            | Some (j, _) => ret (add_quantity state j exerciseShares)
            | None =>
                id <- uuidv4 ;;
                ret (push_holding state
                       (plainHolding id (OptionExerciseEventData.employeeId data)
                          (ShareClass.id commonClass) exerciseShares
                          (EventBase.id event) false None))
            end
      end
  | _, _ => throw "Option or common share class not found"
  end.

(** * Main entry points *)

Definition applyEvent (state : CapTableState.t) (event : EventBase.t)
    : M CapTableState.t :=
  let newState := cloneState state in
  let newState :=
    CapTableState.set_asOf newState (EventBase.id event) (EventBase.date event) in
  match EventBase.data event with
  | INCORPORATION data => applyIncorporation newState event data
  | PRICED_ROUND data => applyPricedRound newState event data
  | SAFE_ISSUANCE safes => applySAFEIssuance newState event safes
  | ESOP_POOL_CREATION data => applyESOPPoolCreation newState event data
  | ESOP_POOL_EXTENSION targetPercent =>
      applyESOPPoolExtension newState event targetPercent
  | ESOP_GRANT data => applyESOPGrant newState event data
  | OPTION_EXERCISE data => applyOptionExercise newState event data
  | UNKNOWN type => throw ("Unknown event type: " +:+ type)
  end.

Module Snapshot.
Record t : Type := mk {
  eventId : string;
  date : date;
  label : string;
  state : CapTableState.t
}.
End Snapshot.

Module Replay.
Record t : Type := mk {
  finalState : CapTableState.t;
  snapshots : list Snapshot.t
}.
End Replay.

Definition replayAllEvents (companyId : string) (events : list EventBase.t)
    : M Replay.t :=
  let sortedEvents :=
    sort (fun a b => EventBase.date b <? EventBase.date a) events in
  foldM (fun (r : Replay.t) event =>
           state <- applyEvent (Replay.finalState r) event ;;
           ret (Replay.mk state
                  (Replay.snapshots r ++
                   [Snapshot.mk (EventBase.id event) (EventBase.date event)
                      (EventBase.label event) (cloneState state)])))
        (Replay.mk (createInitialState companyId) []) sortedEvents.

(** * Exit waterfall *)

Module ExitDistribution.
(** [proceeds], [percentOfExit] and [multiple] are decimal strings with
    two decimals; [None] stands for the texts that are no number
    (["NaN"], ["Infinity"], ["N/A"]). *)
Record t : Type := mk {
  holderId : string;
  holderName : string;
  holderType : PersonType;
  proceeds : Q;
  percentOfExit : option Q;
  investmentAmount : Q;
  multiple : option Q;
  method : string
}.
End ExitDistribution.

(** [totalDistributed] is the text of a number, which may be an infinity. *)
Module ExitWaterfall.
Record t : Type := mk {
  exitValuation : Q;
  distributions : list ExitDistribution.t;
  totalDistributed : Extended.t
}.
End ExitWaterfall.

(** An entry of the [distributions] map, which keeps its keys in insertion
    order. *)
Module Dist.
Record t : Type := mk {
  proceeds : Q;
  method : list string
}.
End Dist.

Definition dist_get (distributions : list (string * Dist.t)) (holderId : string)
    : option (nat * (string * Dist.t)) :=
  find_index (fun e => String.eqb (fst e) holderId) distributions.

(** The update of [distributions] for one holding: create the entry if it
    is missing, then add the proceeds and push the method. *)
Definition credit (distributions : list (string * Dist.t)) (holderId : string)
    (holderProceeds : Q) (method : string) : list (string * Dist.t) :=
  match dist_get distributions holderId with
  | Some (i, (_, current)) =>
      <[i := (holderId,
              Dist.mk (Decimal.plus (Dist.proceeds current) holderProceeds)
                      (Dist.method current ++ [method]))]> distributions
  | None =>
      distributions ++
      [(holderId, Dist.mk (Decimal.plus 0 holderProceeds) [method])]
  end.

Definition holderPreference (prefClass : ShareClass.t) (holding : SecurityHolding.t) : Q :=
  let pricePerShare := toDecimal (ShareClass.pricePerShare prefClass) in
  let holderShares := inject_Z (SecurityHolding.quantity holding) in
  Decimal.times (Decimal.times holderShares pricePerShare)
    (or_default_number (Some (ShareClass.liquidationPreferenceMultiple prefClass)) 1).

Definition holderConversion (exitValue totalCommonEquivalent : Q)
    (holding : SecurityHolding.t) : outcome Q :=
  let holderShares := inject_Z (SecurityHolding.quantity holding) in
  ddiv (Decimal.times exitValue holderShares) totalCommonEquivalent.

(** Proceeds and method of one holding of a preferred class.  The
    as-converted value is not read for a participating class. *)
Definition holderPayout (exitValue totalCommonEquivalent : Q)
    (prefClass : ShareClass.t) (holding : SecurityHolding.t) : outcome (Q * string) :=
  let holderPreference := holderPreference prefClass holding in
  if bool_decide (ShareClass.participation prefClass = participating)
  then Ok (holderPreference, "participating"%string)
  else
    holderConversion <~ holderConversion exitValue totalCommonEquivalent holding ;;
    if Decimal.gt holderPreference holderConversion
    then Ok (holderPreference, "preference"%string)
    else Ok (holderConversion, "conversion"%string).

Definition by_seniority (a b : ShareClass.t) : bool :=
  ShareClass.seniorityRank a <? ShareClass.seniorityRank b.

Definition exitSafeHolding (exitPricePerShare preExitFD : Q)
    (safeConversionClassId : string) (exitState : CapTableState.t) (safe : SAFE.t)
    : M CapTableState.t :=
  let principal := SAFE.principalAmount safe in
  let effectivePrice := lowerPrice exitPricePerShare preExitFD safe in
  q <- lift match Extended.div_by principal effectivePrice with
            | Extended.Finite q => Ok q
            | _ => NonFinite
            end ;;
  let shares := roundShares q in
  let exitState :=
    add_person exitState
      (Person.mk (SAFE.investorId safe)
         (or_default_string (SAFE.investorName safe) "SAFE Investor") INVESTOR) in
  id <- uuidv4 ;;
  ret (push_holding exitState
         (plainHolding id (SAFE.investorId safe) safeConversionClassId shares ""
            false (Some (SAFE.principalAmount safe)))).

(** Conversion of the SAFEs that are still outstanding at the exit. *)
Definition convertUnconvertedSAFEs (exitValue : Q) (exitState : CapTableState.t)
    : M CapTableState.t :=
  let unconvertedSAFEs := List.filter unconverted (CapTableState.safes exitState) in
  match unconvertedSAFEs with
  | [] => ret exitState
  | _ =>
      let preExitFD :=
        fold_left (fun sum holding =>
                     Decimal.plus sum (inject_Z (SecurityHolding.quantity holding)))
          (CapTableState.holdings exitState) 0%Q in
      let existingPreferred :=
        List.filter (is_type PREFERRED) (CapTableState.shareClasses exitState) in
      created <-
        match sort by_seniority existingPreferred with
        | senior :: _ => ret (exitState, ShareClass.id senior)
        | [] =>
            safeConversionClassId <- uuidv4 ;;
            price <- lift (ddiv exitValue preExitFD) ;;
            ret (push_shareClass exitState
                   (ShareClass.mk safeConversionClassId "SAFE Conversion" PREFERRED 1 1
                      non_participating None true (Some price)),
                 safeConversionClassId)
        end ;;
      let '(exitState, safeConversionClassId) := created in
      exitPricePerShare <- lift (ddiv exitValue preExitFD) ;;
      foldM (exitSafeHolding exitPricePerShare preExitFD safeConversionClassId)
        exitState unconvertedSAFEs
  end.

Definition classTotalsOf (holdings : list SecurityHolding.t) : gmap string Q :=
  fold_left (fun (classTotals : gmap string Q) holding =>
               <[SecurityHolding.shareClassId holding :=
                   Decimal.plus
                     (default 0%Q (classTotals !! SecurityHolding.shareClassId holding))
                     (inject_Z (SecurityHolding.quantity holding))]> classTotals)
            holdings ∅.

Definition holderInvestmentsOf (holdings : list SecurityHolding.t) : gmap string Q :=
  fold_left (fun (holderInvestments : gmap string Q) holding =>
               match SecurityHolding.investmentAmount holding with
               | Some investmentAmount =>
                   <[SecurityHolding.holderId holding :=
                       Decimal.plus
                         (default 0%Q
                            (holderInvestments !! SecurityHolding.holderId holding))
                         investmentAmount]> holderInvestments
               | None => holderInvestments
               end)
            holdings ∅.

Definition totalCommonEquivalentOf (shareClasses : list ShareClass.t)
    (classTotals : gmap string Q) : Q :=
  fold_left (fun total shareClass =>
               if is_type OPTION shareClass then total
               else Decimal.plus total
                      (default 0%Q (classTotals !! ShareClass.id shareClass)))
            shareClasses 0%Q.

(** The body of the loop over the holdings of a preferred class. *)
Definition creditPreference (exitValue totalCommonEquivalent : Q)
    (prefClass : ShareClass.t) (distributions : list (string * Dist.t))
    (holding : SecurityHolding.t) : outcome (list (string * Dist.t)) :=
  p <~ holderPayout exitValue totalCommonEquivalent prefClass holding ;;
  Ok (credit distributions (SecurityHolding.holderId holding) (fst p) (snd p)).

(** The body of the loop over the preferred classes: a class without shares
    is skipped. *)
Definition payClass (exitValue totalCommonEquivalent : Q)
    (classTotals : gmap string Q) (holdings : list SecurityHolding.t)
    (distributions : list (string * Dist.t)) (prefClass : ShareClass.t)
    : outcome (list (string * Dist.t)) :=
  let classShares := default 0%Q (classTotals !! ShareClass.id prefClass) in
  if Decimal.isZero classShares then Ok distributions
  else
    let holdersOfClass :=
      List.filter (fun h => String.eqb (SecurityHolding.shareClassId h)
                                       (ShareClass.id prefClass))
                  holdings in
    ofoldl (creditPreference exitValue totalCommonEquivalent prefClass)
           distributions holdersOfClass.

(** Pay liquidation preferences: the classes in descending seniority, and in
    each class its holdings in order. *)
Definition payPreferences (exitValue totalCommonEquivalent : Q)
    (classTotals : gmap string Q) (holdings : list SecurityHolding.t)
    (preferredClasses : list ShareClass.t) : outcome (list (string * Dist.t)) :=
  ofoldl (payClass exitValue totalCommonEquivalent classTotals holdings)
         [] preferredClasses.

Definition is_common_holding (exitState : CapTableState.t) (h : SecurityHolding.t)
    : bool :=
  match find_shareClass exitState (SecurityHolding.shareClassId h) with
  | Some sc => is_type COMMON sc && negb (SecurityHolding.isOption h)
  | None => false
  end.

(** The body of the loop over the common holdings. *)
Definition creditCommon (totalCommon remainingProceeds : Q)
    (distributions : list (string * Dist.t)) (holding : SecurityHolding.t)
    : outcome (list (string * Dist.t)) :=
  let holderShares := inject_Z (SecurityHolding.quantity holding) in
  holderProceeds <~
    (if Decimal.isZero totalCommon then Ok 0%Q
     else ddiv (Decimal.times remainingProceeds holderShares) totalCommon) ;;
  Ok (credit distributions (SecurityHolding.holderId holding) holderProceeds "common").

(** Distribute to common holders. *)
Definition payCommon (exitValue : Q) (commonHoldings : list SecurityHolding.t)
    (distributions : list (string * Dist.t)) : outcome (list (string * Dist.t)) :=
  let totalCommon :=
    fold_left (fun sum h => Decimal.plus sum (inject_Z (SecurityHolding.quantity h)))
      commonHoldings 0%Q in
  let preferenceTotal :=
    fold_left (fun sum (e : string * Dist.t) => Decimal.plus sum (Dist.proceeds (snd e)))
      distributions 0%Q in
  let remainingProceeds :=
    Decimal.max (Decimal.minus exitValue preferenceTotal) 0 in
  ofoldl (creditCommon totalCommon remainingProceeds) distributions commonHoldings.

(** [[...new Set(method)]]: the first occurrence of each method. *)
Definition unique_methods (method : list string) : list string :=
  fold_left (fun seen m => if bool_decide (m ∈ seen) then seen else seen ++ [m])
            method [].

Definition exitRow (exitValue : Q) (holderInvestments : gmap string Q)
    (person : Person.t) (dist : Dist.t) : ExitDistribution.t :=
  let investment := default 0%Q (holderInvestments !! Person.id person) in
  ExitDistribution.mk (Person.id person) (Person.name person) (Person.type person)
    (Decimal.toFixed 2 (Dist.proceeds dist))
    (match ddiv (Dist.proceeds dist) exitValue with
     | Ok share => Some (Decimal.toFixed 2 (Decimal.times share 100))
     | _ => None
     end)
    investment
    (if Decimal.isZero investment then None
     else match ddiv (Dist.proceeds dist) investment with
          | Ok m => Some (Decimal.toFixed 2 m)
          | _ => None
          end)
    (String.concat ", " (unique_methods (Dist.method dist))).

(** Build results: one row per person with an entry, the pool excepted. *)
Definition buildResults (exitValue : Q) (holderInvestments : gmap string Q)
    (people : list Person.t) (distributions : list (string * Dist.t))
    : list ExitDistribution.t :=
  omap (fun person =>
          if String.eqb (Person.id person) ESOP_POOL_HOLDER_ID then None
          else match dist_get distributions (Person.id person) with
               | Some (_, (_, dist)) =>
                   Some (exitRow exitValue holderInvestments person dist)
               | None => None
               end)
       people.

(** [parseFloat(s)] for a string that writes the decimal [q]. *)
Definition parseFloat (q : Q) : Extended.t := Double.ofQ q.

(** The comparator [parseFloat(b.proceeds) - parseFloat(a.proceeds)] is
    positive when the number read for [a] is less than the one read for
    [b]. *)
Definition by_proceeds (a b : ExitDistribution.t) : bool :=
  Extended.lt (parseFloat (ExitDistribution.proceeds a))
    (parseFloat (ExitDistribution.proceeds b)).

(** [results.reduce((sum, r) => sum + parseFloat(r.proceeds), 0)]. *)
Definition sumOfProceeds (results : list ExitDistribution.t) : Extended.t :=
  fold_left (fun sum r => Double.add sum (parseFloat (ExitDistribution.proceeds r)))
    results (Extended.Finite 0).

Definition sumQ (l : list Q) : Q := fold_left Qplus l 0%Q.

Definition calculateExitWaterfall (state : CapTableState.t) (exitValuation : Q)
    : M ExitWaterfall.t :=
  let exitValue := exitValuation in
  exitState <- convertUnconvertedSAFEs exitValue state ;;
  let preferredClasses :=
    sort by_seniority
      (List.filter (is_type PREFERRED) (CapTableState.shareClasses exitState)) in
  let classTotals := classTotalsOf (CapTableState.holdings exitState) in
  let holderInvestments := holderInvestmentsOf (CapTableState.holdings exitState) in
  let totalCommonEquivalent :=
    totalCommonEquivalentOf (CapTableState.shareClasses exitState) classTotals in
  distributions <-
    lift (payPreferences exitValue totalCommonEquivalent classTotals
            (CapTableState.holdings exitState) preferredClasses) ;;
  let commonHoldings :=
    List.filter (is_common_holding exitState) (CapTableState.holdings exitState) in
  distributions <- lift (payCommon exitValue commonHoldings distributions) ;;
  let results :=
    sort by_proceeds
      (buildResults exitValue holderInvestments (CapTableState.people exitState)
         distributions) in
  ret (ExitWaterfall.mk exitValue results (Double.toFixed2 (sumOfProceeds results))).

(** * Definitions used by the statements *)

(** The lesser of two decimals. *)
Definition dmin (a b : Q) : Q := if Qle_bool a b then a else b.

(** The effective price of a SAFE as the specification words it: the least
    of the round price, of the cap price (cap / pre-round fully diluted
    shares) when a valuation cap is present and of the discount price
    (round price x (1 - discount%)) when a discount is present. *)
Definition spec_discountPrice (roundPrice discountPercent : Q) : Q :=
  Decimal.times roundPrice (1 - discountPercent / 100).

Definition spec_effectivePrice (safe : SAFE.t) (roundPrice fullyDilutedShares : Q)
    : outcome Q :=
  (withCap <~ match SAFE.valuationCap safe with
              | Some cap =>
                  capPrice <~ ddiv cap fullyDilutedShares ;;
                  Ok (dmin roundPrice capPrice)
              | None => Ok roundPrice
              end ;;
   Ok match SAFE.discountPercent safe with
      | Some d => dmin withCap (spec_discountPrice roundPrice d)
      | None => withCap
      end)%engine.

(** A discount that is a double and whose factor [1 - d / 100] the doubles
    of the source compute exactly, as they do for 10, 15, 20 and 25. *)
Definition exact_discount (d : Q) : Prop :=
  (exists r, Double.ofQ d = Extended.Finite r /\ (r == d)%Q)
  /\ exists f, Double.asDecimal (discountFactor d) = Extended.Finite f
               /\ (f == 1 - d / 100)%Q.

(** A SAFE with $1,230.41 principal and 18% discount, without a cap. *)
Definition discount18_safe : SAFE.t :=
  SAFE.mk "safe-2" "investor-2" (Some "Investor") (123041 # 100) pre_money
    None (Some (18 # 1)%Q) false 0 None None None.

(** Scenario B: $500,000 principal, $5,000,000 cap, 20% discount. *)
Definition scenarioB_safe : SAFE.t :=
  SAFE.mk "safe-1" "investor-1" (Some "Investor") (500000 # 1) pre_money
    (Some (5000000 # 1)%Q) (Some (20 # 1)%Q) false 0 None None None.

(** A grant of 48,000 options whose vesting starts at date 0. *)
Definition grant_48000 : SecurityHolding.t :=
  SecurityHolding.mk "holding-1" "employee-1" "options" 48000 "grant-1" true None
    (Some "schedule-1"%string) (Some 0) (Some 0) None.

Definition state_with_schedule (schedule : VestingSchedule.t) : CapTableState.t :=
  CapTableState.mk "company-1" None None [] [grant_48000] [] [] [schedule].

(** Scenario D: 12-month cliff at 25%, 48 months in total. *)
Definition scenarioD_schedule : VestingSchedule.t :=
  VestingSchedule.mk "schedule-1" None 12 48 monthly (25 # 1).

(** A schedule that vests everything by its cliff: the cliff is the whole
    vesting period. *)
Definition cliff_only_schedule : VestingSchedule.t :=
  VestingSchedule.mk "schedule-1" None 12 12 monthly (25 # 1).


Definition msPerDay : Z := 86400000.

(** The share that [distributeSharesByLargestRemainder] computes for a
    recipient before flooring: [total.times(r.proportion)]. *)
Definition exactShare (totalShares : Z) (r : string * Q) : Q :=
  Decimal.times (inject_Z totalShares) (snd r).

(** Two recipients with 25% each. *)
Definition quarter_recipients : list (string * Q) :=
  [("a"%string, (1 # 4)%Q); ("b"%string, (1 # 4)%Q)].

(** Three recipients with a third each, as decimals of 28 digits. *)
Definition third : Q := Decimal.finalise (1 # 3).
Definition third_recipients : list (string * Q) :=
  [("a"%string, third); ("b"%string, third); ("c"%string, third)].

(** Two recipients with 60% and 40%. *)
Definition scenarioA_recipients : list (string * Q) :=
  [("founder-1"%string, (3 # 5)%Q); ("founder-2"%string, (2 # 5)%Q)].

(** A supply of identifiers: ["id-0"], ["id-1"], ... *)
Definition numbered_uuid (n : nat) : string := "id-" +:+ pretty n.

(** A company with a founder, an option class and the grant of scenario D. *)
Definition commonClass : ShareClass.t :=
  ShareClass.mk "common" "Common" COMMON 0 1 non_participating None false
    (Some (1 # 10000)%Q).

Definition optionsClass : ShareClass.t := optionShareClass "options".

Definition founder_holding (quantity : Z) : SecurityHolding.t :=
  plainHolding "holding-0" "founder-1" "common" quantity "incorporation" false None.

Definition exercise_state : CapTableState.t :=
  CapTableState.mk "company-1" None None [commonClass; optionsClass]
    [founder_holding 8000000; grant_48000] []
    [Person.mk "founder-1" "Founder" FOUNDER; Person.mk "employee-1" "Employee" EMPLOYEE]
    [scenarioD_schedule].

(** Exercise of 10,000 options two years (731 days) after the grant. *)
Definition exercise_event : EventBase.t :=
  EventBase.mk "exercise-1" "company-1" (731 * msPerDay) "Exercise"
    (OPTION_EXERCISE (OptionExerciseEventData.mk "employee-1" 10000)).

(** Scenario A: incorporation with 10,000,000 shares, two founders at 60%
    and 40%, no pool. *)
Definition incorporation_event : EventBase.t :=
  EventBase.mk "incorporation" "company-1" 0 "Incorporation"
    (INCORPORATION
       (IncorporationEventData.mk (10000000 # 1) None mode_percentage
          [Founder.mk "founder-1" "Founder 1" (Some (60 # 1)%Q) None;
           Founder.mk "founder-2" "Founder 2" (Some (40 # 1)%Q) None]
          None)).

(** Another supply of identifiers. *)
Definition lettered_uuid (n : nat) : string := "uuid-" +:+ pretty n.

(** A company with 9,000,000 founder shares and a pool of 1,000,000
    options. *)
Definition pool_holding (quantity : Z) : SecurityHolding.t :=
  plainHolding "holding-1" ESOP_POOL_HOLDER_ID "options" quantity "pool-1" true None.

Definition pool_state : CapTableState.t :=
  CapTableState.mk "company-1" None None [commonClass; optionsClass]
    [founder_holding 9000000; pool_holding 1000000] []
    [Person.mk "founder-1" "Founder" FOUNDER; esopPoolPerson] [].

(** A pool extension and a priced round that target 150% of the fully
    diluted shares, and a pool creation that does. *)
Definition extension_150 : EventBase.t :=
  EventBase.mk "extension-1" "company-1" 100 "Extension"
    (ESOP_POOL_EXTENSION (150 # 1)).

Definition round_150 : EventBase.t :=
  EventBase.mk "round-1" "company-1" 100 "Series A"
    (PRICED_ROUND
       (PricedRoundEventData.mk input_price_per_share None None (Some 1%Q)
          (Some (1000000 # 1)%Q)
          [Investor.mk "investor-1" "Investor" (Some (1000000 # 1)%Q)]
          None false None None None None (Some (150 # 1)%Q) None)).

Definition creation_150 : EventBase.t :=
  EventBase.mk "creation-1" "company-1" 100 "Pool"
    (ESOP_POOL_CREATION (pool_percentage (150 # 1))).

(** Scenario E: 8,000,000 common shares and 2,000,000 shares of a 1x
    preferred class issued at $1.00, with the participation given. *)
Definition seriesA (participation : ParticipationType)
    (participationCapMultiple : option Q) : ShareClass.t :=
  ShareClass.mk "series-a" "Series A" PREFERRED 1 1 participation
    participationCapMultiple true (Some 1%Q).

Definition investor_holding : SecurityHolding.t :=
  plainHolding "holding-1" "investor-1" "series-a" 2000000 "round-1" false
    (Some (2000000 # 1)%Q).

Definition exit_state (participation : ParticipationType)
    (participationCapMultiple : option Q) : CapTableState.t :=
  CapTableState.mk "company-1" None None
    [commonClass; seriesA participation participationCapMultiple]
    [founder_holding 8000000; investor_holding] []
    [Person.mk "founder-1" "Founder" FOUNDER; Person.mk "investor-1" "Investor" INVESTOR]
    [].

(** Three founders with one common share each. *)
Definition three_founders_state : CapTableState.t :=
  CapTableState.mk "company-1" None None [commonClass]
    [plainHolding "holding-1" "founder-1" "common" 1 "incorporation" false None;
     plainHolding "holding-2" "founder-2" "common" 1 "incorporation" false None;
     plainHolding "holding-3" "founder-3" "common" 1 "incorporation" false None]
    []
    [Person.mk "founder-1" "Founder 1" FOUNDER;
     Person.mk "founder-2" "Founder 2" FOUNDER;
     Person.mk "founder-3" "Founder 3" FOUNDER]
    [].

(** Holder, proceeds and method of the rows of a waterfall. *)
Definition payouts (w : ExitWaterfall.t) : list (string * Q * string) :=
  map (fun d => (ExitDistribution.holderId d, ExitDistribution.proceeds d,
                 ExitDistribution.method d))
      (ExitWaterfall.distributions w).

(** A decimal with two decimals. *)
Definition is_cents (q : Q) : Prop := exists v : Z, (q * 100 == inject_Z v)%Q.

(** * Cap table views *)

Module LegalCapTableRow.
(** [ownershipPercent] is a decimal string with two decimals; [None]
    stands for the texts that are no number. *)
Record t : Type := mk {
  holderId : string;
  holderName : string;
  holderType : PersonType;
  totalShares : Z;
  ownershipPercent : option Q;
  byClass : gmap string Z
}.
End LegalCapTableRow.

Module LegalCapTable.
Record t : Type := mk {
  rows : list LegalCapTableRow.t;
  totalShares : Z;
  shareClasses : list ShareClass.t
}.
End LegalCapTable.

(** [part.div(whole).times(100).toFixed(2)]. *)
Definition percentText (part whole : Q) : option Q :=
  match ddiv part whole with
  | Ok share => Some (Decimal.toFixed 2 (Decimal.times share 100))
  | _ => None
  end.

Definition is_issued_holding_of (personId : string) (h : SecurityHolding.t) : bool :=
  String.eqb (SecurityHolding.holderId h) personId && negb (SecurityHolding.isOption h).

(** The body of the loop of [buildLegalCapTable] over the issued holdings of
    a person: the running total and the shares by class name. *)
Definition tallyIssued (state : CapTableState.t) (acc : Q * gmap string Z)
    (holding : SecurityHolding.t) : Q * gmap string Z :=
  let '(totalShares, byClass) := acc in
  let qty := inject_Z (SecurityHolding.quantity holding) in
  (Decimal.plus totalShares qty,
   match find_shareClass state (SecurityHolding.shareClassId holding) with
   | Some shareClass =>
       <[ShareClass.name shareClass :=
           default 0 (byClass !! ShareClass.name shareClass) + roundShares qty]> byClass
   | None => byClass
   end).

(** The row of a person in the legal cap table, if they have one. *)
Definition legalRow (state : CapTableState.t) (totalLegal : Q) (person : Person.t)
    : option LegalCapTableRow.t :=
  if String.eqb (Person.id person) ESOP_POOL_HOLDER_ID then None
  else
    let personHoldings :=
      List.filter (is_issued_holding_of (Person.id person))
        (CapTableState.holdings state) in
    let '(totalShares, byClass) :=
      fold_left (tallyIssued state) personHoldings (0%Q, ∅) in
    if Decimal.gt totalShares 0
    then Some (LegalCapTableRow.mk (Person.id person) (Person.name person)
                 (Person.type person) (roundShares totalShares)
                 (percentText totalShares totalLegal) byClass)
    else None.

Definition buildLegalCapTable (state : CapTableState.t) : LegalCapTable.t :=
  let metrics := calculatePreRoundMetrics state in
  let totalLegal := Metrics.legalIssuedShares metrics in
  let rows := omap (legalRow state totalLegal) (CapTableState.people state) in
  LegalCapTable.mk
    (sort (fun a b => LegalCapTableRow.totalShares a <? LegalCapTableRow.totalShares b)
          rows)
    (roundShares totalLegal)
    (List.filter (fun sc => negb (is_type OPTION sc)) (CapTableState.shareClasses state)).

Module FullyDilutedCapTableRow.
Record t : Type := mk {
  holderId : string;
  holderName : string;
  holderType : PersonType;
  isESOPPool : bool;
  totalShares : Z;
  issuedShares : Z;
  optionShares : Z;
  vestedOptions : JsNum.t;
  unvestedOptions : JsNum.t;
  ownershipPercent : option Q
}.
End FullyDilutedCapTableRow.

Module FullyDilutedCapTable.
Record t : Type := mk {
  rows : list FullyDilutedCapTableRow.t;
  totalShares : Z;
  shareClasses : list ShareClass.t;
  unconvertedSAFEs : list SAFE.t
}.
End FullyDilutedCapTable.

(** The running totals of [buildFullyDilutedCapTable] for one person. *)
Module Tally.
Record t : Type := mk {
  totalShares : Q;
  issuedShares : Q;
  optionShares : Q;
  vestedOptions : JsNum.t;
  unvestedOptions : JsNum.t
}.
End Tally.

(** The body of the loop over the holdings of a person; [asOfDate] is
    [None] when the caller gives no date. *)
Definition tallyHolding (state : CapTableState.t) (asOfDate : option date)
    (acc : Tally.t) (holding : SecurityHolding.t) : Tally.t :=
  let qty := inject_Z (SecurityHolding.quantity holding) in
  let totalShares := Decimal.plus (Tally.totalShares acc) qty in
  if SecurityHolding.isOption holding then
    let optionShares := Decimal.plus (Tally.optionShares acc) qty in
    match asOfDate with
    | Some asOfDate =>
        if truthy (SecurityHolding.vestingScheduleId holding) then
          let vested := calculateVestedOptions holding asOfDate state in
          Tally.mk totalShares (Tally.issuedShares acc) optionShares
            (JsNum.add (Tally.vestedOptions acc) vested)
            (JsNum.add (Tally.unvestedOptions acc)
               (JsNum.sub (JsNum.Int (SecurityHolding.quantity holding)) vested))
        else
          Tally.mk totalShares (Tally.issuedShares acc) optionShares
            (JsNum.add (Tally.vestedOptions acc)
               (JsNum.Int (SecurityHolding.quantity holding)))
            (Tally.unvestedOptions acc)
    | None =>
        Tally.mk totalShares (Tally.issuedShares acc) optionShares
          (JsNum.add (Tally.vestedOptions acc)
             (JsNum.Int (SecurityHolding.quantity holding)))
          (Tally.unvestedOptions acc)
    end
  else
    Tally.mk totalShares (Decimal.plus (Tally.issuedShares acc) qty)
      (Tally.optionShares acc) (Tally.vestedOptions acc) (Tally.unvestedOptions acc).

Definition is_holding_of (personId : string) (h : SecurityHolding.t) : bool :=
  String.eqb (SecurityHolding.holderId h) personId.

Definition fullyDilutedRow (state : CapTableState.t) (asOfDate : option date)
    (totalFD : Q) (person : Person.t) : option FullyDilutedCapTableRow.t :=
  let personHoldings :=
    List.filter (is_holding_of (Person.id person)) (CapTableState.holdings state) in
  let tally :=
    fold_left (tallyHolding state asOfDate) personHoldings
      (Tally.mk 0 0 0 (JsNum.Int 0) (JsNum.Int 0)) in
  if Decimal.gt (Tally.totalShares tally) 0
  then Some (FullyDilutedCapTableRow.mk (Person.id person) (Person.name person)
               (Person.type person)
               (String.eqb (Person.id person) ESOP_POOL_HOLDER_ID)
               (roundShares (Tally.totalShares tally))
               (roundShares (Tally.issuedShares tally))
               (roundShares (Tally.optionShares tally))
               (Tally.vestedOptions tally)
               (Tally.unvestedOptions tally)
               (percentText (Tally.totalShares tally) totalFD))
  else None.

Definition buildFullyDilutedCapTable (state : CapTableState.t) (asOfDate : option date)
    : FullyDilutedCapTable.t :=
  let metrics := calculatePreRoundMetrics state in
  let totalFD := Metrics.fullyDilutedShares metrics in
  let rows := omap (fullyDilutedRow state asOfDate totalFD) (CapTableState.people state) in
  let unconvertedSAFEs := List.filter unconverted (CapTableState.safes state) in
  FullyDilutedCapTable.mk
    (sort (fun a b => FullyDilutedCapTableRow.totalShares a
                      <? FullyDilutedCapTableRow.totalShares b)
          rows)
    (roundShares totalFD)
    (CapTableState.shareClasses state)
    unconvertedSAFEs.

(** * Ownership history *)

Module Ownership.
Record t : Type := mk {
  holderId : string;
  holderName : string;
  holderType : PersonType;
  ownershipPercent : Q
}.
End Ownership.

Module OwnershipSnapshot.
Record t : Type := mk {
  eventId : string;
  date : date;
  label : string;
  ownership : list Ownership.t
}.
End OwnershipSnapshot.

(** The [ownership] of one snapshot.  The division is reached with a total
    that is not zero. *)
Definition ownershipOf (state : CapTableState.t) : list Ownership.t :=
  let metrics := calculatePreRoundMetrics state in
  let totalFD := Metrics.fullyDilutedShares metrics in
  List.filter (fun o => Decimal.gt (Ownership.ownershipPercent o) 0)
    (map (fun person =>
            let personHoldings :=
              List.filter (is_holding_of (Person.id person))
                (CapTableState.holdings state) in
            let totalShares :=
              fold_left (fun sum h =>
                           Decimal.plus sum (inject_Z (SecurityHolding.quantity h)))
                personHoldings 0%Q in
            Ownership.mk (Person.id person) (Person.name person) (Person.type person)
              (if Decimal.isZero totalFD then 0%Q
               else Decimal.times (Decimal.finalise (totalShares / totalFD)) 100))
         (List.filter (fun p => negb (String.eqb (Person.id p) ESOP_POOL_HOLDER_ID))
            (CapTableState.people state))).

Definition computeOwnershipHistory (companyId : string) (events : list EventBase.t)
    : M (list OwnershipSnapshot.t) :=
  r <- replayAllEvents companyId events ;;
  ret (map (fun snapshot =>
              OwnershipSnapshot.mk (Snapshot.eventId snapshot) (Snapshot.date snapshot)
                (Snapshot.label snapshot) (ownershipOf (Snapshot.state snapshot)))
           (Replay.snapshots r)).

(** * Full cap table computation *)

Module CapTableResponse.
Record t : Type := mk {
  legalCapTable : LegalCapTable.t;
  fullyDilutedCapTable : FullyDilutedCapTable.t;
  state : option CapTableState.t
}.
End CapTableResponse.


(** * Local storage provider (guest mode)

    The provider of [storage.ts] that keeps companies and events in the
    [localStorage] of the browser.  An item of the storage is absent, holds
    the array last written to it, or holds a text that [JSON.parse]
    rejects.  Each method runs to its end without awaiting; [now] is the
    time that the method reads with [new Date().toISOString()]. *)

Module Company.
Record t : Type := mk {
  id : string;
  name : string;
  baseCurrency : string;
  incorporationDate : option string;
  authorizedShares : option Z;
  createdAt : option string;
  updatedAt : option string
}.
End Company.

(** [Partial<Company>]: a key is absent, or present with a value. *)
Module CompanyPatch.
Record t : Type := mk {
  id : option string;
  name : option string;
  baseCurrency : option string;
  incorporationDate : option string;
  authorizedShares : option Z;
  createdAt : option string;
  updatedAt : option string
}.
End CompanyPatch.

(** An event as the storage keeps it: the fields that the engine reads,
    with the description and the two time stamps. *)
Module StoredEvent.
Record t : Type := mk {
  event : EventBase.t;
  description : option string;
  createdAt : option string;
  updatedAt : option string
}.
End StoredEvent.

(** [Omit<EventBase, 'id' | 'companyId' | 'createdAt' | 'updatedAt'>]. *)
Module NewEvent.
Record t : Type := mk {
  date : date;
  label : string;
  description : option string;
  data : EventData
}.
End NewEvent.

Module LocalStorage.

Inductive item (A : Type) : Type :=
| Absent
| Unreadable
| Data (l : list A).
Arguments Absent {A}.
Arguments Unreadable {A}.
Arguments Data {A} l.

Record t : Type := mk {
  captable_companies : item Company.t;
  captable_events : item StoredEvent.t
}.

End LocalStorage.

Definition getLocalData {A : Type} (data : LocalStorage.item A) : list A :=
  match data with
  | LocalStorage.Data l => l
  | LocalStorage.Absent | LocalStorage.Unreadable => []
  end.

Definition setCompanies (ls : LocalStorage.t) (data : list Company.t) : LocalStorage.t :=
  LocalStorage.mk (LocalStorage.Data data) (LocalStorage.captable_events ls).

Definition setEvents (ls : LocalStorage.t) (data : list StoredEvent.t) : LocalStorage.t :=
  LocalStorage.mk (LocalStorage.captable_companies ls) (LocalStorage.Data data).

Module localStorageProvider.

Definition getCompanies (ls : LocalStorage.t) : list Company.t :=
  getLocalData (LocalStorage.captable_companies ls).

Definition getCompany (id : string) (ls : LocalStorage.t) : option Company.t :=
  let companies := getLocalData (LocalStorage.captable_companies ls) in
  find (fun c => String.eqb (Company.id c) id) companies.

Definition createCompany (data : CompanyPatch.t) (now : string) (ls : LocalStorage.t)
    : M (Company.t * LocalStorage.t) :=
  let companies := getLocalData (LocalStorage.captable_companies ls) in
  id <- uuidv4 ;;
  let company :=
    Company.mk id
      (or_default_string (CompanyPatch.name data) "New Company")
      (or_default_string (CompanyPatch.baseCurrency data) "USD")
      (CompanyPatch.incorporationDate data)
      (CompanyPatch.authorizedShares data)
      (Some now) (Some now) in
  ret (company, setCompanies ls (companies ++ [company])).

(** [{ ...company, ...data, updatedAt: now }]. *)
Definition patchCompany (company : Company.t) (data : CompanyPatch.t) (now : string)
    : Company.t :=
  Company.mk
    (default (Company.id company) (CompanyPatch.id data))
    (default (Company.name company) (CompanyPatch.name data))
    (default (Company.baseCurrency company) (CompanyPatch.baseCurrency data))
    (match CompanyPatch.incorporationDate data with
     | Some d => Some d
     | None => Company.incorporationDate company
     end)
    (match CompanyPatch.authorizedShares data with
     | Some n => Some n
     | None => Company.authorizedShares company
     end)
    (match CompanyPatch.createdAt data with
     | Some t => Some t
     | None => Company.createdAt company
     end)
    (Some now).

Definition updateCompany (id : string) (data : CompanyPatch.t) (now : string)
    (ls : LocalStorage.t) : outcome (Company.t * LocalStorage.t) :=
  let companies := getLocalData (LocalStorage.captable_companies ls) in
  match find_index (fun c => String.eqb (Company.id c) id) companies with
  | None => Throw "Company not found"
  | Some (index, company) =>
      let companies := <[index := patchCompany company data now]> companies in
      Ok (patchCompany company data now, setCompanies ls companies)
  end.

Definition deleteCompany (id : string) (ls : LocalStorage.t) : LocalStorage.t :=
  let companies := getLocalData (LocalStorage.captable_companies ls) in
  let companies :=
    List.filter (fun c => negb (String.eqb (Company.id c) id)) companies in
  let ls := setCompanies ls companies in
  (* Also delete related events *)
  let events := getLocalData (LocalStorage.captable_events ls) in
  let events :=
    List.filter (fun e => negb (String.eqb (EventBase.companyId (StoredEvent.event e)) id))
      events in
  setEvents ls events.

Definition getEvents (companyId : string) (ls : LocalStorage.t) : list StoredEvent.t :=
  let events := getLocalData (LocalStorage.captable_events ls) in
  sort (fun a b => EventBase.date (StoredEvent.event b)
                   <? EventBase.date (StoredEvent.event a))
    (List.filter (fun e => String.eqb (EventBase.companyId (StoredEvent.event e)) companyId)
       events).

Definition createEvent (companyId : string) (data : NewEvent.t) (now : string)
    (ls : LocalStorage.t) : M (StoredEvent.t * LocalStorage.t) :=
  let events := getLocalData (LocalStorage.captable_events ls) in
  id <- uuidv4 ;;
  let event :=
    StoredEvent.mk
      (EventBase.mk id companyId (NewEvent.date data) (NewEvent.label data)
         (NewEvent.data data))
      (NewEvent.description data) (Some now) (Some now) in
  ret (event, setEvents ls (events ++ [event])).

Definition deleteEvent (eventId : string) (ls : LocalStorage.t) : LocalStorage.t :=
  let events := getLocalData (LocalStorage.captable_events ls) in
  let events :=
    List.filter (fun e => negb (String.eqb (EventBase.id (StoredEvent.event e)) eventId))
      events in
  setEvents ls events.

(** People are derived from events in guest mode. *)
Definition getPeople (_companyId : string) (ls : LocalStorage.t) : list Person.t := [].

End localStorageProvider.

Definition clearLocalData (ls : LocalStorage.t) : LocalStorage.t :=
  LocalStorage.mk LocalStorage.Absent LocalStorage.Absent.

Definition hasLocalData (ls : LocalStorage.t) : bool :=
  let companies := getLocalData (LocalStorage.captable_companies ls) in
  negb (Nat.eqb (length companies) 0).

(** * Further definitions used by the statements *)

(** What a computation of the engine guarantees about its result when it
    returns one. *)
Definition ensures {A : Type} (c : M A) (P : A -> Prop) : Prop :=
  forall (uuid : nat -> string) (n : nat) (a : A) (n' : nat),
    c uuid n = Ok (a, n') -> P a.

(** Ascending order of dates, the order in which events are replayed. *)
Definition by_date (a b : EventBase.t) : bool := EventBase.date b <? EventBase.date a.

(** The snapshot that the replay records after [event]. *)
Definition snapshotOf (event : EventBase.t) (state : CapTableState.t) : Snapshot.t :=
  Snapshot.mk (EventBase.id event) (EventBase.date event) (EventBase.label event) state.

(** Three events of a company at dates 0, 100 and 200: the incorporation of
    scenario A, a pool of 1,000,000 options and a grant of 48,000 of them. *)
Definition pool_event : EventBase.t :=
  EventBase.mk "pool" "company-1" 100 "Pool" (ESOP_POOL_CREATION (pool_shares 1000000)).

Definition grant_event : EventBase.t :=
  EventBase.mk "grant" "company-1" 200 "Grant"
    (ESOP_GRANT
       (ESOPGrantEventData.mk "employee-1" "Employee" mode_shares None (Some 48000)
          None None None
          (Some (VestingScheduleInput.mk None 12 48 monthly (25 # 1))))).

Definition three_events : list EventBase.t :=
  [incorporation_event; pool_event; grant_event].

(** Two holdings that differ at most by their quantity, and two SAFEs that
    differ at most by the event of their conversion. *)
Definition same_holding (h h' : SecurityHolding.t) : Prop :=
  SecurityHolding.set_quantity h (SecurityHolding.quantity h') = h'.

Definition same_safe (s s' : SAFE.t) : Prop :=
  s' = s \/ exists eventId, s' = SAFE.set_convertedInEventId s eventId.

(** [l'] keeps the entries of [l], each at its index and up to [same], and
    may hold more entries after them. *)
Definition kept {A : Type} (same : A -> A -> Prop) (l l' : list A) : Prop :=
  exists l1 l2, l' = l1 ++ l2 /\ Forall2 same l l1.

(** [s'] is [s] grown: the company and the stamps are the same, share
    classes, people and vesting schedules are those of [s] followed by new
    ones, holdings and SAFEs are those of [s], up to their quantity and
    their conversion, followed by new ones. *)
Definition grows (s s' : CapTableState.t) : Prop :=
  CapTableState.companyId s' = CapTableState.companyId s
  /\ CapTableState.asOfEventId s' = CapTableState.asOfEventId s
  /\ CapTableState.asOfDate s' = CapTableState.asOfDate s
  /\ kept eq (CapTableState.shareClasses s) (CapTableState.shareClasses s')
  /\ kept same_holding (CapTableState.holdings s) (CapTableState.holdings s')
  /\ kept same_safe (CapTableState.safes s) (CapTableState.safes s')
  /\ kept eq (CapTableState.people s) (CapTableState.people s')
  /\ kept eq (CapTableState.vestingSchedules s) (CapTableState.vestingSchedules s').




(** The quantity of a holding that counts as legally issued: that of a
    holding whose share class is known and is no option class. *)
Definition issuedQuantity (state : CapTableState.t) (h : SecurityHolding.t) : Z :=
  match find_shareClass state (SecurityHolding.shareClassId h) with
  | Some shareClass =>
      if is_type OPTION shareClass then 0 else SecurityHolding.quantity h
  | None => 0
  end.

(** The largest count that a decimal of 28 digits holds exactly. *)
Definition maxExact : Z := 10 ^ 28.

(** A percentage written with at most six decimals that is not negative. *)
Definition plain_percentage (p : Q) : Prop :=
  exists v : Z, (p * (1000000 # 1) == inject_Z v)%Q /\ 0 <= v.

(** An incorporation by percentages: three founders at a third each, as
    the form of the app writes them, with two decimals. *)
Definition thirds_incorporation : IncorporationEventData.t :=
  IncorporationEventData.mk (1000 # 1) None mode_percentage
    [Founder.mk "founder-1" "Founder 1" (Some (3334 # 100)%Q) None;
     Founder.mk "founder-2" "Founder 2" (Some (3333 # 100)%Q) None;
     Founder.mk "founder-3" "Founder 3" (Some (3333 # 100)%Q) None]
    None.


(** The options vested at the cliff as the source computes them, on
    doubles: [Math.floor(totalOptions * cliffPercent / 100)]. *)
Definition cliffVestedNumber (totalOptions : Z) (cliffPercent : Q) : JsNum.t :=
  JsNum.floor
    (Double.div
       (Double.mul (Double.ofQ (inject_Z totalOptions)) (Double.ofQ cliffPercent))
       (Extended.Finite 100)).

(** The options that a person holds. *)
Definition optionsHeldBy (state : CapTableState.t) (personId : string) : Z :=
  sumZ (map SecurityHolding.quantity
          (List.filter (fun h => is_holding_of personId h && SecurityHolding.isOption h)
             (CapTableState.holdings state))).


(** A holding is booked consistently in a state when its share class is a
    class of the state that is an option class exactly if the holding is an
    option holding, and when, being no option holding, it belongs to a
    person of the state other than the option pool. *)
Definition consistently_booked (state : CapTableState.t) (h : SecurityHolding.t) : Prop :=
  (exists shareClass,
     find_shareClass state (SecurityHolding.shareClassId h) = Some shareClass
     /\ is_type OPTION shareClass = SecurityHolding.isOption h)
  /\ (SecurityHolding.isOption h = false ->
      SecurityHolding.holderId h <> ESOP_POOL_HOLDER_ID
      /\ In (SecurityHolding.holderId h) (map Person.id (CapTableState.people state))).

(** A storage with two companies; the first has an incorporation, stored
    after a later pool creation, the second has a grant. *)
Definition acme : Company.t :=
  Company.mk "company-1" "Acme" "USD" None None (Some "t0"%string) (Some "t0"%string).

Definition globex : Company.t :=
  Company.mk "company-2" "Globex" "EUR" None (Some 10000000) (Some "t1"%string)
    (Some "t1"%string).

Definition stored (event : EventBase.t) : StoredEvent.t :=
  StoredEvent.mk event None (Some "t2"%string) (Some "t2"%string).

Definition two_companies : LocalStorage.t :=
  LocalStorage.mk (LocalStorage.Data [acme; globex])
    (LocalStorage.Data
       [stored pool_event;
        stored (EventBase.mk "grant" "company-2" 200 "Grant"
                  (ESOP_GRANT
                     (ESOPGrantEventData.mk "employee-1" "Employee" mode_shares None
                        (Some 48000) None None None None)));
        stored incorporation_event]).

(** A patch that renames a company. *)
Definition rename (name : string) : CompanyPatch.t :=
  CompanyPatch.mk None (Some name) None None None None None.

(** A company with 10,000,000 founder shares and the SAFE of scenario B
    outstanding, and a round at $1.00 a share that names no SAFE. *)
Definition safe_state : CapTableState.t :=
  CapTableState.mk "company-1" None None [commonClass]
    [founder_holding 10000000] [scenarioB_safe]
    [Person.mk "founder-1" "Founder" FOUNDER] [].

Definition round_at_1 : EventBase.t :=
  EventBase.mk "round-1" "company-1" 100 "Series A"
    (PRICED_ROUND
       (PricedRoundEventData.mk input_price_per_share None None (Some 1%Q)
          (Some (1000000 # 1)%Q)
          [Investor.mk "investor-2" "Investor" (Some (1000000 # 1)%Q)]
          None false None None None None None None)).

(** The vested options of a person on a date, as the fully diluted cap
    table reports them: the result of the vesting calculator summed over
    the option holdings of the person. *)
Definition vestedOptionsOf (state : CapTableState.t) (personId : string)
    (asOfDate : date) : option JsNum.t :=
  FullyDilutedCapTableRow.vestedOptions <$>
    find (fun row => String.eqb (FullyDilutedCapTableRow.holderId row) personId)
      (FullyDilutedCapTable.rows (buildFullyDilutedCapTable state (Some asOfDate))).

(** Holder, option flag and quantity of a holding. *)
Definition holdingLine (h : SecurityHolding.t) : string * bool * Z :=
  (SecurityHolding.holderId h, SecurityHolding.isOption h, SecurityHolding.quantity h).

(** The final state of the replay of [events] with the identifiers of
    [numbered_uuid]. *)
Definition replayedState (events : list EventBase.t) : outcome CapTableState.t :=
  match replayAllEvents "company-1" events numbered_uuid 0%nat with
  | Ok (r, _) => Ok (Replay.finalState r)
  | Throw msg => Throw msg
  | NonFinite => NonFinite
  end.

(** A grant of options to the employee and an exercise by the employee. *)
Definition grant_of (id : string) (date : date) (shares : Z)
    (vestingSchedule : option VestingScheduleInput.t) : EventBase.t :=
  EventBase.mk id "company-1" date "Grant"
    (ESOP_GRANT
       (ESOPGrantEventData.mk "employee-1" "Employee" mode_shares None (Some shares)
          None None None vestingSchedule)).

Definition exercise_of (id : string) (date : date) (shares : Z) : EventBase.t :=
  EventBase.mk id "company-1" date "Exercise"
    (OPTION_EXERCISE (OptionExerciseEventData.mk "employee-1" shares)).

(** Two grants without a schedule to the same employee, of 1,000 and of
    100,000 options. *)
Definition two_grants : list EventBase.t :=
  [incorporation_event; pool_event;
   grant_of "grant-1" 200 1000 None; grant_of "grant-2" 300 100000 None].

(** A grant of 48,000 options on a schedule whose cliff of 12 months is the
    whole vesting period. *)
Definition cliff_only_grant : list EventBase.t :=
  [incorporation_event; pool_event;
   grant_of "grant" 200 48000
     (Some (VestingScheduleInput.mk None 12 12 monthly (25 # 1)))].

(** Two founders with 2^53 shares and with one share. *)
Definition large_holdings_state : CapTableState.t :=
  CapTableState.mk "company-1" None None [commonClass]
    [plainHolding "holding-1" "founder-1" "common" (2 ^ 53) "incorporation" false None;
     plainHolding "holding-2" "founder-2" "common" 1 "incorporation" false None]
    []
    [Person.mk "founder-1" "Founder 1" FOUNDER; Person.mk "founder-2" "Founder 2" FOUNDER]
    [].
(** * Facts on decimal rounding *)

Module DecimalFacts.
Import Decimal.

Section Digits.
Local Open Scope Z_scope.

Lemma digits_fuel_spec (fuel : nat) : forall a,
  0 < a -> a < 2 ^ (Z.of_nat fuel + 1) ->
  10 ^ (digits_fuel fuel a - 1) <= a < 10 ^ digits_fuel fuel a.
Proof.
  induction fuel as [|f IH]; intros a Hpos Hlt.
  - simpl in *. lia.
  - cbn [digits_fuel]. destruct (Z.ltb_spec a 10) as [H10|H10].
    + simpl. lia.
    + assert (Ha : 0 < a / 10) by (apply Z.div_str_pos; lia).
      assert (Hb : a / 10 < 2 ^ (Z.of_nat f + 1)).
      { apply Z.div_lt_upper_bound; [lia|].
        replace (Z.of_nat (S f) + 1) with (Z.succ (Z.of_nat f + 1)) in Hlt by lia.
        rewrite Z.pow_succ_r in Hlt by lia. lia. }
      specialize (IH _ Ha Hb).
      assert (Hd : 0 <= digits_fuel f (a / 10) - 1).
      { destruct (Z.le_gt_cases 0 (digits_fuel f (a / 10) - 1)) as [?|Hneg]; [lia|].
        rewrite (Z.pow_neg_r 10 _ Hneg) in IH.
        assert (digits_fuel f (a/10) <= 0) by lia.
        destruct (Z.eq_dec (digits_fuel f (a/10)) 0) as [E|E].
        - rewrite E in IH. simpl in IH. lia.
        - rewrite (Z.pow_neg_r 10 (digits_fuel f (a/10))) in IH by lia. lia. }
      replace (1 + digits_fuel f (a / 10) - 1) with (Z.succ (digits_fuel f (a / 10) - 1)) by lia.
      replace (1 + digits_fuel f (a / 10)) with (Z.succ (digits_fuel f (a / 10))) by lia.
      rewrite !Z.pow_succ_r by lia.
      pose proof (Z.div_mod a 10 ltac:(lia)) as Hdm.
      pose proof (Z.mod_pos_bound a 10 ltac:(lia)) as Hm.
      lia.
Qed.

Lemma ndigits_spec a : 0 < a -> 10 ^ (ndigits a - 1) <= a < 10 ^ ndigits a.
Proof.
  intros Ha. apply digits_fuel_spec; [assumption|].
  rewrite Z2Nat.id by apply Z.log2_nonneg.
  replace (Z.log2 a + 1) with (Z.succ (Z.log2 a)) by lia.
  apply Z.log2_spec. assumption.
Qed.

Lemma ndigits_pos a : 0 < a -> 0 < ndigits a.
Proof.
  intros Ha. destruct (ndigits_spec a Ha) as [_ H].
  destruct (Z.lt_trichotomy (ndigits a) 0) as [Hn|[Hn|Hn]]; [|rewrite Hn in H; simpl in H; lia|lia].
  rewrite Z.pow_neg_r in H by lia. lia.
Qed.

End Digits.

Section Rounding.
Local Open Scope Q_scope.

Lemma ten_pos k : 0 < ten ^ k.
Proof. apply Qpower_0_lt. reflexivity. Qed.

Lemma ten_neq0 : ~ ten == 0.
Proof. discriminate. Qed.

Lemma ten_plus a b : ten ^ (a + b) == ten ^ a * ten ^ b.
Proof. apply Qpower_plus, ten_neq0. Qed.

Lemma ten_le a b : (a <= b)%Z -> ten ^ a <= ten ^ b.
Proof. intros H. apply Qpower_le_compat_l; [assumption|discriminate]. Qed.

Lemma ten_lt_inv a b : ten ^ a < ten ^ b -> (a < b)%Z.
Proof. intros H. apply (Qpower_lt_compat_l_inv ten); [assumption|reflexivity]. Qed.

Lemma ten_cancel k : ten ^ k * ten ^ (- k) == 1.
Proof. rewrite <- ten_plus. replace (k + - k)%Z with 0%Z by lia. reflexivity. Qed.

Lemma ten_inject k : (0 <= k)%Z -> inject_Z (10 ^ k) == ten ^ k.
Proof. intros H. apply Zpower_Qpower. assumption. Qed.

(** Bounds of a positive integer by powers of ten, in [Q]. *)
Lemma ndigits_Q a : (0 < a)%Z ->
  ten ^ (ndigits a - 1) <= inject_Z a /\ inject_Z a < ten ^ (ndigits a).
Proof.
  intros Ha. pose proof (ndigits_spec a Ha) as [Hl Hu].
  pose proof (ndigits_pos a Ha) as Hp.
  rewrite <- !ten_inject by lia. split.
  - rewrite <- Zle_Qle. assumption.
  - rewrite <- Zlt_Qlt. assumption.
Qed.

Lemma Qabs_num_den q : Qabs q * inject_Z (Zpos (Qden q)) == inject_Z (Z.abs (Qnum q)).
Proof.
  destruct q as [n d]. cbn [Qabs Qnum Qden].
  rewrite (Qmake_Qdiv (Z.abs n) d). field. discriminate.
Qed.

Lemma exponent_spec q : ~ q == 0 ->
  ten ^ (exponent q) <= Qabs q /\ Qabs q < ten ^ (exponent q + 1).
Proof.
  intros Hq. unfold exponent.
  set (a := Z.abs (Qnum q)). set (d := Zpos (Qden q)).
  assert (Ha : (0 < a)%Z).
  { subst a. destruct q as [n dd]. cbn. unfold Qeq in Hq. cbn in Hq. lia. }
  assert (Hd : (0 < d)%Z) by (subst d; lia).
  destruct (ndigits_Q a Ha) as [Hal Hau]. destruct (ndigits_Q d Hd) as [Hdl Hdu].
  pose proof (Qabs_num_den q) as Hq'. fold a d in Hq'.
  set (e0 := (ndigits a - ndigits d)%Z).
  assert (Hdpos : 0 < inject_Z d) by (unfold Qlt; simpl; lia).
  assert (Hlow : ten ^ (e0 - 1) <= Qabs q).
  { apply (Qmult_le_r _ _ (inject_Z d)); [assumption|]. rewrite Hq'.
    apply Qle_trans with (ten ^ (e0 - 1) * ten ^ ndigits d).
    - apply Qmult_le_l; [apply ten_pos|]. apply Qlt_le_weak; assumption.
    - rewrite <- ten_plus. replace (e0 - 1 + ndigits d)%Z with (ndigits a - 1)%Z by (subst e0; lia).
      assumption. }
  assert (Hup : Qabs q < ten ^ (e0 + 1)).
  { apply (Qmult_lt_r _ _ (inject_Z d)); [assumption|]. rewrite Hq'.
    apply Qlt_le_trans with (ten ^ ndigits a); [assumption|].
    replace (ndigits a) with (e0 + 1 + (ndigits d - 1))%Z at 1 by (subst e0; lia).
    rewrite ten_plus. apply Qmult_le_l; [apply ten_pos|]. assumption. }
  destruct (Qle_bool (ten ^ e0) (Qabs q)) eqn:Hb.
  - apply Qle_bool_iff in Hb. split; assumption.
  - split.
    + assumption.
    + replace (e0 - 1 + 1)%Z with e0 by lia.
      apply Qnot_le_lt. intros Hc. apply Qle_bool_iff in Hc. congruence.
Qed.

Lemma exponent_unique q e : ~ q == 0 ->
  ten ^ e <= Qabs q -> Qabs q < ten ^ (e + 1) -> exponent q = e.
Proof.
  intros Hq Hl Hu. destruct (exponent_spec q Hq) as [Hl' Hu'].
  assert (H1 : (e < exponent q + 1)%Z) by (apply ten_lt_inv; eapply Qle_lt_trans; eassumption).
  assert (H2 : (exponent q < e + 1)%Z) by (apply ten_lt_inv; eapply Qle_lt_trans; eassumption).
  lia.
Qed.

Lemma exponent_comp q r : q == r -> ~ q == 0 -> exponent q = exponent r.
Proof.
  intros E Hq. assert (Hr : ~ r == 0) by (rewrite <- E; assumption).
  destruct (exponent_spec r Hr) as [Hl Hu]. apply exponent_unique; [assumption| |]; rewrite E; assumption.
Qed.

Lemma Qle_bool_comp_l x y z : x == y -> Qle_bool x z = Qle_bool y z.
Proof.
  intros E. destruct (Qle_bool y z) eqn:H.
  - apply Qle_bool_iff. rewrite E. apply Qle_bool_iff. assumption.
  - destruct (Qle_bool x z) eqn:H'; [|reflexivity].
    apply Qle_bool_iff in H'. rewrite E in H'. apply Qle_bool_iff in H'. congruence.
Qed.

Lemma round_half_up_comp x y : x == y -> round_half_up x = round_half_up y.
Proof.
  intros E. unfold round_half_up.
  assert (Hb : Qle_bool 0 x = Qle_bool 0 y).
  { destruct (Qle_bool 0 y) eqn:H.
    - apply Qle_bool_iff. rewrite E. apply Qle_bool_iff. assumption.
    - destruct (Qle_bool 0 x) eqn:H'; [|reflexivity].
      apply Qle_bool_iff in H'. rewrite E in H'. apply Qle_bool_iff in H'. congruence. }
  rewrite Hb. destruct (Qle_bool 0 y); rewrite E; reflexivity.
Qed.

#[export] Instance round_half_up_proper : Proper (Qeq ==> eq) round_half_up.
Proof. intros x y E. apply round_half_up_comp. assumption. Qed.

Lemma Qfloor_half z : Qfloor (inject_Z z + (1 # 2)) = z.
Proof.
  assert (H1 : (z <= Qfloor (inject_Z z + (1 # 2)))%Z).
  { rewrite <- (Qfloor_Z z) at 1. apply Qfloor_resp_le. lra. }
  assert (H2 : (Qfloor (inject_Z z + (1 # 2)) < z + 1)%Z).
  { rewrite Zlt_Qlt. eapply Qle_lt_trans; [apply Qfloor_le|].
    rewrite inject_Z_plus. change (inject_Z 1) with 1. lra. }
  lia.
Qed.

Lemma round_half_up_Z z : round_half_up (inject_Z z) = z.
Proof.
  unfold round_half_up. destruct (Qle_bool 0 (inject_Z z)) eqn:H.
  - apply Qfloor_half.
  - rewrite <- inject_Z_opp, Qfloor_half. lia.
Qed.

Lemma round_half_up_nonneg q : 0 <= q -> (0 <= round_half_up q)%Z.
Proof.
  intros H. unfold round_half_up. apply Qle_bool_iff in H. rewrite H.
  apply Qle_bool_iff in H. change 0%Z with (Qfloor 0). apply Qfloor_resp_le. lra.
Qed.

Lemma round_half_up_nonpos q : q <= 0 -> (round_half_up q <= 0)%Z.
Proof.
  intros H. unfold round_half_up. destruct (Qle_bool 0 q) eqn:Hb.
  - apply Qle_bool_iff in Hb. assert (E : q == 0) by lra. rewrite E. reflexivity.
  - assert (0 <= Qfloor (- q + (1 # 2)))%Z; [|lia].
    change 0%Z with (Qfloor 0). apply Qfloor_resp_le. lra.
Qed.

Lemma round_half_up_mono x y : x <= y -> (round_half_up x <= round_half_up y)%Z.
Proof.
  intros H. destruct (Qlt_le_dec x 0) as [Hx|Hx]; destruct (Qlt_le_dec y 0) as [Hy|Hy].
  - unfold round_half_up.
    assert (Hbx : Qle_bool 0 x = false).
    { destruct (Qle_bool 0 x) eqn:Hb; [|reflexivity]. apply Qle_bool_iff in Hb. lra. }
    assert (Hby : Qle_bool 0 y = false).
    { destruct (Qle_bool 0 y) eqn:Hb; [|reflexivity]. apply Qle_bool_iff in Hb. lra. }
    rewrite Hbx, Hby.
    assert (Qfloor (- y + (1 # 2)) <= Qfloor (- x + (1 # 2)))%Z; [|lia].
    apply Qfloor_resp_le. lra.
  - apply Z.le_trans with 0%Z.
    + apply round_half_up_nonpos. lra.
    + apply round_half_up_nonneg. assumption.
  - lra.
  - unfold round_half_up.
    apply Qle_bool_iff in Hx, Hy. rewrite Hx, Hy. apply Qfloor_resp_le. lra.
Qed.

Lemma round_half_up_opp q : round_half_up (- q) = (- round_half_up q)%Z.
Proof.
  unfold round_half_up.
  destruct (Qle_bool 0 q) eqn:Hq; destruct (Qle_bool 0 (- q)) eqn:Hq'.
  - apply Qle_bool_iff in Hq, Hq'. assert (E : q == 0) by lra.
    rewrite E. reflexivity.
  - rewrite Qopp_opp. reflexivity.
  - lia.
  - exfalso.
    destruct (Qlt_le_dec q 0) as [H|H].
    + assert (H' : 0 <= - q) by lra. apply Qle_bool_iff in H'. congruence.
    + apply Qle_bool_iff in H. congruence.
Qed.

Lemma round_at_comp k x y : x == y -> round_at k x == round_at k y.
Proof. intros E. unfold round_at. rewrite E. reflexivity. Qed.

Lemma round_at_mono k x y : x <= y -> round_at k x <= round_at k y.
Proof.
  intros H. unfold round_at. unfold Qdiv.
  apply Qmult_le_compat_r.
  - rewrite <- Zle_Qle. apply round_half_up_mono.
    apply Qmult_le_compat_r; [assumption|]. apply Qlt_le_weak, ten_pos.
  - apply Qinv_le_0_compat, Qlt_le_weak, ten_pos.
Qed.

Lemma round_at_fix k q v : q * ten ^ k == inject_Z v -> round_at k q == q.
Proof.
  intros H. unfold round_at. rewrite H, round_half_up_Z, <- H.
  field. pose proof (ten_pos k). lra.
Qed.

Lemma round_at_opp k q : round_at k (- q) == - round_at k q.
Proof.
  unfold round_at.
  assert (E : - q * ten ^ k == - (q * ten ^ k)) by ring.
  rewrite E, round_half_up_opp, inject_Z_opp.
  field. pose proof (ten_pos k). lra.
Qed.

Lemma round_at_ten k e : (0 <= e + k)%Z -> round_at k (ten ^ e) == ten ^ e.
Proof.
  intros H. apply round_at_fix with (v := (10 ^ (e + k))%Z).
  rewrite ten_inject by assumption. rewrite ten_plus. reflexivity.
Qed.

Lemma finalise_zero q : q == 0 -> finalise q = 0.
Proof. intros H. unfold finalise. apply Qeq_bool_iff in H. rewrite H. reflexivity. Qed.

Lemma finalise_nonzero q : ~ q == 0 ->
  finalise q = Qred (round_at (precision - 1 - exponent q) q).
Proof.
  intros H. unfold finalise. destruct (Qeq_bool q 0) eqn:E; [|reflexivity].
  apply Qeq_bool_iff in E. contradiction.
Qed.

Lemma finalise_comp x y : x == y -> finalise x = finalise y.
Proof.
  intros E. destruct (Qeq_dec x 0) as [H|H].
  - rewrite !finalise_zero; [reflexivity| rewrite <- E; assumption | assumption].
  - rewrite !finalise_nonzero; [|rewrite <- E; assumption | assumption].
    apply Qred_complete. rewrite (exponent_comp x y E H). apply round_at_comp. assumption.
Qed.

#[export] Instance finalise_proper : Proper (Qeq ==> Qeq) finalise.
Proof. intros x y E. rewrite (finalise_comp x y E). reflexivity. Qed.

Lemma exponent_opp q : ~ q == 0 -> exponent (- q) = exponent q.
Proof.
  intros H. destruct (exponent_spec q H) as [Hl Hu].
  apply exponent_unique.
  - intros E. apply H. lra.
  - rewrite Qabs_opp. assumption.
  - rewrite Qabs_opp. assumption.
Qed.

Lemma finalise_opp q : finalise (- q) == - finalise q.
Proof.
  destruct (Qeq_dec q 0) as [H|H].
  - rewrite (finalise_zero q H), (finalise_zero (- q)); [reflexivity|lra].
  - rewrite !finalise_nonzero; [|assumption|intros E; apply H; lra].
    rewrite !Qred_correct, exponent_opp by assumption. apply round_at_opp.
Qed.

(** A positive value and its rounding lie in the same decade. *)
Lemma finalise_decade q : 0 < q ->
  ten ^ (exponent q) <= finalise q /\ finalise q <= ten ^ (exponent q + 1).
Proof.
  intros Hq. assert (Hn : ~ q == 0) by lra.
  destruct (exponent_spec q Hn) as [Hl Hu]. rewrite Qabs_pos in Hl, Hu by lra.
  rewrite finalise_nonzero, Qred_correct by assumption.
  set (e := exponent q) in *. set (k := (precision - 1 - e)%Z). split.
  - rewrite <- (round_at_ten k e) by (subst k; unfold precision; lia).
    apply round_at_mono. assumption.
  - rewrite <- (round_at_ten k (e + 1)) by (subst k; unfold precision; lia).
    apply round_at_mono. lra.
Qed.

Lemma finalise_pos_mono x y : 0 < x -> x <= y -> finalise x <= finalise y.
Proof.
  intros Hx Hxy. assert (Hy : 0 < y) by lra.
  assert (Hnx : ~ x == 0) by lra. assert (Hny : ~ y == 0) by lra.
  destruct (exponent_spec x Hnx) as [Hlx Hux]. destruct (exponent_spec y Hny) as [Hly Huy].
  rewrite Qabs_pos in Hlx, Hux, Hly, Huy by lra.
  assert (He : (exponent x <= exponent y)%Z).
  { assert (exponent x < exponent y + 1)%Z; [|lia]. apply ten_lt_inv. lra. }
  destruct (Z.eq_dec (exponent x) (exponent y)) as [E|E].
  - rewrite !finalise_nonzero, !Qred_correct by assumption. rewrite E.
    apply round_at_mono. assumption.
  - apply Qle_trans with (ten ^ (exponent x + 1)); [apply finalise_decade; assumption|].
    apply Qle_trans with (ten ^ (exponent y)); [apply ten_le; lia|].
    apply finalise_decade; assumption.
Qed.

Lemma finalise_nonneg q : 0 <= q -> 0 <= finalise q.
Proof.
  intros H. destruct (Qeq_dec q 0) as [E|E].
  - rewrite (finalise_zero q E). lra.
  - assert (Hq : 0 < q) by lra. destruct (finalise_decade q Hq) as [Hl _].
    pose proof (ten_pos (exponent q)). lra.
Qed.

Theorem finalise_mono x y : x <= y -> finalise x <= finalise y.
Proof.
  intros H. destruct (Qlt_le_dec 0 x) as [Hx|Hx].
  - apply finalise_pos_mono; assumption.
  - destruct (Qlt_le_dec y 0) as [Hy|Hy].
    + assert (Hm : finalise (- y) <= finalise (- x)) by (apply finalise_pos_mono; lra).
      rewrite !finalise_opp in Hm. lra.
    + assert (H1 : 0 <= finalise (- x)) by (apply finalise_nonneg; lra).
      rewrite finalise_opp in H1.
      pose proof (finalise_nonneg y Hy). lra.
Qed.

(** Rounding a rounded value changes nothing. *)
Lemma finalise_pos_idem q : 0 < q -> finalise (finalise q) == finalise q.
Proof.
  intros Hq. assert (Hn : ~ q == 0) by lra.
  destruct (finalise_decade q Hq) as [Hl Hu].
  pose proof (ten_pos (exponent q)) as Hten.
  set (e := exponent q) in *. set (k := (precision - 1 - e)%Z).
  assert (Hf : finalise q == round_at k q).
  { rewrite finalise_nonzero by assumption. apply Qred_correct. }
  assert (Hfn : ~ finalise q == 0) by lra.
  destruct (Qlt_le_dec (finalise q) (ten ^ (e + 1))) as [Hlt|Hge].
  - assert (He : exponent (finalise q) = e).
    { apply exponent_unique; [assumption| |]; rewrite Qabs_pos by lra; assumption. }
    rewrite (finalise_nonzero (finalise q)) by assumption.
    rewrite Qred_correct, He. fold k.
    apply (round_at_fix k _ (round_half_up (q * ten ^ k))).
    rewrite Hf. unfold round_at. field. pose proof (ten_pos k). lra.
  - assert (E : finalise q == ten ^ (e + 1)) by lra.
    rewrite (finalise_comp _ _ E), E.
    assert (He : exponent (ten ^ (e + 1)) = (e + 1)%Z).
    { pose proof (ten_pos (e + 1)).
      apply exponent_unique; [lra| |]; rewrite Qabs_pos by lra; [lra|].
      apply Qpower_lt_compat_l; [lia|reflexivity]. }
    rewrite finalise_nonzero by (pose proof (ten_pos (e + 1)); lra).
    rewrite Qred_correct, He. apply round_at_ten. unfold precision. lia.
Qed.

Theorem finalise_idem q : finalise (finalise q) == finalise q.
Proof.
  destruct (Qlt_le_dec 0 q) as [Hq|Hq].
  - apply finalise_pos_idem. assumption.
  - destruct (Qeq_dec q 0) as [E|E].
    + rewrite (finalise_zero q E). reflexivity.
    + assert (Hneg : 0 < - q) by lra.
      pose proof (finalise_pos_idem (- q) Hneg) as H.
      rewrite (finalise_comp (finalise (- q)) (- finalise q)) in H
        by apply finalise_opp.
      rewrite !finalise_opp in H. lra.
Qed.


End Rounding.

End DecimalFacts.

(** * Facts on doubles *)

Module DoubleFacts.
Import Double.

Section Binary.
Local Open Scope Q_scope.

Lemma two_pos k : 0 < two ^ k.
Proof. apply Qpower_0_lt. reflexivity. Qed.

Lemma two_neq0 : ~ two == 0.
Proof. discriminate. Qed.

Lemma two_plus a b : two ^ (a + b) == two ^ a * two ^ b.
Proof. apply Qpower_plus, two_neq0. Qed.

Lemma two_le a b : (a <= b)%Z -> two ^ a <= two ^ b.
Proof. intros H. apply Qpower_le_compat_l; [assumption|discriminate]. Qed.

Lemma two_lt_inv a b : two ^ a < two ^ b -> (a < b)%Z.
Proof. intros H. apply (Qpower_lt_compat_l_inv two); [assumption|reflexivity]. Qed.

Lemma two_cancel k : two ^ k * two ^ (- k) == 1.
Proof. rewrite <- two_plus. replace (k + - k)%Z with 0%Z by lia. reflexivity. Qed.

Lemma two_inject k : (0 <= k)%Z -> inject_Z (2 ^ k) == two ^ k.
Proof. intros H. apply Zpower_Qpower. assumption. Qed.

(** Bounds of a positive integer by powers of two, in [Q]. *)
Lemma log2_Q a : (0 < a)%Z ->
  two ^ (Z.log2 a) <= inject_Z a /\ inject_Z a < two ^ (Z.log2 a + 1).
Proof.
  intros Ha. pose proof (Z.log2_spec a Ha) as [Hl Hu].
  pose proof (Z.log2_nonneg a) as Hp.
  rewrite <- !two_inject by lia. split.
  - rewrite <- Zle_Qle. assumption.
  - rewrite <- Zlt_Qlt. unfold Z.succ in Hu. assumption.
Qed.

Lemma binade_spec q : ~ q == 0 ->
  two ^ (binade q) <= Qabs q /\ Qabs q < two ^ (binade q + 1).
Proof.
  intros Hq. unfold binade.
  set (a := Z.abs (Qnum q)). set (d := Zpos (Qden q)).
  assert (Ha : (0 < a)%Z).
  { subst a. destruct q as [n dd]. cbn. unfold Qeq in Hq. cbn in Hq. lia. }
  assert (Hd : (0 < d)%Z) by (subst d; lia).
  destruct (log2_Q a Ha) as [Hal Hau]. destruct (log2_Q d Hd) as [Hdl Hdu].
  pose proof (DecimalFacts.Qabs_num_den q) as Hq'. fold a d in Hq'.
  set (e0 := (Z.log2 a - Z.log2 d)%Z).
  assert (Hdpos : 0 < inject_Z d) by (unfold Qlt; simpl; lia).
  assert (Hlow : two ^ (e0 - 1) <= Qabs q).
  { apply (Qmult_le_r _ _ (inject_Z d)); [assumption|]. rewrite Hq'.
    apply Qle_trans with (two ^ (e0 - 1) * two ^ (Z.log2 d + 1)).
    - apply Qmult_le_l; [apply two_pos|]. apply Qlt_le_weak; assumption.
    - rewrite <- two_plus.
      replace (e0 - 1 + (Z.log2 d + 1))%Z with (Z.log2 a) by (subst e0; lia).
      assumption. }
  assert (Hup : Qabs q < two ^ (e0 + 1)).
  { apply (Qmult_lt_r _ _ (inject_Z d)); [assumption|]. rewrite Hq'.
    apply Qlt_le_trans with (two ^ (Z.log2 a + 1)); [assumption|].
    replace (Z.log2 a + 1)%Z with (e0 + 1 + Z.log2 d)%Z by (subst e0; lia).
    rewrite two_plus. apply Qmult_le_l; [apply two_pos|]. assumption. }
  destruct (Qle_bool (two ^ e0) (Qabs q)) eqn:Hb.
  - apply Qle_bool_iff in Hb. split; assumption.
  - split.
    + assumption.
    + replace (e0 - 1 + 1)%Z with e0 by lia.
      apply Qnot_le_lt. intros Hc. apply Qle_bool_iff in Hc. congruence.
Qed.

Lemma binade_lt q e : ~ q == 0 -> Qabs q < two ^ e -> (binade q < e)%Z.
Proof.
  intros Hq H. destruct (binade_spec q Hq) as [Hl _].
  apply two_lt_inv. eapply Qle_lt_trans; eassumption.
Qed.

Lemma binade_ge q e : ~ q == 0 -> two ^ e <= Qabs q -> (e <= binade q)%Z.
Proof.
  intros Hq H. destruct (binade_spec q Hq) as [_ Hu].
  assert (e < binade q + 1)%Z; [|lia].
  apply two_lt_inv. eapply Qle_lt_trans; eassumption.
Qed.

Lemma round_even_comp x y : x == y -> round_even x = round_even y.
Proof.
  intros E. unfold round_even. cbv zeta. rewrite (Qfloor_comp _ _ E).
  assert (E' : x - inject_Z (Qfloor y) == y - inject_Z (Qfloor y))
    by (rewrite E; reflexivity).
  rewrite (Qcompare_comp _ _ E' _ _ (Qeq_refl _)). reflexivity.
Qed.

Lemma round_even_Z z : round_even (inject_Z z) = z.
Proof.
  unfold round_even. cbv zeta. rewrite Qfloor_Z.
  assert (E : inject_Z z - inject_Z z == 0) by ring.
  rewrite (Qcompare_comp _ _ E _ _ (Qeq_refl _)). reflexivity.
Qed.

Lemma round_even_nonneg q : 0 <= q -> (0 <= round_even q)%Z.
Proof.
  intros H. assert (Hf : (0 <= Qfloor q)%Z).
  { change 0%Z with (Qfloor 0). apply Qfloor_resp_le. assumption. }
  unfold round_even.
  destruct (Qcompare (q - inject_Z (Qfloor q)) (1 # 2)); [|lia|lia].
  destruct (Z.even (Qfloor q)); lia.
Qed.

(** The nearest integer is at most a half away. *)
Lemma round_even_error q : Qabs (inject_Z (round_even q) - q) <= 1 # 2.
Proof.
  pose proof (Qfloor_le q) as Hl. pose proof (Qlt_floor q) as Hu.
  rewrite inject_Z_plus in Hu. change (inject_Z 1) with 1 in Hu.
  unfold round_even.
  destruct (Qcompare_spec (q - inject_Z (Qfloor q)) (1 # 2)) as [E|E|E].
  - destruct (Z.even (Qfloor q)).
    + apply Qabs_case; intros _; lra.
    + rewrite inject_Z_plus. change (inject_Z 1) with 1.
      apply Qabs_case; intros _; lra.
  - apply Qabs_case; intros _; lra.
  - rewrite inject_Z_plus. change (inject_Z 1) with 1.
    apply Qabs_case; intros _; lra.
Qed.

Lemma round_zero q : q == 0 -> round q = 0.
Proof. intros H. unfold round. apply Qeq_bool_iff in H. rewrite H. reflexivity. Qed.

Lemma round_nonzero q : ~ q == 0 ->
  round q == inject_Z (round_even (q / two ^ ulp_exponent q)) * two ^ ulp_exponent q.
Proof.
  intros H. unfold round. destruct (Qeq_bool q 0) eqn:E.
  - apply Qeq_bool_iff in E. contradiction.
  - apply Qred_correct.
Qed.

Lemma round_nonneg q : 0 <= q -> 0 <= round q.
Proof.
  intros H. destruct (Qeq_dec q 0) as [E|E].
  - rewrite (round_zero q E). lra.
  - rewrite round_nonzero by assumption.
    pose proof (two_pos (ulp_exponent q)) as Hp.
    apply Qmult_le_0_compat; [|lra].
    change 0 with (inject_Z 0). rewrite <- Zle_Qle. apply round_even_nonneg.
    apply Qle_shift_div_l; [assumption|]. lra.
Qed.

(** A double is at most half a unit in the last place away. *)
Lemma round_error q : ~ q == 0 ->
  Qabs (round q - q) <= two ^ ulp_exponent q * (1 # 2).
Proof.
  intros H. rewrite round_nonzero by assumption.
  set (e := ulp_exponent q). pose proof (two_pos e) as Hp.
  pose proof (round_even_error (q / two ^ e)) as Herr.
  assert (E : inject_Z (round_even (q / two ^ e)) * two ^ e - q
              == (inject_Z (round_even (q / two ^ e)) - q / two ^ e) * two ^ e)
    by (field; lra).
  rewrite E, Qabs_Qmult, (Qabs_pos (two ^ e)) by lra.
  rewrite (Qmult_comm (two ^ e)). apply Qmult_le_compat_r; [assumption|lra].
Qed.

(** An integer up to 2^53 is a double. *)
Lemma round_safe z : (Z.abs z <= 2 ^ 53)%Z -> round (inject_Z z) == inject_Z z.
Proof.
  intros Hz. destruct (Z.eq_dec z 0%Z) as [->|Hn]; [reflexivity|].
  assert (Hq : ~ inject_Z z == 0).
  { intros E. apply Hn. unfold Qeq in E. cbn in E. lia. }
  assert (Habs : Qabs (inject_Z z) == inject_Z (Z.abs z)) by reflexivity.
  assert (Hb0 : (0 <= binade (inject_Z z))%Z).
  { apply binade_ge; [assumption|]. rewrite Habs. change (two ^ 0) with (inject_Z 1).
    rewrite <- Zle_Qle. lia. }
  assert (Hb1 : (binade (inject_Z z) < 54)%Z).
  { apply binade_lt; [assumption|]. rewrite Habs, <- two_inject by lia.
    rewrite <- Zlt_Qlt. change (2 ^ 54)%Z with (2 * 2 ^ 53)%Z. lia. }
  rewrite round_nonzero by assumption.
  assert (He : ulp_exponent (inject_Z z) = (binade (inject_Z z) - 52)%Z)
    by (unfold ulp_exponent; lia).
  rewrite He. set (e := (binade (inject_Z z) - 52)%Z).
  assert (Hn' : exists n, inject_Z z == inject_Z n * two ^ e).
  { destruct (Z.le_gt_cases e 0%Z) as [Hle|Hgt].
    - exists (z * 2 ^ (- e))%Z. rewrite inject_Z_mult, two_inject by lia.
      rewrite <- Qmult_assoc, (Qmult_comm (two ^ (- e))), two_cancel. ring.
    - assert (Ee : e = 1%Z) by lia.
      assert (Hge : two ^ 53 <= Qabs (inject_Z z)).
      { destruct (binade_spec (inject_Z z) Hq) as [Hl _].
        replace 53%Z with (binade (inject_Z z)) by lia. exact Hl. }
      rewrite Habs, <- two_inject in Hge by lia. rewrite <- Zle_Qle in Hge.
      exists (z / 2)%Z. rewrite Ee. change (two ^ 1) with (inject_Z 2).
      rewrite <- inject_Z_mult, inject_Z_injective.
      assert (Hz' : Z.abs z = (2 ^ 53)%Z) by lia.
      change (2 ^ 53)%Z with 9007199254740992%Z in Hz'.
      assert (Hc : z = 9007199254740992%Z \/ z = (- 9007199254740992)%Z) by lia.
      destruct Hc as [-> | ->]; reflexivity. }
  destruct Hn' as [n Hn'].
  pose proof (two_pos e) as Hp.
  assert (Ediv : inject_Z z / two ^ e == inject_Z n).
  { rewrite Hn'. field. lra. }
  rewrite (round_even_comp _ _ Ediv), round_even_Z. symmetry. exact Hn'.
Qed.

Lemma ofZ_safe z : (Z.abs z <= 2 ^ 53)%Z -> ofZ z = z.
Proof.
  intros H. unfold ofZ. rewrite (Qfloor_comp _ _ (round_safe z H)). apply Qfloor_Z.
Qed.

Lemma ofZ_nonneg z : (0 <= z)%Z -> (0 <= ofZ z)%Z.
Proof.
  intros H. unfold ofZ. change 0%Z with (Qfloor 0). apply Qfloor_resp_le.
  apply round_nonneg. change 0 with (inject_Z 0). rewrite <- Zle_Qle. assumption.
Qed.

Lemma toDecimal_safe z : (Z.abs z <= 2 ^ 53)%Z ->
  toDecimal (inject_Z z) = inject_Z z.
Proof.
  intros H. unfold toDecimal, is_safe_integer.
  assert (H1 : Qeq_bool (inject_Z z) (inject_Z (Qfloor (inject_Z z))) = true).
  { apply Qeq_bool_iff. rewrite Qfloor_Z. reflexivity. }
  assert (H2 : Qle_bool (Qabs (inject_Z z)) (two ^ 53) = true).
  { apply Qle_bool_iff. change (Qabs (inject_Z z)) with (inject_Z (Z.abs z)).
    rewrite <- two_inject by lia. rewrite <- Zle_Qle. assumption. }
  rewrite H1, H2. reflexivity.
Qed.

(** The rounding error below 2^e. *)
Lemma round_error_below q e : (-1021 <= e)%Z -> Qabs q < two ^ e ->
  Qabs (round q - q) <= two ^ (e - 53) * (1 # 2).
Proof.
  intros He Hq. destruct (Qeq_dec q 0) as [E|E].
  - rewrite (round_zero q E), E. pose proof (two_pos (e - 53)).
    apply Qabs_case; intros _; lra.
  - eapply Qle_trans; [apply round_error; exact E|].
    apply Qmult_le_compat_r; [|discriminate]. apply two_le.
    pose proof (binade_lt q e E Hq). unfold ulp_exponent. lia.
Qed.

(** A decimal below 2^1023 reads as a finite number. *)
Lemma ofQ_finite q e : (-1021 <= e <= 1023)%Z -> Qabs q < two ^ e ->
  ofQ q = Extended.Finite (round q).
Proof.
  intros He Hq. pose proof (round_error_below q e ltac:(lia) Hq) as Herr.
  assert (Hsmall : two ^ (e - 53) * (1 # 2) <= two ^ e).
  { pose proof (two_pos (e - 53)). pose proof (two_le (e - 53) e ltac:(lia)). lra. }
  assert (Hlim : two ^ (e + 1) <= limit) by (apply two_le; lia).
  assert (Hdouble : two ^ (e + 1) == two ^ e * 2) by (rewrite two_plus; reflexivity).
  assert (Hr : Qabs (round q) < limit).
  { pose proof (Qabs_triangle (round q - q) q) as H.
    assert (E : round q - q + q == round q) by ring.
    rewrite E in H. lra. }
  unfold ofQ. cbv zeta.
  destruct (Qle_bool limit (round q)) eqn:E1.
  { apply Qle_bool_iff in E1. pose proof (Qle_Qabs (round q)). lra. }
  destruct (Qle_bool (round q) (- limit)) eqn:E2; [|reflexivity].
  apply Qle_bool_iff in E2. pose proof (Qle_Qabs (- round q)) as H.
  rewrite Qabs_opp in H. lra.
Qed.






End Binary.

Section Order.
Import Extended.

Lemma ofQ_not_NaN q : ofQ q <> NaN.
Proof.
  unfold ofQ. cbv zeta.
  destruct (Qle_bool _ _); [discriminate|]. destruct (Qle_bool _ _); discriminate.
Qed.

Lemma lt_asym (a b : Extended.t) : lt a b = true -> lt b a = false.
Proof.
  destruct a as [x| | |], b as [y| | |]; cbn; try reflexivity; try discriminate.
  unfold Decimal.lt. intros H. apply negb_true_iff in H. apply negb_false_iff.
  apply Qle_bool_iff. destruct (Qlt_le_dec x y) as [Hlt|Hle].
  - apply Qlt_le_weak. exact Hlt.
  - apply Qle_bool_iff in Hle. congruence.
Qed.

Lemma nlt_trans (a b c : Extended.t) :
  b <> NaN -> lt a b = false -> lt b c = false -> lt a c = false.
Proof.
  destruct a as [x| | |], b as [y| | |], c as [z| | |]; cbn;
    try reflexivity; try discriminate; try congruence.
  unfold Decimal.lt. intros _ H1 H2.
  apply negb_false_iff, Qle_bool_iff in H1. apply negb_false_iff, Qle_bool_iff in H2.
  apply negb_false_iff, Qle_bool_iff. eapply Qle_trans; eassumption.
Qed.

End Order.

End DoubleFacts.

(** * Proportional allocation *)

Section Allocation.
Local Open Scope Z_scope.

Lemma sumZ_shift (l : list Z) (a : Z) : fold_left Z.add l a = a + sumZ l.
Proof.
  unfold sumZ. revert a. induction l as [|x l IH]; intros a; cbn.
  - lia.
  - rewrite IH, (IH (0 + x)). lia.
Qed.

Lemma sumZ_cons (x : Z) (l : list Z) : sumZ (x :: l) = x + sumZ l.
Proof. unfold sumZ at 1. cbn. apply sumZ_shift. Qed.

Lemma sumZ_app (l1 l2 : list Z) : sumZ (l1 ++ l2) = sumZ l1 + sumZ l2.
Proof.
  induction l1 as [|x l1 IH]; cbn [app].
  - reflexivity.
  - rewrite !sumZ_cons, IH. lia.
Qed.

Lemma sumZ_perm (l1 l2 : list Z) : Permutation l1 l2 -> sumZ l1 = sumZ l2.
Proof.
  induction 1 as [|x l1 l2 _ IH|x y l|l1 l2 l3 _ IH1 _ IH2].
  - reflexivity.
  - rewrite !sumZ_cons, IH. reflexivity.
  - rewrite !sumZ_cons. lia.
  - congruence.
Qed.

Lemma sumZ_map_add {A : Type} (f g : A -> Z) (l : list A) :
  sumZ (map (fun x => f x + g x) l) = sumZ (map f l) + sumZ (map g l).
Proof.
  induction l as [|x l IH]; cbn [map].
  - reflexivity.
  - rewrite !sumZ_cons, IH. lia.
Qed.

Lemma sumZ_map_ext {A : Type} (f g : A -> Z) (l : list A) :
  (forall x, In x l -> f x = g x) -> sumZ (map f l) = sumZ (map g l).
Proof.
  intros H. f_equal. apply map_ext_in. assumption.
Qed.

Lemma sumZ_map_const {A : Type} (c : Z) (f : A -> Z) (l : list A) :
  (forall x, In x l -> f x = c) -> sumZ (map f l) = c * Z.of_nat (length l).
Proof.
  induction l as [|x l IH]; intros H.
  - cbn. lia.
  - cbn [map length]. rewrite sumZ_cons, (H x) by (left; reflexivity).
    rewrite IH by (intros y Hy; apply H; right; exact Hy). lia.
Qed.

Lemma sumZ_nonneg (l : list Z) : Forall (fun z => 0 <= z) l -> 0 <= sumZ l.
Proof.
  induction 1 as [|z l Hz Hl IH]; [unfold sumZ; cbn; lia|]. rewrite sumZ_cons. lia.
Qed.

Lemma sumZ_member_le (l : list Z) (x : Z) :
  Forall (fun z => 0 <= z) l -> In x l -> x <= sumZ l.
Proof.
  induction 1 as [|z l Hz Hl IH]; intros Hx; [destruct Hx|].
  rewrite sumZ_cons. pose proof (sumZ_nonneg l Hl).
  destruct Hx as [->|Hx]; [lia|]. specialize (IH Hx). lia.
Qed.

(** ** Sorting permutes *)

Lemma sort_insert_perm {A : Type} (gt : A -> A -> bool) (x : A) (l : list A) :
  Permutation (sort_insert gt x l) (x :: l).
Proof.
  induction l as [|y l IH]; cbn.
  - reflexivity.
  - destruct (gt x y).
    + rewrite IH. apply perm_swap.
    + reflexivity.
Qed.

Lemma sort_perm {A : Type} (gt : A -> A -> bool) (l : list A) :
  Permutation (sort gt l) l.
Proof.
  unfold sort. induction l as [|x l IH]; cbn.
  - reflexivity.
  - rewrite sort_insert_perm, IH. reflexivity.
Qed.

(** ** The map of results *)

Lemma floors_lookup_notin (es : list ExactShare.t) (m : gmap string Z) (k : string) :
  ~ In k (map ExactShare.id es) -> fold_left floor_entry es m !! k = m !! k.
Proof.
  revert m. induction es as [|a es IH]; intros m Hk; cbn.
  - reflexivity.
  - rewrite IH by (intros H; apply Hk; right; exact H).
    unfold floor_entry. apply lookup_insert_ne. intros E. apply Hk. left. exact E.
Qed.

Lemma floors_lookup (es : list ExactShare.t) (m : gmap string Z) (e : ExactShare.t) :
  List.NoDup (map ExactShare.id es) -> In e es ->
  fold_left floor_entry es m !! ExactShare.id e = Some (ExactShare.floor e).
Proof.
  revert m. induction es as [|a es IH]; intros m Hnd He; [destruct He|].
  cbn [map] in Hnd. apply NoDup_cons_iff in Hnd as [Ha Hnd]. cbn.
  destruct He as [->|He].
  - rewrite floors_lookup_notin by exact Ha. unfold floor_entry.
    apply lookup_insert_eq.
  - apply IH; assumption.
Qed.

Lemma award_lookup_notin (aw : list ExactShare.t) (m : gmap string Z) (k : string) :
  ~ In k (map ExactShare.id aw) -> fold_left award aw m !! k = m !! k.
Proof.
  revert m. induction aw as [|a aw IH]; intros m Hk; cbn.
  - reflexivity.
  - rewrite IH by (intros H; apply Hk; right; exact H).
    unfold award. apply lookup_insert_ne. intros E. apply Hk. left. exact E.
Qed.

Lemma award_lookup (aw : list ExactShare.t) (m : gmap string Z) (k : string) :
  List.NoDup (map ExactShare.id aw) -> In k (map ExactShare.id aw) ->
  fold_left award aw m !! k = Some (Double.ofZ (default 0 (m !! k) + 1)).
Proof.
  revert m. induction aw as [|a aw IH]; intros m Hnd Hk; [destruct Hk|].
  cbn [map] in Hnd. apply NoDup_cons_iff in Hnd as [Ha Hnd]. cbn.
  destruct Hk as [<-|Hk].
  - rewrite award_lookup_notin by exact Ha. unfold award. apply lookup_insert_eq.
  - rewrite IH by assumption. unfold award at 1.
    rewrite lookup_insert_ne; [reflexivity|].
    intros E. apply Ha. rewrite E. exact Hk.
Qed.

Lemma floors_nonneg (es : list ExactShare.t) (m : gmap string Z) :
  Forall (fun e => 0 <= ExactShare.floor e) es ->
  map_Forall (fun _ v => 0 <= v) m ->
  map_Forall (fun _ v => 0 <= v) (fold_left floor_entry es m).
Proof.
  revert m. induction es as [|a es IH]; intros m Hes Hm; cbn.
  - exact Hm.
  - inversion Hes; subst. apply IH; [assumption|].
    unfold floor_entry. apply map_Forall_insert_2; assumption.
Qed.

Lemma award_nonneg (aw : list ExactShare.t) (m : gmap string Z) :
  map_Forall (fun _ v => 0 <= v) m ->
  map_Forall (fun _ v => 0 <= v) (fold_left award aw m).
Proof.
  revert m. induction aw as [|a aw IH]; intros m Hm; cbn.
  - exact Hm.
  - apply IH. unfold award. apply map_Forall_insert_2; [|exact Hm].
    apply DoubleFacts.ofZ_nonneg.
    destruct (m !! ExactShare.id a) as [v|] eqn:E; cbn; [|lia].
    specialize (Hm _ _ E). cbn in Hm. lia.
Qed.

(** The sum of the floors is exact while it stays within 2^53. *)
Lemma fold_floor_sum (es : list ExactShare.t) (a : Z) :
  0 <= a -> Forall (fun e => 0 <= ExactShare.floor e) es ->
  a + sumZ (map ExactShare.floor es) <= 2 ^ 53 ->
  fold_left (fun sum r => Double.ofZ (sum + ExactShare.floor r)) es a
  = a + sumZ (map ExactShare.floor es).
Proof.
  revert a. induction es as [|e es IH]; intros a Ha Hes Hsum; cbn [fold_left map].
  - unfold sumZ. cbn. lia.
  - inversion Hes as [|? ? He Hes']; subst. cbn [map] in Hsum.
    rewrite sumZ_cons in Hsum |- *.
    pose proof (sumZ_nonneg (map ExactShare.floor es)) as Hs.
    rewrite Forall_map in Hs. specialize (Hs Hes').
    rewrite DoubleFacts.ofZ_safe by lia.
    rewrite IH by (try assumption; lia). lia.
Qed.

Lemma NoDup_app_disjoint {A : Type} (l1 l2 : list A) (a : A) :
  List.NoDup (l1 ++ l2) -> In a l1 -> ~ In a l2.
Proof.
  induction l1 as [|x l1 IH]; intros Hnd H1 H2; [destruct H1|].
  cbn [app] in Hnd. apply NoDup_cons_iff in Hnd as [Hx Hnd].
  destruct H1 as [->|H1].
  - apply Hx. apply in_or_app. right. exact H2.
  - exact (IH Hnd H1 H2).
Qed.

(** ** The sum of the shares after the award loop *)

Lemma awarded_sum (es sorted : list ExactShare.t) (k : nat) :
  List.NoDup (map ExactShare.id es) -> Permutation sorted es -> (k <= length es)%nat ->
  Forall (fun e => 0 <= ExactShare.floor e < 2 ^ 53) es ->
  sumZ (map (fun e => default 0
                        (fold_left award (take k sorted)
                           (fold_left floor_entry es ∅) !! ExactShare.id e))
            es)
  = sumZ (map ExactShare.floor es) + Z.of_nat k.
Proof.
  intros Hnd Hperm Hk Hsafe.
  set (aw := take k sorted).
  set (ind := fun e : ExactShare.t =>
                if in_dec String.string_dec (ExactShare.id e) (map ExactShare.id aw)
                then 1 else 0).
  assert (Hnds : List.NoDup (map ExactShare.id sorted)).
  { apply (Permutation_NoDup (l := map ExactShare.id es)); [|exact Hnd].
    apply Permutation_map. symmetry. exact Hperm. }
  assert (Hsplit : sorted = aw ++ drop k sorted) by (symmetry; apply firstn_skipn).
  assert (Hnda : List.NoDup (map ExactShare.id aw)).
  { rewrite Hsplit, map_app in Hnds. apply NoDup_app_remove_r in Hnds. exact Hnds. }
  rewrite (sumZ_map_ext _ (fun e => ExactShare.floor e + ind e)).
  2:{ intros e He. unfold ind.
      destruct (in_dec String.string_dec (ExactShare.id e) (map ExactShare.id aw)) as [Hin|Hin].
      - rewrite award_lookup by assumption.
        rewrite floors_lookup by assumption. cbn.
        rewrite List.Forall_forall in Hsafe. specialize (Hsafe e He).
        apply DoubleFacts.ofZ_safe. lia.
      - rewrite award_lookup_notin by assumption.
        rewrite floors_lookup by assumption. cbn. lia. }
  rewrite sumZ_map_add. f_equal.
  rewrite <- (sumZ_perm (map ind sorted))
    by (apply Permutation_map; exact Hperm).
  rewrite Hsplit at 1. rewrite map_app, sumZ_app.
  rewrite (sumZ_map_const 1 ind aw).
  2:{ intros e He. unfold ind.
      destruct (in_dec String.string_dec (ExactShare.id e) (map ExactShare.id aw)) as [Hin|Hin];
        [reflexivity|]. exfalso. apply Hin. apply in_map. exact He. }
  rewrite (sumZ_map_const 0 ind (drop k sorted)).
  2:{ intros e He. unfold ind.
      destruct (in_dec String.string_dec (ExactShare.id e) (map ExactShare.id aw)) as [Hin|Hin];
        [|reflexivity]. exfalso.
      rewrite Hsplit, map_app in Hnds.
      apply (NoDup_app_disjoint _ _ _ Hnds Hin). apply in_map. exact He. }
  subst aw. rewrite length_firstn.
  rewrite (Permutation_length Hperm). lia.
Qed.

(** ** Floors of exact shares *)

Lemma sumQ_shift (l : list Q) (a : Q) : (fold_left Qplus l a == a + sumQ l)%Q.
Proof.
  unfold sumQ. revert a. induction l as [|x l IH]; intros a; cbn.
  - ring.
  - rewrite IH, (IH (0 + x)%Q). ring.
Qed.

Lemma sumQ_cons (x : Q) (l : list Q) : (sumQ (x :: l) == x + sumQ l)%Q.
Proof. unfold sumQ at 1. cbn. rewrite sumQ_shift. ring. Qed.

Lemma floor_sum_bounds (qs : list Q) :
  (inject_Z (sumZ (map Qfloor qs)) <= sumQ qs)%Q
  /\ (sumQ qs <= inject_Z (sumZ (map Qfloor qs) + Z.of_nat (length qs)))%Q.
Proof.
  induction qs as [|q qs [IHl IHu]].
  - cbn. split; discriminate.
  - cbn [map length]. rewrite sumZ_cons, sumQ_cons.
    pose proof (Qfloor_le q) as Hl. pose proof (Qlt_floor q) as Hu.
    rewrite inject_Z_plus in Hu. change (inject_Z 1) with 1%Q in Hu.
    rewrite Nat2Z.inj_succ. unfold Z.succ.
    rewrite !inject_Z_plus in *. change (inject_Z 1) with 1%Q. split; lra.
Qed.

(** The shortfall [total - sum of floors] lies between 0 and the number of
    recipients as soon as the exact shares add up to the total. *)
Lemma shortfall_range (totalShares : Z) (recipients : list (string * Q)) :
  (sumQ (map (exactShare totalShares) recipients) == inject_Z totalShares)%Q ->
  0 <= totalShares
       - sumZ (map (fun r => Qfloor (exactShare totalShares r)) recipients)
    <= Z.of_nat (length recipients).
Proof.
  intros H.
  pose proof (floor_sum_bounds (map (exactShare totalShares) recipients)) as [Hl Hu].
  rewrite H, map_map, length_map in *.
  rewrite <- Zle_Qle in Hl, Hu. lia.
Qed.

(** ** The allocator on totals that are numbers without rounding *)

Lemma distribute_ids (totalShares : Z) (recipients : list (string * Q)) :
  map fst (distributeSharesByLargestRemainder totalShares recipients) = map fst recipients.
Proof. unfold distributeSharesByLargestRemainder. rewrite map_map. reflexivity. Qed.

Lemma exactShare_nonneg (totalShares : Z) (recipients : list (string * Q)) :
  0 <= totalShares -> Forall (fun r => (0 <= snd r)%Q) recipients ->
  Forall (fun v => 0 <= v) (map (fun r => Qfloor (exactShare totalShares r)) recipients).
Proof.
  intros Htotal Hprop. apply List.Forall_forall. intros v Hv.
  apply in_map_iff in Hv as (r & <- & Hr).
  rewrite List.Forall_forall in Hprop. specialize (Hprop r Hr).
  change 0 with (Qfloor 0). apply Qfloor_resp_le.
  apply DecimalFacts.finalise_nonneg. apply Qmult_le_0_compat; [|exact Hprop].
  change 0%Q with (inject_Z 0). rewrite <- Zle_Qle. lia.
Qed.

Lemma distribute_nonneg (totalShares : Z) (recipients : list (string * Q)) :
  0 <= totalShares < 2 ^ 53 -> Forall (fun r => (0 <= snd r)%Q) recipients ->
  Forall (fun s => 0 <= snd s) (distributeSharesByLargestRemainder totalShares recipients).
Proof.
  intros Htotal Hprop. unfold distributeSharesByLargestRemainder.
  rewrite (DoubleFacts.toDecimal_safe totalShares) by lia.
  pose proof (exactShare_nonneg totalShares recipients (proj1 Htotal) Hprop) as Hflq.
  apply List.Forall_forall. intros s Hs.
  apply in_map_iff in Hs as (r & <- & Hr). cbn.
  match goal with
  | |- 0 <= default 0 (?m !! _) => assert (Hm : map_Forall (fun _ v => 0 <= v) m)
  end.
  { apply award_nonneg, floors_nonneg; [|apply map_Forall_empty].
    apply List.Forall_forall. intros e He. apply in_map_iff in He as (r' & <- & Hr').
    cbn. apply DoubleFacts.ofZ_nonneg.
    rewrite List.Forall_forall in Hflq. apply Hflq.
    apply in_map_iff. exists r'. split; [reflexivity|exact Hr']. }
  match goal with
  | |- 0 <= default 0 (?m !! ?k) => destruct (m !! k) as [v|] eqn:E; cbn; [|lia]
  end.
  exact (Hm _ _ E).
Qed.

(** The counts add up to the total when the identifiers are distinct and the
    shortfall of the floors is covered by one share per recipient. *)
Lemma distribute_sum (totalShares : Z) (recipients : list (string * Q)) :
  0 <= totalShares < 2 ^ 53 -> Forall (fun r => (0 <= snd r)%Q) recipients ->
  List.NoDup (map fst recipients) ->
  0 <= totalShares - sumZ (map (fun r => Qfloor (exactShare totalShares r)) recipients)
    <= Z.of_nat (length recipients) ->
  sumZ (map snd (distributeSharesByLargestRemainder totalShares recipients)) = totalShares.
Proof.
  intros Htotal Hprop Hnd Hshort. unfold distributeSharesByLargestRemainder.
  rewrite (DoubleFacts.toDecimal_safe totalShares) by lia.
  set (floors := map (fun r => Qfloor (exactShare totalShares r)) recipients) in *.
  pose proof (exactShare_nonneg totalShares recipients (proj1 Htotal) Hprop) as Hflq.
  fold floors in Hflq.
  set (mk := fun r : string * Q =>
               ExactShare.mk (fst r) (Decimal.times (inject_Z totalShares) (snd r))
                 (Double.ofZ
                    (Decimal.round_floor (Decimal.times (inject_Z totalShares) (snd r))))
                 (Decimal.minus (Decimal.times (inject_Z totalShares) (snd r))
                    (Double.toDecimal
                       (inject_Z
                          (Double.ofZ
                             (Decimal.round_floor
                                (Decimal.times (inject_Z totalShares) (snd r)))))))).
  set (es := map mk recipients).
  assert (Hids : map ExactShare.id es = map fst recipients).
  { subst es. rewrite map_map. reflexivity. }
  assert (Hbound : forall r, In r recipients ->
            0 <= Qfloor (exactShare totalShares r) < 2 ^ 53).
  { intros r Hr.
    assert (Hin : In (Qfloor (exactShare totalShares r)) floors)
      by (subst floors; apply in_map_iff; exists r; split; [reflexivity|exact Hr]).
    pose proof (sumZ_member_le floors _ Hflq Hin).
    rewrite List.Forall_forall in Hflq. specialize (Hflq _ Hin). lia. }
  assert (Hfloors : map ExactShare.floor es = floors).
  { subst es floors. rewrite map_map. apply map_ext_in. intros r Hr. cbn.
    apply DoubleFacts.ofZ_safe. specialize (Hbound r Hr).
    unfold Decimal.round_floor. fold (exactShare totalShares r). lia. }
  assert (Hsafe : Forall (fun e => 0 <= ExactShare.floor e < 2 ^ 53) es).
  { apply List.Forall_forall. intros e He.
    assert (Hin : In (ExactShare.floor e) floors)
      by (rewrite <- Hfloors; apply in_map; exact He).
    subst floors. apply in_map_iff in Hin as (r & <- & Hr). apply Hbound. exact Hr. }
  rewrite map_map. cbn [snd].
  rewrite fold_floor_sum.
  2: lia.
  2:{ eapply Forall_impl; [exact Hsafe|]. cbn. intros; lia. }
  2:{ rewrite Hfloors. lia. }
  rewrite Z.add_0_l, Hfloors.
  pose proof (sumZ_nonneg floors Hflq) as Hsum.
  rewrite DoubleFacts.ofZ_safe by lia.
  rewrite <- Hids in Hnd.
  match goal with
  | |- context [fold_left award (take ?k ?sorted) ?m] =>
      transitivity
        (sumZ (map (fun e => default 0
                      (fold_left award (take k sorted) m !! ExactShare.id e)) es))
  end.
  { subst es. rewrite map_map. reflexivity. }
  assert (Hlen : length (sort (fun a b =>
                            Decimal.gt
                              (Double.round
                                 (Decimal.minus (ExactShare.remainder b)
                                    (ExactShare.remainder a))) 0) es)
                 = length recipients).
  { rewrite (Permutation_length (sort_perm _ es)). subst es. apply length_map. }
  rewrite awarded_sum.
  - rewrite Hfloors, Hlen. lia.
  - exact Hnd.
  - apply sort_perm.
  - rewrite Hlen. subst es. rewrite length_map. lia.
  - exact Hsafe.
Qed.

(** [C1] as amended.  For a total that is not negative and is below 2^53,
    and proportions that are not negative,
    [distributeSharesByLargestRemainder] returns one share count per
    recipient, in order, and none is negative.  The counts add up to the
    total when the recipient ids are pairwise distinct and the shortfall
    [total - sum of floor(total * proportion)] lies between 0 and the number
    of recipients, which is the case when the exact shares
    [total * proportion] add up to the total (proportions that sum to 1). *)
Theorem distribute_shares_sum_amended
    (totalShares : Z) (recipients : list (string * Q)) :
  0 <= totalShares < 2 ^ 53 -> Forall (fun r => (0 <= snd r)%Q) recipients ->
  let result := distributeSharesByLargestRemainder totalShares recipients in
  let floors := map (fun r => Qfloor (exactShare totalShares r)) recipients in
  map fst result = map fst recipients
  /\ Forall (fun s => 0 <= snd s) result
  /\ (List.NoDup (map fst recipients) ->
      0 <= totalShares - sumZ floors <= Z.of_nat (length recipients) ->
      sumZ (map snd result) = totalShares)
  /\ ((sumQ (map (exactShare totalShares) recipients) == inject_Z totalShares)%Q ->
      0 <= totalShares - sumZ floors <= Z.of_nat (length recipients)).
Proof.
  intros Htotal Hprop result floors. subst result floors.
  split; [|split; [|split]].
  - apply distribute_ids.
  - apply distribute_nonneg; assumption.
  - intros Hnd Hshort. apply distribute_sum; assumption.
  - apply shortfall_range.
Qed.

(** The amended statement on three recipients with a third each: the total
    of 10 is met, one recipient taking the shortfall. *)
Lemma distribute_shares_sum_amended_witness :
  sumZ (map snd (distributeSharesByLargestRemainder 10 third_recipients)) = 10.
Proof.
  assert (H1 : 0 <= 10 < 2 ^ 53) by lia.
  assert (H2 : Forall (fun r : string * Q => (0 <= snd r)%Q) third_recipients).
  { repeat constructor; vm_compute; discriminate. }
  destruct (distribute_shares_sum_amended 10 third_recipients H1 H2) as (_ & _ & H & _).
  apply H.
  - repeat constructor; cbn; intuition discriminate.
  - vm_compute. split; discriminate.
Defined.

(** [C1] as stated fails: two recipients with proportions 1/4 and 1/4 share
    6 of a total of 10. *)
Lemma distribute_shares_sum_counterexample :
  0 <= 10 < 2 ^ 53
  /\ Forall (fun r : string * Q => (0 <= snd r)%Q) quarter_recipients
  /\ distributeSharesByLargestRemainder 10 quarter_recipients
     = [("a"%string, 3); ("b"%string, 3)]
  /\ sumZ (map snd (distributeSharesByLargestRemainder 10 quarter_recipients)) <> 10.
Proof.
  split; [lia|]. split; [repeat constructor; vm_compute; discriminate|].
  split; [vm_compute; reflexivity|]. vm_compute. discriminate.
Qed.

(** From 2^53 on, the counts of the source are doubles that no longer hold
    every integer: the floors of 2^53 + 2 shares at 60% and 40% add up to
    2^53 as doubles, two shares are awarded where one is missing, and
    2^53 + 3 shares come back. *)
Example distribute_beyond_safe_integers :
  distributeSharesByLargestRemainder (2 ^ 53 + 2) scenarioA_recipients
  = [("founder-1"%string, 5404319552844597); ("founder-2"%string, 3602879701896398)]
  /\ 5404319552844597 + 3602879701896398 = 2 ^ 53 + 3.
Proof. split; vm_compute; reflexivity. Qed.

(** Scenario A: 10,000,000 shares at 60% and 40%. *)
Example distribute_scenarioA :
  distributeSharesByLargestRemainder 10000000 scenarioA_recipients
  = [("founder-1"%string, 6000000); ("founder-2"%string, 4000000)].
Proof. vm_compute. reflexivity. Qed.

End Allocation.

(** * SAFE conversion price *)

Section SafeConversion.
Import Decimal DecimalFacts.
Local Open Scope Q_scope.

Lemma Qle_bool_false a b : Qle_bool a b = false -> b < a.
Proof.
  intros H. apply Qnot_le_lt. intros Hle. apply Qle_bool_iff in Hle. congruence.
Qed.

Lemma lt_true a b : Decimal.lt a b = true -> a < b.
Proof.
  unfold Decimal.lt. intros H. apply Qle_bool_false.
  destruct (Qle_bool b a); [discriminate|reflexivity].
Qed.

Lemma lt_false a b : Decimal.lt a b = false -> b <= a.
Proof.
  unfold Decimal.lt. intros H. apply Qle_bool_iff.
  destruct (Qle_bool b a); [reflexivity|discriminate].
Qed.

Lemma dmin_le a b : a <= b -> dmin a b == a.
Proof. intros H. unfold dmin. apply Qle_bool_iff in H. rewrite H. reflexivity. Qed.

Lemma dmin_ge a b : b <= a -> dmin a b == b.
Proof.
  intros H. unfold dmin. destruct (Qle_bool a b) eqn:E; [|reflexivity].
  apply Qle_bool_iff in E. lra.
Qed.

Lemma dmin_comp a a' b : a == a' -> dmin a b == dmin a' b.
Proof.
  intros E. destruct (Qlt_le_dec b a) as [H|H].
  - rewrite !dmin_ge; [reflexivity|lra|lra].
  - rewrite !dmin_le; [assumption|lra|lra].
Qed.

(** A discount lowers a non-negative price, even after rounding. *)
Lemma discountPrice_le roundPrice d :
  0 <= roundPrice -> finalise roundPrice == roundPrice -> 0 <= d ->
  spec_discountPrice roundPrice d <= roundPrice.
Proof.
  intros Hp Hr Hd. unfold spec_discountPrice, times. rewrite <- Hr at 2.
  apply finalise_mono.
  assert (E : roundPrice * (1 - d / 100) == roundPrice - roundPrice * d * (1 # 100))
    by field.
  assert (H : 0 <= roundPrice * d) by (apply Qmult_le_0_compat; assumption).
  rewrite E. lra.
Qed.

Lemma discountPrice_ge roundPrice d :
  0 <= roundPrice -> finalise roundPrice == roundPrice -> d <= 0 ->
  roundPrice <= spec_discountPrice roundPrice d.
Proof.
  intros Hp Hr Hd. unfold spec_discountPrice, times. rewrite <- Hr at 1.
  apply finalise_mono.
  assert (E : roundPrice * (1 - d / 100) == roundPrice + roundPrice * (- d) * (1 # 100))
    by field.
  assert (H : 0 <= roundPrice * (- d)) by (apply Qmult_le_0_compat; lra).
  rewrite E. lra.
Qed.

(** With a discount that the doubles handle exactly, the engine reads the
    discount and computes the discount price as the specification has
    them. *)
Lemma discount_read d : exact_discount d ->
  discount_present (Some d) = if Decimal.gt d 0 then Some d else None.
Proof.
  intros [(r & Hr & Er) _]. unfold discount_present. rewrite Hr.
  cbn [Extended.lt]. unfold Decimal.lt, Decimal.gt.
  rewrite (Qle_bool_comp_l r d 0 Er). reflexivity.
Qed.

Lemma discount_price_exact roundPrice d : exact_discount d ->
  discountPriceOf roundPrice d = Extended.Finite (spec_discountPrice roundPrice d).
Proof.
  intros [_ (f & Hf & Ef)]. unfold discountPriceOf. rewrite Hf.
  cbn [Extended.times]. f_equal. unfold spec_discountPrice, times.
  apply finalise_comp. rewrite Ef. reflexivity.
Qed.

Lemma div_finite a b : ~ b == 0 -> Extended.div a b = Extended.Finite (finalise (a / b)).
Proof.
  intros H. unfold Extended.div, isZero. destruct (Qeq_bool b 0) eqn:E; [|reflexivity].
  apply Qeq_bool_iff in E. contradiction.
Qed.

Lemma ddiv_ok a b : ~ b == 0 -> ddiv a b = Ok (finalise (a / b)).
Proof.
  intros H. unfold ddiv, isZero. destruct (Qeq_bool b 0) eqn:E; [|reflexivity].
  apply Qeq_bool_iff in E. contradiction.
Qed.

Lemma ddiv_inv a b q : ddiv a b = Ok q -> ~ b == 0 /\ q = finalise (a / b).
Proof.
  unfold ddiv, isZero. destruct (Qeq_bool b 0) eqn:E; [discriminate|].
  intros H. injection H as <-. split; [|reflexivity].
  intros Hb. apply Qeq_bool_iff in Hb. congruence.
Qed.

Lemma ddiv_comp a b b' : b == b' -> ~ b == 0 ->
  ddiv a b = Ok (finalise (a / b')).
Proof.
  intros E Hb. rewrite ddiv_ok by assumption. f_equal. apply finalise_comp.
  rewrite E. reflexivity.
Qed.

Lemma gt_true a b : Decimal.gt a b = true -> b < a.
Proof.
  unfold Decimal.gt. intros H. apply Qle_bool_false.
  destruct (Qle_bool a b); [discriminate|reflexivity].
Qed.

Lemma gt_false a b : Decimal.gt a b = false -> a <= b.
Proof.
  unfold Decimal.gt. intros H. apply Qle_bool_iff.
  destruct (Qle_bool a b); [reflexivity|discriminate].
Qed.

(** Turns the boolean comparisons of the context into inequalities. *)
Ltac bool_to_Q :=
  repeat match goal with
         | H : Decimal.lt _ _ = true |- _ => apply lt_true in H
         | H : Decimal.lt _ _ = false |- _ => apply lt_false in H
         | H : Decimal.gt _ _ = true |- _ => apply gt_true in H
         | H : Decimal.gt _ _ = false |- _ => apply gt_false in H
         | H : Qle_bool _ _ = true |- _ => apply Qle_bool_iff in H
         | H : Qle_bool _ _ = false |- _ => apply Qle_bool_false in H
         end.

(** Decides an equation between prices selected by comparisons. *)
Ltac price_cases :=
  unfold dmin in *;
  repeat match goal with
         | |- context [if Qle_bool ?a ?b then _ else _] =>
             destruct (Qle_bool a b) eqn:?
         | H : context [if Qle_bool ?a ?b then _ else _] |- _ =>
             destruct (Qle_bool a b) eqn:?
         end;
  bool_to_Q;
  repeat match goal with
         | H : ?a <= ?b -> _ |- _ => specialize (H ltac:(lra))
         end;
  lra.

(** Once the effective price is known, the share count follows. *)
Lemma conversion_shares principal eff p method :
  eff == p -> ~ p == 0 ->
  exists r q,
    match Extended.div_by principal (Extended.Finite eff) with
    | Extended.Finite s =>
        Ok (SAFEConversion.mk (roundShares s) (Extended.Finite eff) method)
    | _ => NonFinite
    end = Ok r
    /\ SAFEConversion.effectivePrice r = Extended.Finite q /\ q == p
    /\ SAFEConversion.shares r = roundShares (finalise (principal / p)).
Proof.
  intros E Hp. assert (He : ~ eff == 0) by (rewrite E; assumption).
  cbn [Extended.div_by]. rewrite (div_finite principal eff He).
  eexists. exists eff. split; [reflexivity|]. cbn. split; [reflexivity|].
  split; [assumption|]. f_equal. apply finalise_comp. rewrite E. reflexivity.
Qed.

(** The conversion on discounts that the doubles handle exactly. *)
Lemma conversion_with_exact_discount (safe : SAFE.t) (roundPrice fd p : Q) :
  0 <= roundPrice -> finalise roundPrice == roundPrice ->
  (forall d, SAFE.discountPercent safe = Some d -> exact_discount d) ->
  spec_effectivePrice safe roundPrice fd = Ok p -> ~ p == 0 ->
  exists r q, calculateSAFEConversion safe roundPrice fd = Ok r
    /\ SAFEConversion.effectivePrice r = Extended.Finite q /\ q == p
    /\ SAFEConversion.shares r
       = roundShares (finalise (SAFE.principalAmount safe / p)).
Proof.
  intros Hpos Hrep Hexact Hspec Hp.
  unfold spec_effectivePrice in Hspec. unfold calculateSAFEConversion.
  assert (Hdisc : forall d, 0 <= d -> spec_discountPrice roundPrice d <= roundPrice)
    by (intros; apply discountPrice_le; assumption).
  assert (Hdisc' : forall d, d <= 0 -> roundPrice <= spec_discountPrice roundPrice d)
    by (intros; apply discountPrice_ge; assumption).
  destruct (SAFE.valuationCap safe) as [cap|]; cbn in Hspec.
  - destruct (ddiv cap fd) as [capPrice| |] eqn:Hcap; cbn in Hspec; try discriminate.
    apply ddiv_inv in Hcap as [Hfd ->]. rewrite (div_finite cap fd Hfd).
    injection Hspec as <-.
    destruct (SAFE.discountPercent safe) as [d|] eqn:Hd.
    + rewrite (discount_read d (Hexact d eq_refl)).
      destruct (Decimal.gt d 0) eqn:Hgt;
        [pose proof (Hdisc d) as Hle | pose proof (Hdisc' d) as Hle].
      * rewrite (discount_price_exact roundPrice d (Hexact d eq_refl)).
        cbn [Extended.lt].
        match goal with
        | |- context [if Decimal.lt ?a ?b then _ else _] =>
            destruct (Decimal.lt a b) eqn:Hlt
        end;
        apply conversion_shares; try assumption; price_cases.
      * cbn [Extended.lt].
        match goal with
        | |- context [if Decimal.lt ?a ?b then _ else _] =>
            destruct (Decimal.lt a b) eqn:Hlt
        end;
        apply conversion_shares; try assumption; price_cases.
    + cbn [discount_present Extended.lt].
      match goal with
      | |- context [if Decimal.lt ?a ?b then _ else _] =>
          destruct (Decimal.lt a b) eqn:Hlt
      end;
      apply conversion_shares; try assumption; price_cases.
  - injection Hspec as <-.
    destruct (SAFE.discountPercent safe) as [d|] eqn:Hd.
    + rewrite (discount_read d (Hexact d eq_refl)).
      destruct (Decimal.gt d 0) eqn:Hgt;
        [pose proof (Hdisc d) as Hle | pose proof (Hdisc' d) as Hle].
      * rewrite (discount_price_exact roundPrice d (Hexact d eq_refl)).
        cbn [Extended.lt].
        match goal with
        | |- context [if Decimal.lt ?a ?b then _ else _] =>
            destruct (Decimal.lt a b) eqn:Hlt
        end;
        apply conversion_shares; try assumption; price_cases.
      * apply conversion_shares; try assumption; price_cases.
    + cbn [discount_present]. apply conversion_shares; [reflexivity|assumption].
Qed.

(** [C5] An 18% discount shows the defect.  The engine computes the factor
    [1 - discountPercent / 100] in doubles, where it is
    0.8200000000000001: a SAFE of $1,230.41 converts at that price into
    1,500 shares in a round at $1.00, whereas the discount price of the
    specification is 0.82 and gives 1,501 shares.  Where the doubles give
    the factor exactly, the SAFE converts as specified: at the least of the
    round price, the cap price and the discount price, for a round price
    that is a non-negative decimal of at most 28 digits, and into its
    principal divided by that price, rounded.  Without cap and discount the
    price is the round price itself.  In scenario B, with a discount of
    20%, the price is 0.50 and the SAFE receives 1,000,000 shares; were
    there no fully diluted shares, its cap price would be infinite and it
    would convert at the discount price of 0.80. *)
Theorem safe_discount_factor_is_rounded :
  (calculateSAFEConversion discount18_safe 1 (10000000 # 1)
   = Ok (SAFEConversion.mk 1500
           (Extended.Finite (8200000000000001 # 10000000000000000)) "discount")
   /\ spec_effectivePrice discount18_safe 1 (10000000 # 1) = Ok (41 # 50)
   /\ roundShares (finalise (SAFE.principalAmount discount18_safe / (41 # 50)))
      = 1501%Z)
  /\ (forall (safe : SAFE.t) (roundPrice fd p : Q),
        0 <= roundPrice -> finalise roundPrice == roundPrice ->
        (forall d, SAFE.discountPercent safe = Some d -> exact_discount d) ->
        spec_effectivePrice safe roundPrice fd = Ok p -> ~ p == 0 ->
        exists r q, calculateSAFEConversion safe roundPrice fd = Ok r
          /\ SAFEConversion.effectivePrice r = Extended.Finite q /\ q == p
          /\ SAFEConversion.shares r
             = roundShares (finalise (SAFE.principalAmount safe / p)))
  /\ (forall (safe : SAFE.t) (roundPrice fd : Q),
        SAFE.valuationCap safe = None -> SAFE.discountPercent safe = None ->
        ~ roundPrice == 0 ->
        calculateSAFEConversion safe roundPrice fd
        = Ok (SAFEConversion.mk
                (roundShares (finalise (SAFE.principalAmount safe / roundPrice)))
                (Extended.Finite roundPrice) "round_price"))
  /\ calculateSAFEConversion scenarioB_safe 1 (10000000 # 1)
     = Ok (SAFEConversion.mk 1000000 (Extended.Finite (1 # 2)) "cap")
  /\ calculateSAFEConversion scenarioB_safe 1 0
     = Ok (SAFEConversion.mk 625000 (Extended.Finite (4 # 5)) "discount").
Proof.
  split; [|split; [|split; [|split]]].
  - split; [vm_compute; reflexivity|]. split; vm_compute; reflexivity.
  - apply conversion_with_exact_discount.
  - intros safe roundPrice fd Hcap Hdisc Hp.
    unfold calculateSAFEConversion. rewrite Hcap, Hdisc. cbn.
    rewrite (div_finite _ _ Hp). reflexivity.
  - vm_compute. reflexivity.
  - vm_compute. reflexivity.
Qed.

(** The second part of [safe_discount_factor_is_rounded] on scenario B,
    whose discount of 20% the doubles handle exactly. *)
Lemma safe_discount_factor_is_rounded_witness :
  exists r q, calculateSAFEConversion scenarioB_safe 1 (10000000 # 1) = Ok r
    /\ SAFEConversion.effectivePrice r = Extended.Finite q /\ q == 1 # 2
    /\ SAFEConversion.shares r = 1000000%Z.
Proof.
  apply (proj1 (proj2 safe_discount_factor_is_rounded)
           scenarioB_safe 1 (10000000 # 1) (1 # 2)).
  - discriminate.
  - reflexivity.
  - intros d Hd. injection Hd as <-. split.
    + eexists. split; [vm_compute; reflexivity|reflexivity].
    + eexists. split; [vm_compute; reflexivity|reflexivity].
  - vm_compute. reflexivity.
  - discriminate.
Defined.

End SafeConversion.

(** * Vesting *)

Section Vesting.
Local Open Scope Z_scope.


Lemma monthsElapsed_mono (start t1 t2 : date) :
  t1 <= t2 -> monthsElapsed start t1 <= monthsElapsed start t2.
Proof.
  intros H. unfold monthsElapsed. apply Qfloor_resp_le.
  unfold Qdiv. apply Qmult_le_compat_r.
  - rewrite <- Zle_Qle. lia.
  - apply Qinv_le_0_compat. discriminate.
Qed.

(** The percentage that vests at the cliff: 25 replaces 0. *)
Lemma cliffPercent_range (p : Q) :
  (0 <= p <= 100)%Q ->
  (0 <= (if Qeq_bool p 0 then 25 # 1 else p) <= 100)%Q.
Proof.
  intros H. destruct (Qeq_bool p 0); [split; discriminate|assumption].
Qed.

Lemma cliffVested_range (total : Z) (p : Q) :
  0 <= total -> (0 <= p <= 100)%Q ->
  0 <= Qfloor (inject_Z total * p / 100) <= total.
Proof.
  intros Ht [Hp0 Hp1].
  assert (Hq : (0 <= inject_Z total)%Q) by (rewrite Zle_Qle in Ht; exact Ht).
  assert (Hprod : (0 <= inject_Z total * p)%Q) by (apply Qmult_le_0_compat; assumption).
  assert (Hprod' : (inject_Z total * p <= inject_Z total * 100)%Q).
  { rewrite !(Qmult_comm (inject_Z total)). apply Qmult_le_compat_r; assumption. }
  split.
  - change 0 with (Qfloor 0). apply Qfloor_resp_le.
    unfold Qdiv. apply Qmult_le_0_compat; [assumption|discriminate].
  - rewrite <- (Qfloor_Z total) at 2. apply Qfloor_resp_le.
    apply Qle_shift_div_r; [reflexivity|assumption].
Qed.

(** ** Schedules with a vesting period after the cliff

    [cliffMonths < totalMonths], a cliff percentage in [[0, 100]], a holding
    with a non-negative quantity and a start date of its own. *)

Variable holding : SecurityHolding.t.
Variable schedule : VestingSchedule.t.
Variable start : date.

Hypothesis start_fixed : forall asOfDate, vestingStart holding asOfDate = start.
Hypothesis quantity_nonneg : 0 <= SecurityHolding.quantity holding.
Hypothesis cliff_before_end :
  VestingSchedule.cliffMonths schedule < VestingSchedule.totalMonths schedule.
Hypothesis percent_range :
  (0 <= VestingSchedule.initialCliffPercent schedule <= 100)%Q.

Let total := SecurityHolding.quantity holding.
Let cliff := VestingSchedule.cliffMonths schedule.
Let remainingMonths :=
  VestingSchedule.totalMonths schedule - VestingSchedule.cliffMonths schedule.
Let cliffVested :=
  Qfloor (inject_Z total
          * (if Qeq_bool (VestingSchedule.initialCliffPercent schedule) 0
             then 25 # 1 else VestingSchedule.initialCliffPercent schedule) / 100).

Lemma vested_before_cliff (asOfDate : date) :
  monthsElapsed start asOfDate < cliff ->
  vestedUnderSchedule holding asOfDate schedule = JsNum.Int 0.
Proof.
  intros H. unfold vestedUnderSchedule. rewrite start_fixed.
  apply Z.ltb_lt in H. unfold cliff in H. rewrite H. reflexivity.
Qed.

Lemma vested_after_cliff (asOfDate : date) :
  cliff <= monthsElapsed start asOfDate ->
  vestedUnderSchedule holding asOfDate schedule
  = JsNum.Int
      (Z.min total
         (cliffVested
          + Z.min (total - cliffVested)
              ((total - cliffVested) * (monthsElapsed start asOfDate - cliff)
               / remainingMonths))).
Proof.
  intros H. unfold vestedUnderSchedule. rewrite start_fixed.
  apply Z.ltb_ge in H. unfold cliff in H. rewrite H.
  unfold JsNum.div_floor.
  assert (Hr : (VestingSchedule.totalMonths schedule
                - VestingSchedule.cliffMonths schedule =? 0) = false)
    by (apply Z.eqb_neq; lia).
  rewrite Hr. reflexivity.
Qed.

Lemma cliffVested_bounds : 0 <= cliffVested <= total.
Proof.
  apply cliffVested_range; [exact quantity_nonneg|].
  apply cliffPercent_range. exact percent_range.
Qed.

(** Monotone, zero before the cliff, everything from the end of the vesting
    period on. *)
Theorem vesting_with_period_after_cliff :
  (forall t1 t2 : date, t1 <= t2 ->
     exists v1 v2,
       vestedUnderSchedule holding t1 schedule = JsNum.Int v1
       /\ vestedUnderSchedule holding t2 schedule = JsNum.Int v2
       /\ v1 <= v2)
  /\ (forall t : date, monthsElapsed start t < VestingSchedule.cliffMonths schedule ->
        vestedUnderSchedule holding t schedule = JsNum.Int 0)
  /\ (forall t : date, VestingSchedule.totalMonths schedule <= monthsElapsed start t ->
        vestedUnderSchedule holding t schedule
        = JsNum.Int (SecurityHolding.quantity holding)).
Proof.
  pose proof cliffVested_bounds as Hcv.
  assert (Hrem : 0 < remainingMonths) by (subst remainingMonths; lia).
  split; [|split].
  - intros t1 t2 Ht. pose proof (monthsElapsed_mono start t1 t2 Ht) as Hm.
    destruct (Z.lt_ge_cases (monthsElapsed start t1) cliff) as [H1|H1];
      destruct (Z.lt_ge_cases (monthsElapsed start t2) cliff) as [H2|H2].
    + exists 0, 0. rewrite !vested_before_cliff by assumption. repeat split. lia.
    + eexists 0, _. rewrite vested_before_cliff, vested_after_cliff by assumption.
      repeat split.
      assert (0 <= (total - cliffVested) * (monthsElapsed start t2 - cliff)
                   / remainingMonths).
      { apply Z.div_pos; [|assumption]. apply Z.mul_nonneg_nonneg; lia. }
      lia.
    + lia.
    + eexists _, _. rewrite !vested_after_cliff by assumption. repeat split.
      assert ((total - cliffVested) * (monthsElapsed start t1 - cliff) / remainingMonths
              <= (total - cliffVested) * (monthsElapsed start t2 - cliff)
                 / remainingMonths).
      { apply Z.div_le_mono; [assumption|]. apply Z.mul_le_mono_nonneg_l; lia. }
      lia.
  - intros t H. apply vested_before_cliff. assumption.
  - intros t H. rewrite vested_after_cliff by (subst cliff; lia).
    f_equal. fold total.
    assert (total - cliffVested
            <= (total - cliffVested) * (monthsElapsed start t - cliff) / remainingMonths).
    { apply Z.div_le_lower_bound; [assumption|].
      rewrite (Z.mul_comm remainingMonths). apply Z.mul_le_mono_nonneg_l; [lia|].
      subst remainingMonths cliff. lia. }
    lia.
Qed.

End Vesting.

Section VestingClaims.
Local Open Scope Z_scope.


(** Scenario D: 48,000 options, 12-month cliff at 25%, 48 months, in the
    24th month after the start (731 days). *)
Example vesting_scenarioD :
  calculateVestedOptions grant_48000 (731 * msPerDay)
    (state_with_schedule scenarioD_schedule) = JsNum.Int 24000.
Proof. vm_compute. reflexivity. Qed.

(** [C9] On a schedule whose cliff is the whole vesting period (12 months
    out of 12), the vested quantity of a grant of 48,000 options is 0 before
    the cliff, not a number at the end of the vesting period (366 days after
    the start, the twelfth month), and 48,000 one month later: at the end of
    the vesting period it is not the total. *)
Theorem vesting_cliff_only_not_a_number :
  calculateVestedOptions grant_48000 (365 * msPerDay)
    (state_with_schedule cliff_only_schedule) = JsNum.Int 0
  /\ monthsElapsed 0 (366 * msPerDay) = VestingSchedule.totalMonths cliff_only_schedule
  /\ calculateVestedOptions grant_48000 (366 * msPerDay)
       (state_with_schedule cliff_only_schedule) = JsNum.NaN
  /\ calculateVestedOptions grant_48000 (396 * msPerDay)
       (state_with_schedule cliff_only_schedule) = JsNum.Int 48000.
Proof. vm_compute. repeat split. Qed.



End VestingClaims.

(** * Option exercise *)

Section Exercise.
Local Open Scope Z_scope.

Lemma find_index_Some {A : Type} (p : A -> bool) (l : list A) (i : nat) (x : A) :
  find_index p l = Some (i, x) -> l !! i = Some x /\ p x = true.
Proof.
  revert i. induction l as [|y l IH]; intros i H; cbn in H; [discriminate|].
  destruct (p y) eqn:Hy.
  - injection H as <- <-. split; [reflexivity|exact Hy].
  - destruct (find_index p l) as [[j z]|]; [|discriminate].
    injection H as <- <-. cbn. apply IH. reflexivity.
Qed.

(** An update that does not change the predicate does not move what
    [find] finds. *)
Lemma find_index_insert_false {A : Type} (p : A -> bool) (l : list A) (i : nat)
    (x x' : A) :
  l !! i = Some x -> p x = false -> p x' = false ->
  find_index p (<[i := x']> l) = find_index p l.
Proof.
  revert i. induction l as [|y l IH]; intros i Hi Hx Hx'; [reflexivity|].
  destruct i as [|i].
  - cbn in *. injection Hi as ->. rewrite Hx, Hx'. reflexivity.
  - change (<[S i := x']> (y :: l)) with (y :: <[i := x']> l).
    cbn [find_index]. rewrite (IH i Hi Hx Hx'). reflexivity.
Qed.

Lemma add_quantity_found (state : CapTableState.t) (i : nat) (h : SecurityHolding.t)
    (n : Z) :
  CapTableState.holdings state !! i = Some h ->
  add_quantity state i n
  = CapTableState.set_holdings state
      (<[i := SecurityHolding.set_quantity h (SecurityHolding.quantity h + n)]>
         (CapTableState.holdings state)).
Proof. intros H. unfold add_quantity. rewrite H. reflexivity. Qed.

(** What the handler does: it reads the first option holding of the
    employee, compares the result of the vesting calculator on that holding,
    as it stands, with the requested shares, and moves the requested shares
    to the employee's common holding, appended with a fresh identifier when
    there is none. *)
Lemma exercise_of_first_holding
    (state : CapTableState.t) (event : EventBase.t) (data : OptionExerciseEventData.t)
    (uuid : nat -> string) (n : nat)
    (optionClass commonClass : ShareClass.t) (i : nat) (optionHolding : SecurityHolding.t) :
  find (is_type OPTION) (CapTableState.shareClasses state) = Some optionClass ->
  find (is_type COMMON) (CapTableState.shareClasses state) = Some commonClass ->
  find_index (is_option_holding_of (OptionExerciseEventData.employeeId data)
                (ShareClass.id optionClass))
             (CapTableState.holdings state) = Some (i, optionHolding) ->
  let requested := OptionExerciseEventData.shares data in
  let vested := calculateVestedOptions optionHolding (EventBase.date event) state in
  let decremented :=
    <[i := SecurityHolding.set_quantity optionHolding
             (SecurityHolding.quantity optionHolding - requested)]>
      (CapTableState.holdings state) in
  (JsNum.lt vested (JsNum.Int requested) = true ->
   exists msg, applyOptionExercise state event data uuid n = Throw msg)
  /\ (JsNum.lt vested (JsNum.Int requested) = false ->
      applyOptionExercise state event data uuid n
      = match find_index (is_common_holding_of (OptionExerciseEventData.employeeId data)
                            (ShareClass.id commonClass))
                (CapTableState.holdings state) with
        | Some (j, common) =>
            Ok (CapTableState.set_holdings state
                  (<[j := SecurityHolding.set_quantity common
                            (SecurityHolding.quantity common + requested)]>
                     decremented),
                n)
        | None =>
            Ok (CapTableState.set_holdings state
                  (decremented ++
                   [plainHolding (uuid n) (OptionExerciseEventData.employeeId data)
                      (ShareClass.id commonClass) requested (EventBase.id event)
                      false None]),
                S n)
        end).
Proof.
  intros Hoc Hcc Hfind requested vested decremented.
  unfold applyOptionExercise. rewrite Hoc, Hcc, Hfind.
  fold requested. fold vested. split.
  - intros Hlt. rewrite Hlt. eexists. reflexivity.
  - intros Hlt. rewrite Hlt.
    destruct (find_index_Some _ _ _ _ Hfind) as [Hi Hp].
    rewrite (add_quantity_found state i optionHolding) by exact Hi.
    rewrite Z.add_opp_r. fold decremented.
    assert (Hopt : SecurityHolding.isOption optionHolding = true).
    { unfold is_option_holding_of in Hp. apply andb_true_iff in Hp as [_ Hp]. exact Hp. }
    cbn [CapTableState.holdings CapTableState.set_holdings].
    unfold decremented at 1.
    rewrite (find_index_insert_false _ _ i optionHolding).
    + destruct (find_index
                  (is_common_holding_of (OptionExerciseEventData.employeeId data)
                     (ShareClass.id commonClass))
                  (CapTableState.holdings state)) as [[j common]|] eqn:Hc.
      * destruct (find_index_Some _ _ _ _ Hc) as [Hj Hpc].
        assert (Hij : i <> j).
        { intros ->. rewrite Hi in Hj. injection Hj as Heq. subst common.
          unfold is_common_holding_of in Hpc. rewrite Hopt in Hpc.
          rewrite andb_false_r in Hpc. discriminate. }
        unfold ret. f_equal. f_equal.
        unfold add_quantity. cbn [CapTableState.holdings CapTableState.set_holdings].
        unfold decremented. rewrite list_lookup_insert_ne by exact Hij. rewrite Hj.
        reflexivity.
      * reflexivity.
    + exact Hi.
    + unfold is_common_holding_of. rewrite Hopt. apply andb_false_r.
    + unfold is_common_holding_of. cbn [SecurityHolding.isOption SecurityHolding.set_quantity].
      rewrite Hopt. apply andb_false_r.
Qed.

(** The exercise of 10,000 of the 24,000 options vested after two years,
    and an exercise beyond them. *)
Example exercise_within_vested :
  applyOptionExercise exercise_state exercise_event
    (OptionExerciseEventData.mk "employee-1" 10000) numbered_uuid 0%nat
  = Ok (CapTableState.set_holdings exercise_state
          [founder_holding 8000000;
           SecurityHolding.set_quantity grant_48000 38000;
           plainHolding "id-0" "employee-1" "common" 10000 "exercise-1" false None],
        1%nat).
Proof. vm_compute. reflexivity. Qed.

Example exercise_beyond_vested :
  applyOptionExercise exercise_state exercise_event
    (OptionExerciseEventData.mk "employee-1" 30000) numbered_uuid 0%nat
  = Throw "Insufficient vested options. Vested: 24000, Requested: 30000".
Proof. vm_compute. reflexivity. Qed.

(** [C8] An option exercise is not checked against the vested options of the
    grantee; it is checked against what the vesting calculator returns for
    the first option holding of the grantee, on the quantity that is left in
    that holding.
    - An employee with two grants, of 1,000 and of 100,000 options, both
      vested (101,000 vested options in the fully diluted cap table), is
      refused the exercise of 5,000 options.
    - An employee with a grant of 48,000 options of which 12,000 are vested
      (12-month cliff at 25%, 48 months) exercises 12,000 options 366 days
      after the grant and 9,000 more on the next day: 21,000 options are
      exercised where 12,000 are vested, the second exercise being checked
      against floor(36,000 x 25 / 100) = 9,000.
    - On a schedule whose cliff is the whole vesting period the calculator
      returns no number in the twelfth month, no number is less than the
      request, and the exercise of 100,000 options out of a grant of 48,000
      is applied: it leaves an option holding of -52,000. *)
Theorem option_exercise_reads_first_holding :
  (exists state,
     replayedState two_grants = Ok state
     /\ vestedOptionsOf state "employee-1" 400 = Some (JsNum.Int 101000)
     /\ replayedState (two_grants ++ [exercise_of "exercise-1" 400 5000])
        = Throw "Insufficient vested options. Vested: 1000, Requested: 5000")
  /\ (exists state,
       replayedState three_events = Ok state
       /\ vestedOptionsOf state "employee-1" (200 + 367 * msPerDay)
          = Some (JsNum.Int 12000)
       /\ exists state',
            replayedState
              (three_events ++
               [exercise_of "exercise-1" (200 + 366 * msPerDay) 12000;
                exercise_of "exercise-2" (200 + 367 * msPerDay) 9000])
            = Ok state'
            /\ map holdingLine (CapTableState.holdings state')
               = [("founder-1"%string, false, 6000000);
                  ("founder-2"%string, false, 4000000);
                  (ESOP_POOL_HOLDER_ID, true, 952000);
                  ("employee-1"%string, true, 27000);
                  ("employee-1"%string, false, 21000)])
  /\ (exists state,
       replayedState cliff_only_grant = Ok state
       /\ optionsHeldBy state "employee-1" = 48000
       /\ vestedOptionsOf state "employee-1" (200 + 366 * msPerDay) = Some JsNum.NaN
       /\ exists state',
            replayedState
              (cliff_only_grant ++ [exercise_of "exercise-1" (200 + 366 * msPerDay) 100000])
            = Ok state'
            /\ map holdingLine (CapTableState.holdings state')
               = [("founder-1"%string, false, 6000000);
                  ("founder-2"%string, false, 4000000);
                  (ESOP_POOL_HOLDER_ID, true, 952000);
                  ("employee-1"%string, true, -52000);
                  ("employee-1"%string, false, 100000)]).
Proof.
  split; [|split].
  - eexists. split; [vm_compute; reflexivity|]. split; vm_compute; reflexivity.
  - eexists. split; [vm_compute; reflexivity|]. split; [vm_compute; reflexivity|].
    eexists. split; vm_compute; reflexivity.
  - eexists. split; [vm_compute; reflexivity|]. split; [vm_compute; reflexivity|].
    split; [vm_compute; reflexivity|].
    eexists. split; vm_compute; reflexivity.
Qed.

End Exercise.

(** * Event replay *)

Section Events.
Local Open Scope Z_scope.

Lemma ddiv_never_throws (a b : Q) (msg : string) : ddiv a b <> Throw msg.
Proof. unfold ddiv. destruct (Decimal.isZero b); discriminate. Qed.

Lemma calculateESOPExtension_never_throws (fd pool p : Q) (msg : string) :
  calculateESOPExtension fd pool p <> Throw msg.
Proof.
  unfold calculateESOPExtension.
  destruct (ddiv _ _) as [q| |] eqn:E; cbn; try discriminate.
  exfalso. exact (ddiv_never_throws _ _ _ E).
Qed.

Lemma topUpPool_never_throws (state : CapTableState.t) (p : Q)
    (poolHolding : SecurityHolding.t -> bool) (msg : string) :
  topUpPool state p poolHolding <> Throw msg.
Proof.
  unfold topUpPool.
  destruct (calculateESOPExtension _ _ _) as [e| |] eqn:E; cbn; try discriminate.
  - destruct (0 <? e); [|discriminate].
    destruct (find_index _ _) as [[i h]|]; discriminate.
  - exfalso. exact (calculateESOPExtension_never_throws _ _ _ _ E).
Qed.

(** Scenario C: a pool of 10% of the fully diluted shares on 9,000,000
    existing shares. *)
Example pool_scenarioC :
  calculateESOPPoolFromPercent (9000000 # 1) (10 / 100) = Ok 1000000.
Proof. vm_compute. reflexivity. Qed.

(** [C7] A target percentage of 100% or more is refused by the pool sizing
    of a pool creation only.  A pool extension never throws, whatever its
    target; with a target of 150% it returns the state unchanged but for its
    stamps, and a priced round with a top-up target of 150% is applied too. *)
Theorem pool_extension_never_throws :
  (forall (state : CapTableState.t) (event : EventBase.t) (targetPercent : Q)
          (uuid : nat -> string) (n : nat) (msg : string),
     EventBase.data event = ESOP_POOL_EXTENSION targetPercent ->
     applyEvent state event uuid n <> Throw msg)
  /\ applyEvent pool_state extension_150 numbered_uuid 0%nat
     = Ok (CapTableState.set_asOf pool_state "extension-1" 100, 0%nat)
  /\ (exists state, applyEvent pool_state round_150 numbered_uuid 0%nat = Ok (state, 2%nat)
                    /\ getUnallocatedESOPPool state = 1000000)
  /\ applyEvent pool_state creation_150 numbered_uuid 0%nat
     = Throw "Target ESOP percentage must be less than 100%".
Proof.
  split; [|split; [|split]].
  - intros state event targetPercent uuid n msg Hdata.
    unfold applyEvent. rewrite Hdata. unfold applyESOPPoolExtension, lift.
    destruct (topUpPool _ _ _) as [s| |] eqn:E; cbn; try discriminate.
    exfalso. exact (topUpPool_never_throws _ _ _ _ E).
  - vm_compute. reflexivity.
  - eexists. split; vm_compute; reflexivity.
  - vm_compute. reflexivity.
Qed.

(** The first part of [pool_extension_never_throws] on the extension that
    targets 150%. *)
Lemma pool_extension_never_throws_witness :
  applyEvent pool_state extension_150 numbered_uuid 0%nat
  <> Throw "Target ESOP percentage must be less than 100%".
Proof.
  apply (proj1 pool_extension_never_throws pool_state extension_150 (150 # 1)).
  reflexivity.
Defined.

(** [C4] Two replays of the same list do not yield the same state: the
    identifiers of share classes and holdings are the results of [uuidv4()].
    After the incorporation of scenario A, the common class carries the
    first identifier drawn and the two holdings the next two, whatever the
    draws are; with two different supplies the final states differ. *)
Theorem replay_depends_on_generated_ids :
  (forall uuid : nat -> string,
     exists r, replayAllEvents "company-1" [incorporation_event] uuid 0%nat = Ok (r, 3%nat)
       /\ map ShareClass.id (CapTableState.shareClasses (Replay.finalState r))
          = [uuid 0%nat]
       /\ map SecurityHolding.id (CapTableState.holdings (Replay.finalState r))
          = [uuid 1%nat; uuid 2%nat]
       /\ map SecurityHolding.quantity (CapTableState.holdings (Replay.finalState r))
          = [6000000; 4000000])
  /\ (exists r1 r2,
        replayAllEvents "company-1" [incorporation_event] numbered_uuid 0%nat
        = Ok (r1, 3%nat)
        /\ replayAllEvents "company-1" [incorporation_event] lettered_uuid 0%nat
           = Ok (r2, 3%nat)
        /\ Replay.finalState r1 <> Replay.finalState r2).
Proof.
  split.
  - intros uuid. eexists. split; [vm_compute; reflexivity|].
    cbn. repeat split.
  - eexists _, _. split; [vm_compute; reflexivity|].
    split; [vm_compute; reflexivity|].
    cbn. intros H. discriminate H.
Qed.

End Events.

(** * Exit waterfall *)

Section Exit.
Import Decimal DecimalFacts.
Local Open Scope Q_scope.

(** ** Inversion of computations *)

Lemma bind_Ok {A B : Type} (c : M A) (k : A -> M B) (uuid : nat -> string) (n : nat)
    (r : B * nat) :
  bind c k uuid n = Ok r ->
  exists a n', c uuid n = Ok (a, n') /\ k a uuid n' = Ok r.
Proof.
  unfold bind. destruct (c uuid n) as [[a n']| |]; try discriminate.
  intros H. exists a, n'. split; [reflexivity|exact H].
Qed.

Lemma lift_Ok {A : Type} (o : outcome A) (uuid : nat -> string) (n : nat) (a : A)
    (n' : nat) :
  lift o uuid n = Ok (a, n') -> o = Ok a /\ n' = n.
Proof.
  unfold lift. destruct o; cbn; try discriminate.
  intros H. injection H as <- <-. split; reflexivity.
Qed.

Lemma ofoldl_total {A B : Type} (f : A -> B -> outcome A) (l : list B) (a : A) :
  (forall a b, In b l -> exists a', f a b = Ok a') ->
  exists a', ofoldl f a l = Ok a'.
Proof.
  revert a. induction l as [|b l IH]; intros a H; cbn.
  - eexists. reflexivity.
  - destruct (H a b (or_introl eq_refl)) as [a' ->]. cbn.
    apply IH. intros a0 b0 Hb0. apply H. right. exact Hb0.
Qed.

(** ** Amounts in cents *)

Lemma toFixed_cents (q : Q) : is_cents (toFixed 2 q).
Proof.
  unfold is_cents, toFixed, round_at. exists (round_half_up (q * ten ^ 2)).
  rewrite Qred_correct. change (ten ^ 2) with (100 # 1).
  generalize (inject_Z (round_half_up (q * (100 # 1)))). intros x. field.
Qed.

Lemma is_cents_plus (a b : Q) : is_cents a -> is_cents b -> is_cents (a + b).
Proof.
  intros [v Hv] [w Hw]. exists (v + w)%Z.
  rewrite inject_Z_plus, <- Hv, <- Hw. ring.
Qed.

Lemma is_cents_sum (l : list Q) : Forall is_cents l -> is_cents (sumQ l).
Proof.
  intros H. unfold sumQ.
  assert (H0 : is_cents 0) by (exists 0%Z; reflexivity).
  revert H0. generalize 0. induction H as [|x l Hx _ IH]; intros a Ha; cbn.
  - exact Ha.
  - apply IH. apply is_cents_plus; assumption.
Qed.

Lemma toFixed_of_cents (q : Q) : is_cents q -> toFixed 2 q == q.
Proof.
  intros [v Hv]. unfold toFixed. rewrite Qred_correct.
  apply (round_at_fix 2 q v). change (ten ^ 2) with (100 # 1). exact Hv.
Qed.

Lemma buildResults_cents (exitValue : Q) (holderInvestments : gmap string Q)
    (people : list Person.t) (distributions : list (string * Dist.t)) :
  Forall (fun d => is_cents (ExitDistribution.proceeds d))
    (buildResults exitValue holderInvestments people distributions).
Proof.
  apply Forall_forall. intros d Hd. unfold buildResults in Hd.
  apply list_elem_of_omap in Hd as (person & _ & Hrow).
  destruct (String.eqb _ _); [discriminate|].
  destruct (dist_get _ _) as [[i [k dist]]|]; [|discriminate].
  injection Hrow as <-. cbn. apply toFixed_cents.
Qed.

(** ** Running the waterfall *)

Lemma holderPayout_total (exitValue totalCommonEquivalent : Q)
    (prefClass : ShareClass.t) (holding : SecurityHolding.t) :
  ~ totalCommonEquivalent == 0 ->
  exists p, holderPayout exitValue totalCommonEquivalent prefClass holding = Ok p.
Proof.
  intros H. unfold holderPayout, holderConversion.
  destruct (bool_decide _); [eexists; reflexivity|].
  rewrite ddiv_ok by exact H. cbn.
  destruct (Decimal.gt _ _); eexists; reflexivity.
Qed.

Lemma payPreferences_total (exitValue totalCommonEquivalent : Q)
    (classTotals : gmap string Q) (holdings : list SecurityHolding.t)
    (preferredClasses : list ShareClass.t) :
  ~ totalCommonEquivalent == 0 ->
  exists distributions,
    payPreferences exitValue totalCommonEquivalent classTotals holdings
      preferredClasses = Ok distributions.
Proof.
  intros H. unfold payPreferences. apply ofoldl_total.
  intros distributions prefClass _. unfold payClass.
  destruct (isZero _); [eexists; reflexivity|].
  apply ofoldl_total. intros distributions' holding _. unfold creditPreference.
  destruct (holderPayout_total exitValue totalCommonEquivalent prefClass holding H)
    as [p ->].
  cbn. eexists. reflexivity.
Qed.

Lemma payCommon_total (exitValue : Q) (commonHoldings : list SecurityHolding.t)
    (distributions : list (string * Dist.t)) :
  exists distributions', payCommon exitValue commonHoldings distributions
                         = Ok distributions'.
Proof.
  unfold payCommon. apply ofoldl_total. intros distributions' holding _.
  unfold creditCommon.
  destruct (isZero _) eqn:E; cbn.
  - eexists. reflexivity.
  - unfold ddiv. rewrite E. cbn. eexists. reflexivity.
Qed.

(** The waterfall is computed as soon as no SAFE is outstanding and the
    common-equivalent share total is not zero. *)
Lemma waterfall_computed
    (state : CapTableState.t) (exitValuation : Q) (uuid : nat -> string) (n : nat) :
  List.filter unconverted (CapTableState.safes state) = [] ->
  ~ totalCommonEquivalentOf (CapTableState.shareClasses state)
      (classTotalsOf (CapTableState.holdings state)) == 0 ->
  exists w, calculateExitWaterfall state exitValuation uuid n = Ok (w, n).
Proof.
  intros Hsafes Hce. unfold calculateExitWaterfall.
  assert (Hconv : convertUnconvertedSAFEs exitValuation state uuid n = Ok (state, n)).
  { unfold convertUnconvertedSAFEs. rewrite Hsafes. reflexivity. }
  unfold bind at 1. rewrite Hconv.
  destruct (payPreferences_total exitValuation _
              (classTotalsOf (CapTableState.holdings state))
              (CapTableState.holdings state)
              (sort by_seniority
                 (List.filter (is_type PREFERRED) (CapTableState.shareClasses state)))
              Hce) as [d1 Hd1].
  unfold bind at 1. unfold lift at 1. rewrite Hd1. cbn [obind].
  destruct (payCommon_total exitValuation
              (List.filter (is_common_holding state) (CapTableState.holdings state))
              d1) as [d2 Hd2].
  unfold bind, lift. rewrite Hd2. cbn. eexists. reflexivity.
Qed.

(** [C3] The total distributed is not kept within the exit valuation: at an
    exit of $1,000,000 the preferred holder of scenario E is paid the whole
    preference of $2,000,000, which is the total distributed.  The total
    is the sum of the reported proceeds as the doubles give it: at an exit
    of $100,000,000,000,000 shared by three founders, each row reports
    33,333,333,333,333.33 and the total 99,999,999,999,999.98, a cent less
    than the rows add up to. *)
Theorem exit_total_exceeds_exit_valuation :
  (exists w,
     calculateExitWaterfall (exit_state non_participating None) (1000000 # 1)
       numbered_uuid 0%nat = Ok (w, 0%nat)
     /\ payouts w = [("investor-1"%string, 2000000 # 1, "preference"%string);
                     ("founder-1"%string, 0, "common"%string)]
     /\ ExitWaterfall.totalDistributed w = Extended.Finite (2000000 # 1)
     /\ ExitWaterfall.exitValuation w = 1000000 # 1
     /\ ~ 2000000 # 1 <= ExitWaterfall.exitValuation w)
  /\ (exists w,
        calculateExitWaterfall three_founders_state (100000000000000 # 1)
          numbered_uuid 0%nat = Ok (w, 0%nat)
        /\ map ExitDistribution.proceeds (ExitWaterfall.distributions w)
           = [3333333333333333 # 100; 3333333333333333 # 100; 3333333333333333 # 100]
        /\ ExitWaterfall.totalDistributed w
           = Extended.Finite (4999999999999999 # 50)
        /\ sumQ (map ExitDistribution.proceeds (ExitWaterfall.distributions w))
           == 9999999999999999 # 100).
Proof.
  split.
  - eexists. split; [vm_compute; reflexivity|].
    split; [reflexivity|]. split; [reflexivity|]. split; [reflexivity|].
    vm_compute. intros H. apply H. reflexivity.
  - eexists. split; [vm_compute; reflexivity|].
    split; [reflexivity|]. split; reflexivity.
Qed.

(** [C2] A holder of a participating preferred class is credited the
    liquidation preference and nothing else, and a participation cap is
    never read: with scenario E made participating, at an exit of
    $20,000,000 the investor receives $2,000,000 and the founder the other
    $18,000,000. *)
Theorem participating_receives_preference_only :
  (forall (exitValue totalCommonEquivalent : Q) (prefClass : ShareClass.t)
          (holding : SecurityHolding.t),
     ShareClass.participation prefClass = participating ->
     holderPayout exitValue totalCommonEquivalent prefClass holding
     = Ok (holderPreference prefClass holding, "participating"%string))
  /\ (exists w,
        calculateExitWaterfall (exit_state participating None) (20000000 # 1)
          numbered_uuid 0%nat = Ok (w, 0%nat)
        /\ payouts w = [("founder-1"%string, 18000000 # 1, "common"%string);
                        ("investor-1"%string, 2000000 # 1, "participating"%string)])
  /\ (exists w,
        calculateExitWaterfall (exit_state participating (Some (3 # 1)))
          (20000000 # 1) numbered_uuid 0%nat = Ok (w, 0%nat)
        /\ payouts w = [("founder-1"%string, 18000000 # 1, "common"%string);
                        ("investor-1"%string, 2000000 # 1, "participating"%string)]).
Proof.
  split; [|split].
  - intros exitValue totalCommonEquivalent prefClass holding Hp.
    unfold holderPayout. rewrite Hp. reflexivity.
  - eexists. split; [vm_compute; reflexivity|reflexivity].
  - eexists. split; [vm_compute; reflexivity|reflexivity].
Qed.

(** The first part of [participating_receives_preference_only] on the
    investor of scenario E. *)
Lemma participating_receives_preference_only_witness :
  holderPayout (20000000 # 1) (10000000 # 1) (seriesA participating None)
    investor_holding
  = Ok (holderPreference (seriesA participating None) investor_holding,
        "participating"%string).
Proof.
  apply (proj1 participating_receives_preference_only). reflexivity.
Defined.

End Exit.

(** * The waterfall for one holder *)

Section Distributions.
Import Decimal DecimalFacts.
Local Open Scope Q_scope.


Lemma find_index_app_new {A : Type} (p : A -> bool) (l : list A) (x : A) :
  find_index p l = None -> p x = true ->
  find_index p (l ++ [x]) = Some (length l, x).
Proof.
  intros Hl Hx. induction l as [|y l IH]; cbn in *.
  - rewrite Hx. reflexivity.
  - destruct (p y); [discriminate|].
    destruct (find_index p l) as [[i z]|]; [discriminate|].
    rewrite IH by reflexivity. reflexivity.
Qed.





Variables (exitValue totalCommonEquivalent : Q) (pid : string).






(** ** A holder with a single holding, of a preferred class *)

Variables (holdings l1 l2 : list SecurityHolding.t) (holding : SecurityHolding.t).
Variable prefClass : ShareClass.t.
Variable classTotals : gmap string Q.

Hypothesis holdings_split : holdings = l1 ++ holding :: l2.
Hypothesis single_holding :
  forall h, In h (l1 ++ l2) -> SecurityHolding.holderId h <> pid.
Hypothesis holding_holder : SecurityHolding.holderId holding = pid.
Hypothesis holding_class :
  SecurityHolding.shareClassId holding = ShareClass.id prefClass.
Hypothesis class_has_shares :
  ~ default 0 (classTotals !! ShareClass.id prefClass) == 0.




End Distributions.

Section SingleHolder.
Import Decimal DecimalFacts.
Local Open Scope Q_scope.





Variables (state : CapTableState.t) (exitValuation : Q).
Variables (uuid : nat -> string) (n : nat).
Variables (person : Person.t) (prefClass : ShareClass.t).
Variables (l1 l2 : list SecurityHolding.t) (holding : SecurityHolding.t).

Hypothesis no_outstanding_safe :
  List.filter unconverted (CapTableState.safes state) = [].
Hypothesis class_ids_distinct :
  List.NoDup (map ShareClass.id (CapTableState.shareClasses state)).
Hypothesis class_listed : In prefClass (CapTableState.shareClasses state).
Hypothesis class_preferred : ShareClass.type prefClass = PREFERRED.
Hypothesis class_non_participating :
  ShareClass.participation prefClass = non_participating.
Hypothesis multiple_not_zero :
  ~ ShareClass.liquidationPreferenceMultiple prefClass == 0.
Hypothesis holdings_split : CapTableState.holdings state = l1 ++ holding :: l2.
Hypothesis single_holding :
  forall h, In h (l1 ++ l2) -> SecurityHolding.holderId h <> Person.id person.
Hypothesis holding_holder : SecurityHolding.holderId holding = Person.id person.
Hypothesis holding_class :
  SecurityHolding.shareClassId holding = ShareClass.id prefClass.
Hypothesis class_has_shares :
  ~ default 0 (classTotalsOf (CapTableState.holdings state)
               !! ShareClass.id prefClass) == 0.
Hypothesis common_equivalent_not_zero :
  ~ totalCommonEquivalentOf (CapTableState.shareClasses state)
      (classTotalsOf (CapTableState.holdings state)) == 0.
Hypothesis person_listed : In person (CapTableState.people state).
Hypothesis person_not_pool : Person.id person <> ESOP_POOL_HOLDER_ID.

Let totalCommonEquivalent : Q :=
  totalCommonEquivalentOf (CapTableState.shareClasses state)
    (classTotalsOf (CapTableState.holdings state)).
Let shares : Q := inject_Z (SecurityHolding.quantity holding).




End SingleHolder.

Section NonParticipating.
Import Decimal DecimalFacts.
Local Open Scope Q_scope.



End NonParticipating.

(** * Sorting and replay *)

Section Sorting.

Context {A : Type} (gt : A -> A -> bool).

Hypothesis gt_asym : forall a b, gt a b = true -> gt b a = false.
Hypothesis ngt_trans : forall a b c, gt a b = false -> gt b c = false -> gt a c = false.

Let placed (a b : A) : Prop := gt a b = false.

Lemma sort_insert_sorted (x : A) (l : list A) :
  StronglySorted placed l -> StronglySorted placed (sort_insert gt x l).
Proof.
  induction 1 as [|y l Hl IH Hy]; cbn.
  - repeat constructor.
  - destruct (gt x y) eqn:E.
    + constructor; [exact IH|].
      apply List.Forall_forall. intros z Hz.
      apply (Permutation_in _ (sort_insert_perm gt x l)) in Hz.
      destruct Hz as [<-|Hz].
      * apply gt_asym. exact E.
      * rewrite List.Forall_forall in Hy. apply Hy. exact Hz.
    + constructor; [constructor; assumption|].
      constructor; [exact E|].
      apply List.Forall_forall. intros z Hz.
      rewrite List.Forall_forall in Hy. apply (ngt_trans x y z E). apply Hy. exact Hz.
Qed.

Lemma sort_sorted (l : list A) : StronglySorted placed (sort gt l).
Proof.
  unfold sort. induction l as [|x l IH]; cbn.
  - constructor.
  - apply sort_insert_sorted. exact IH.
Qed.

Lemma sort_of_sorted (l : list A) : StronglySorted placed l -> sort gt l = l.
Proof.
  unfold sort. induction 1 as [|x l Hl IH Hx]; cbn; [reflexivity|].
  rewrite IH. destruct l as [|y l]; [reflexivity|]. cbn.
  inversion Hx as [|? ? Hxy _]; subst. unfold placed in Hxy. rewrite Hxy. reflexivity.
Qed.

Lemma sort_idempotent (l : list A) : sort gt (sort gt l) = sort gt l.
Proof. apply sort_of_sorted, sort_sorted. Qed.

Lemma sort_snoc (l : list A) (x : A) :
  Forall (fun y => gt y x = false) l -> sort gt (l ++ [x]) = sort gt l ++ [x].
Proof.
  unfold sort. induction 1 as [|y l Hy Hl IH]; cbn; [reflexivity|].
  rewrite IH. clear IH.
  assert (Hs : Forall (fun z => gt z x = false) (foldr (sort_insert gt) [] l)).
  { eapply Permutation_Forall; [symmetry; apply (sort_perm gt)|]. exact Hl. }
  clear Hl. induction (foldr (sort_insert gt) [] l) as [|z s IHs]; cbn.
  - rewrite Hy. reflexivity.
  - inversion Hs; subst. destruct (gt y z); [|reflexivity].
    cbn [app]. f_equal. apply IHs. assumption.
Qed.

End Sorting.

Section SortingByKey.

Context {A : Type} (key : A -> Z).

Let ascending (a b : A) : bool := key b <? key a.

Lemma StronglySorted_weaken (R R' : A -> A -> Prop) (l : list A) :
  (forall a b, R a b -> R' a b) -> StronglySorted R l -> StronglySorted R' l.
Proof.
  intros HR. induction 1 as [|x l Hl IH Hx]; constructor; [exact IH|].
  eapply Forall_impl; [exact Hx|]. intros y Hy. cbn. apply HR. exact Hy.
Qed.

Lemma ascending_sorted (l : list A) :
  StronglySorted (fun a b => key a <= key b) (sort ascending l).
Proof.
  apply (StronglySorted_weaken (fun a b => ascending a b = false)).
  - intros a b H. unfold ascending in H. apply Z.ltb_ge in H. exact H.
  - apply sort_sorted.
    + intros a b H. unfold ascending in *. apply Z.ltb_lt in H. apply Z.ltb_ge. lia.
    + intros a b c H1 H2. unfold ascending in *.
      apply Z.ltb_ge in H1, H2. apply Z.ltb_ge. lia.
Qed.

(** Two lists in strictly ascending order with the same elements are equal. *)
Lemma strictly_sorted_unique (l1 l2 : list A) :
  StronglySorted (fun a b => key a < key b) l1 ->
  StronglySorted (fun a b => key a < key b) l2 ->
  Permutation l1 l2 -> l1 = l2.
Proof.
  intros H1. revert l2. induction H1 as [|x l1 Hl1 IH Hx]; intros l2 H2 Hp.
  - apply Permutation_nil in Hp. subst. reflexivity.
  - destruct H2 as [|y l2 Hl2 Hy].
    + symmetry in Hp. apply Permutation_nil in Hp. discriminate.
    + assert (x = y) as <-.
      { assert (Hx2 : In x (y :: l2)) by (apply (Permutation_in _ Hp); left; reflexivity).
        assert (Hy1 : In y (x :: l1))
          by (apply (Permutation_in _ (Permutation_sym Hp)); left; reflexivity).
        destruct Hx2 as [E|Hx2]; [symmetry; exact E|].
        destruct Hy1 as [E|Hy1]; [exact E|].
        rewrite List.Forall_forall in Hx, Hy.
        specialize (Hx _ Hy1). specialize (Hy _ Hx2). lia. }
      f_equal. apply IH; [assumption|]. apply Permutation_cons_inv in Hp. exact Hp.
Qed.

Lemma sorted_strictly (l : list A) :
  List.NoDup (map key l) -> StronglySorted (fun a b => key a <= key b) l ->
  StronglySorted (fun a b => key a < key b) l.
Proof.
  intros Hnd Hs. induction Hs as [|x l Hl IH Hx]; [constructor|].
  cbn in Hnd. apply NoDup_cons_iff in Hnd as [Hx' Hnd].
  constructor; [apply IH; exact Hnd|].
  rewrite List.Forall_forall in *. intros y Hy. specialize (Hx y Hy).
  assert (key x <> key y) by (intros E; apply Hx'; rewrite E; apply in_map; exact Hy).
  lia.
Qed.

Lemma sort_distinct_keys (l1 l2 : list A) :
  List.NoDup (map key l1) -> Permutation l1 l2 ->
  sort ascending l1 = sort ascending l2.
Proof.
  intros Hnd Hp.
  assert (Hp1 : Permutation (sort ascending l1) l1) by apply sort_perm.
  assert (Hp2 : Permutation (sort ascending l2) l2) by apply sort_perm.
  apply strictly_sorted_unique.
  - apply sorted_strictly; [|apply ascending_sorted].
    apply (Permutation_NoDup (l := map key l1)); [|exact Hnd].
    apply Permutation_map. symmetry. exact Hp1.
  - apply sorted_strictly; [|apply ascending_sorted].
    apply (Permutation_NoDup (l := map key l1)); [|exact Hnd].
    apply Permutation_map. rewrite Hp2. exact Hp.
  - rewrite Hp1, Hp2. exact Hp.
Qed.

End SortingByKey.

Section Replay.
Local Open Scope Z_scope.

Lemma foldM_app {A B : Type} (f : A -> B -> M A) (l1 l2 : list B) :
  forall (a : A) (uuid : nat -> string) (n : nat),
    foldM f a (l1 ++ l2) uuid n
    = bind (foldM f a l1) (fun a' => foldM f a' l2) uuid n.
Proof.
  induction l1 as [|b l1 IH]; intros a uuid n; cbn.
  - reflexivity.
  - unfold bind. destruct (f a b uuid n) as [[a1 n1]| |]; [|reflexivity..].
    rewrite IH. reflexivity.
Qed.

Lemma bind_ret {A : Type} (c : M A) (uuid : nat -> string) (n : nat) :
  bind c ret uuid n = c uuid n.
Proof. unfold bind, ret. destruct (c uuid n) as [[a n']| |]; reflexivity. Qed.

Lemma bind_ext {A B : Type} (c : M A) (k1 k2 : A -> M B) (uuid : nat -> string)
    (n : nat) :
  (forall a n', k1 a uuid n' = k2 a uuid n') -> bind c k1 uuid n = bind c k2 uuid n.
Proof.
  intros H. unfold bind. destruct (c uuid n) as [[a n']| |]; [apply H|reflexivity..].
Qed.

(** One pass of the loop of [replayAllEvents]. *)
Let replayStep (r : Replay.t) (event : EventBase.t) : M Replay.t :=
  state <- applyEvent (Replay.finalState r) event ;;
  ret (Replay.mk state
         (Replay.snapshots r ++
          [Snapshot.mk (EventBase.id event) (EventBase.date event)
             (EventBase.label event) (cloneState state)])).

Lemma last_cons_default {A : Type} (l : list A) (x d d' : A) :
  List.last (x :: l) d = List.last (x :: l) d'.
Proof.
  revert x. induction l as [|y l IH]; intros x; [reflexivity|].
  change (List.last (y :: l) d = List.last (y :: l) d'). apply IH.
Qed.

Lemma replay_fold (l : list EventBase.t) :
  forall (r0 r : Replay.t) (uuid : nat -> string) (n n' : nat),
    foldM replayStep r0 l uuid n = Ok (r, n') ->
    exists states,
      length states = length l
      /\ Replay.snapshots r = Replay.snapshots r0 ++ zip_with snapshotOf l states
      /\ Replay.finalState r = List.last states (Replay.finalState r0).
Proof.
  induction l as [|e l IH]; intros r0 r uuid n n' H; cbn in H.
  - injection H as <- <-. exists []. cbn. rewrite app_nil_r. repeat split.
  - apply bind_Ok in H as (r1 & n1 & H1 & H).
    unfold replayStep in H1. apply bind_Ok in H1 as (s1 & n2 & H1 & Hr1).
    injection Hr1 as <- <-.
    destruct (IH _ _ _ _ _ H) as (states & Hlen & Hsnaps & Hfinal). cbn in *.
    exists (s1 :: states). cbn. split; [lia|]. split.
    + rewrite Hsnaps, <- app_assoc. reflexivity.
    + rewrite Hfinal. destruct states as [|t states]; [reflexivity|].
      change (List.last (t :: states) s1 = List.last (t :: states) (Replay.finalState r0)).
      apply last_cons_default.
Qed.

Lemma zip_with_snapshots (l : list EventBase.t) (states : list CapTableState.t) :
  length states = length l ->
  map Snapshot.eventId (zip_with snapshotOf l states) = map EventBase.id l
  /\ map Snapshot.date (zip_with snapshotOf l states) = map EventBase.date l
  /\ map Snapshot.label (zip_with snapshotOf l states) = map EventBase.label l
  /\ map Snapshot.state (zip_with snapshotOf l states) = states.
Proof.
  revert states. induction l as [|e l IH]; intros [|s states] Hlen; try discriminate.
  - repeat split.
  - cbn in Hlen. injection Hlen as Hlen.
    destruct (IH states Hlen) as (H1 & H2 & H3 & H4). cbn.
    rewrite H1, H2, H3, H4. repeat split.
Qed.

(** [X7] A replay that succeeds records one snapshot per event, in ascending
    order of the event dates whatever the order of the list given; the state of
    the last snapshot is the final state, which is the initial state of the
    company when there is no event. *)
Theorem replay_snapshots_in_date_order
    (companyId : string) (events : list EventBase.t) (uuid : nat -> string) (n n' : nat)
    (r : Replay.t) :
  replayAllEvents companyId events uuid n = Ok (r, n') ->
  let sorted := sort by_date events in
  Permutation sorted events
  /\ StronglySorted (fun a b => EventBase.date a <= EventBase.date b) sorted
  /\ map Snapshot.eventId (Replay.snapshots r) = map EventBase.id sorted
  /\ map Snapshot.date (Replay.snapshots r) = map EventBase.date sorted
  /\ map Snapshot.label (Replay.snapshots r) = map EventBase.label sorted
  /\ Replay.finalState r
     = List.last (map Snapshot.state (Replay.snapshots r)) (createInitialState companyId).
Proof.
  intros H sorted. split; [apply sort_perm|]. split; [apply ascending_sorted|].
  unfold replayAllEvents in H.
  destruct (replay_fold _ _ _ _ _ _ H) as (states & Hlen & Hsnaps & Hfinal).
  cbn [Replay.snapshots Replay.finalState app] in Hsnaps, Hfinal.
  change (sort (fun a b => EventBase.date b <? EventBase.date a) events)
    with sorted in Hlen, Hsnaps.
  destruct (zip_with_snapshots sorted states Hlen) as (H1 & H2 & H3 & H4).
  rewrite Hsnaps, H1, H2, H3, H4, Hfinal. repeat split.
Qed.

(** On a grant, an incorporation and a pool creation given out of order. *)
Lemma replay_snapshots_in_date_order_witness :
  exists r,
    replayAllEvents "company-1" [grant_event; incorporation_event; pool_event]
      numbered_uuid 0%nat = Ok (r, 7%nat)
    /\ map Snapshot.eventId (Replay.snapshots r)
       = ["incorporation"; "pool"; "grant"]%string.
Proof.
  destruct (replayAllEvents "company-1" [grant_event; incorporation_event; pool_event]
              numbered_uuid 0%nat) as [[r k]| |] eqn:E;
    [|vm_compute in E; discriminate..].
  exists r. split.
  - vm_compute in E. injection E as <- <-. reflexivity.
  - destruct (replay_snapshots_in_date_order _ _ _ _ _ _ E) as (_ & _ & H & _).
    rewrite H. reflexivity.
Defined.

(** [X8] The replay reads its events in the order of their dates only: two lists
    with the same events, whose dates are pairwise distinct, replay alike. *)
Theorem replay_ignores_input_order
    (companyId : string) (events events' : list EventBase.t) :
  List.NoDup (map EventBase.date events) -> Permutation events events' ->
  replayAllEvents companyId events = replayAllEvents companyId events'.
Proof.
  intros Hnd Hp. unfold replayAllEvents.
  rewrite (sort_distinct_keys EventBase.date events events' Hnd Hp). reflexivity.
Qed.

(** The three events in two orders. *)
Lemma replay_ignores_input_order_witness :
  replayAllEvents "company-1" three_events
  = replayAllEvents "company-1" [grant_event; incorporation_event; pool_event].
Proof.
  apply replay_ignores_input_order.
  - repeat constructor; cbn; intuition discriminate.
  - unfold three_events.
    apply Permutation_sym, (Permutation_cons_app [incorporation_event; pool_event] []).
    reflexivity.
Defined.

(** [X9] Replay is incremental: replaying a list to which an event not earlier
    than the others is appended comes to replaying the list, applying the event
    to the final state and recording its snapshot; an error of either step is
    the error of the whole. *)
Theorem replay_of_appended_event
    (companyId : string) (events : list EventBase.t) (event : EventBase.t)
    (uuid : nat -> string) (n : nat) :
  Forall (fun e => EventBase.date e <= EventBase.date event) events ->
  replayAllEvents companyId (events ++ [event]) uuid n
  = (r <- replayAllEvents companyId events ;;
     state <- applyEvent (Replay.finalState r) event ;;
     ret (Replay.mk state (Replay.snapshots r ++ [snapshotOf event state]))) uuid n.
Proof.
  intros Hdates. unfold replayAllEvents.
  rewrite (sort_snoc (fun a b => EventBase.date b <? EventBase.date a)).
  - rewrite foldM_app. apply bind_ext. intros r k. cbn [foldM].
    rewrite bind_ret. reflexivity.
  - eapply Forall_impl; [exact Hdates|]. intros e He. cbn in *.
    apply Z.ltb_ge. exact He.
Qed.

(** The grant appended to the incorporation and the pool creation. *)
Lemma replay_of_appended_event_witness :
  replayAllEvents "company-1" ([incorporation_event; pool_event] ++ [grant_event])
    numbered_uuid 0%nat
  = (r <- replayAllEvents "company-1" [incorporation_event; pool_event] ;;
     state <- applyEvent (Replay.finalState r) grant_event ;;
     ret (Replay.mk state (Replay.snapshots r ++ [snapshotOf grant_event state])))
      numbered_uuid 0%nat.
Proof.
  apply replay_of_appended_event.
  repeat constructor; cbn; lia.
Defined.

End Replay.

(** * What every event handler keeps *)

Section Ensures.

Lemma ensures_ret {A : Type} (a : A) (P : A -> Prop) : P a -> ensures (ret a) P.
Proof. intros H uuid n a' n' E. injection E as <- <-. exact H. Qed.

Lemma ensures_bind {A B : Type} (c : M A) (k : A -> M B) (Q : A -> Prop)
    (P : B -> Prop) :
  ensures c Q -> (forall a, Q a -> ensures (k a) P) -> ensures (bind c k) P.
Proof.
  intros Hc Hk uuid n b n' E. apply bind_Ok in E as (a & n1 & E1 & E2).
  exact (Hk a (Hc _ _ _ _ E1) _ _ _ _ E2).
Qed.

Lemma ensures_bind_any {A B : Type} (c : M A) (k : A -> M B) (P : B -> Prop) :
  (forall a, ensures (k a) P) -> ensures (bind c k) P.
Proof.
  intros Hk. apply (ensures_bind c k (fun _ => True)).
  - intros uuid n a n' _. exact I.
  - intros a _. apply Hk.
Qed.

Lemma ensures_lift {A : Type} (o : outcome A) (P : A -> Prop) :
  (forall a, o = Ok a -> P a) -> ensures (lift o) P.
Proof.
  intros H uuid n a n' E. apply lift_Ok in E as [E _]. apply H. exact E.
Qed.

Lemma ensures_throw {A : Type} (msg : string) (P : A -> Prop) : ensures (throw msg) P.
Proof. intros uuid n a n' E. discriminate E. Qed.

Lemma ensures_foldM {A B : Type} (f : A -> B -> M A) (I : A -> Prop) (l : list B) :
  (forall a b, In b l -> I a -> ensures (f a b) I) ->
  forall a, I a -> ensures (foldM f a l) I.
Proof.
  induction l as [|b l IH]; intros Hstep a Ha; cbn.
  - apply ensures_ret. exact Ha.
  - apply (ensures_bind _ _ I).
    + apply Hstep; [left; reflexivity|exact Ha].
    + intros a' Ha'. apply IH; [|exact Ha'].
      intros a0 b0 Hb0. apply Hstep. right. exact Hb0.
Qed.

End Ensures.

Section Kept.

Context {A : Type} (same : A -> A -> Prop).

Hypothesis same_refl : forall a, same a a.
Hypothesis same_trans : forall a b c, same a b -> same b c -> same a c.

Lemma Forall2_same_refl (l : list A) : Forall2 same l l.
Proof. induction l; constructor; auto. Qed.

Lemma kept_refl (l : list A) : kept same l l.
Proof. exists l, []. rewrite app_nil_r. split; [reflexivity|apply Forall2_same_refl]. Qed.

Lemma kept_trans (l l' l'' : list A) : kept same l l' -> kept same l' l'' -> kept same l l''.
Proof.
  intros (l1 & l2 & -> & H1) (m1 & m2 & -> & H2).
  apply Forall2_app_inv_l in H2 as (m1a & m1b & Ha & Hb & ->).
  exists m1a, (m1b ++ m2). split; [rewrite app_assoc; reflexivity|].
  clear Hb. revert m1a Ha. induction H1 as [|x y l l1 Hxy H1 IH]; intros m1a Ha.
  - inversion Ha. constructor.
  - inversion Ha as [|? z ? m Hyz Ha']; subst. constructor; [|apply IH; exact Ha'].
    exact (same_trans _ _ _ Hxy Hyz).
Qed.

Lemma kept_snoc (l : list A) (x : A) : kept same l (l ++ [x]).
Proof. exists l, [x]. split; [reflexivity|apply Forall2_same_refl]. Qed.

Lemma kept_insert (l : list A) (i : nat) (x y : A) :
  l !! i = Some x -> same x y -> kept same l (<[i := y]> l).
Proof.
  intros Hx Hxy. exists (<[i := y]> l), []. rewrite app_nil_r. split; [reflexivity|].
  revert i Hx. induction l as [|a l IH]; intros [|i] Hx; try discriminate; cbn.
  - injection Hx as ->. constructor; [exact Hxy|apply Forall2_same_refl].
  - constructor; [apply same_refl|]. apply IH. exact Hx.
Qed.

End Kept.

Section Grows.
Local Open Scope Z_scope.

Lemma same_holding_refl (h : SecurityHolding.t) : same_holding h h.
Proof. destruct h. reflexivity. Qed.

Lemma same_holding_trans (a b c : SecurityHolding.t) :
  same_holding a b -> same_holding b c -> same_holding a c.
Proof. unfold same_holding. intros <- <-. destruct a. reflexivity. Qed.

Lemma same_safe_refl (s : SAFE.t) : same_safe s s.
Proof. left. reflexivity. Qed.

Lemma same_safe_trans (a b c : SAFE.t) : same_safe a b -> same_safe b c -> same_safe a c.
Proof.
  intros [->|[e ->]] [->|[e' ->]].
  - left. reflexivity.
  - right. exists e'. reflexivity.
  - right. exists e. reflexivity.
  - right. exists e'. destruct a. reflexivity.
Qed.

Hint Resolve same_holding_refl same_safe_refl : core.

Ltac keep :=
  first [ apply kept_refl; solve [auto]
        | apply kept_snoc; solve [auto] ].

Lemma grows_refl (s : CapTableState.t) : grows s s.
Proof. unfold grows. repeat split; keep. Qed.

Lemma grows_trans (s1 s2 s3 : CapTableState.t) :
  grows s1 s2 -> grows s2 s3 -> grows s1 s3.
Proof.
  intros (A1 & A2 & A3 & A4 & A5 & A6 & A7 & A8) (B1 & B2 & B3 & B4 & B5 & B6 & B7 & B8).
  unfold grows. repeat split; try congruence.
  - eapply kept_trans; [|exact A4|exact B4]. intros; congruence.
  - eapply kept_trans; [|exact A5|exact B5]. apply same_holding_trans.
  - eapply kept_trans; [|exact A6|exact B6]. apply same_safe_trans.
  - eapply kept_trans; [|exact A7|exact B7]. intros; congruence.
  - eapply kept_trans; [|exact A8|exact B8]. intros; congruence.
Qed.

Lemma grows_push_person (s s' : CapTableState.t) (p : Person.t) :
  grows s s' -> grows s (push_person s' p).
Proof.
  intros H. apply (grows_trans _ _ _ H). unfold grows. cbn. repeat split; keep.
Qed.

Lemma grows_add_person (s s' : CapTableState.t) (p : Person.t) :
  grows s s' -> grows s (add_person s' p).
Proof.
  intros H. unfold add_person. destruct (has_person s' (Person.id p)); [exact H|].
  apply grows_push_person. exact H.
Qed.

Lemma grows_push_shareClass (s s' : CapTableState.t) (sc : ShareClass.t) :
  grows s s' -> grows s (push_shareClass s' sc).
Proof.
  intros H. apply (grows_trans _ _ _ H). unfold grows. cbn. repeat split; keep.
Qed.

Lemma grows_push_holding (s s' : CapTableState.t) (h : SecurityHolding.t) :
  grows s s' -> grows s (push_holding s' h).
Proof.
  intros H. apply (grows_trans _ _ _ H). unfold grows. cbn. repeat split; keep.
Qed.

Lemma grows_add_quantity (s s' : CapTableState.t) (i : nat) (q : Z) :
  grows s s' -> grows s (add_quantity s' i q).
Proof.
  intros H. unfold add_quantity.
  destruct (CapTableState.holdings s' !! i) as [h|] eqn:E; [|exact H].
  apply (grows_trans _ _ _ H). unfold grows. cbn. repeat split; try keep.
  apply (kept_insert _ same_holding_refl _ _ h); [exact E|].
  destruct h. reflexivity.
Qed.

Lemma grows_push_safe (s s' : CapTableState.t) (x : SAFE.t) :
  grows s s' ->
  grows s (CapTableState.set_safes s' (CapTableState.safes s' ++ [x])).
Proof.
  intros H. apply (grows_trans _ _ _ H). unfold grows. cbn. repeat split; keep.
Qed.

Lemma grows_convert_safe (s s' : CapTableState.t) (i : nat) (x : SAFE.t) (e : string) :
  grows s s' -> CapTableState.safes s' !! i = Some x ->
  grows s (CapTableState.set_safes s'
             (<[i := SAFE.set_convertedInEventId x e]> (CapTableState.safes s'))).
Proof.
  intros H Hx. apply (grows_trans _ _ _ H). unfold grows. cbn. repeat split; try keep.
  apply (kept_insert _ same_safe_refl _ _ x); [exact Hx|].
  right. exists e. reflexivity.
Qed.

Lemma grows_push_schedule (s s' : CapTableState.t) (v : VestingSchedule.t) :
  grows s s' ->
  grows s (CapTableState.set_vestingSchedules s'
             (CapTableState.vestingSchedules s' ++ [v])).
Proof.
  intros H. apply (grows_trans _ _ _ H). unfold grows. cbn. repeat split; keep.
Qed.

Create HintDb grows.

Hint Resolve grows_refl grows_push_person grows_add_person grows_push_shareClass
  grows_push_holding grows_add_quantity grows_push_safe grows_push_schedule : grows.

Lemma applyIncorporation_grows (state : CapTableState.t) (event : EventBase.t)
    (data : IncorporationEventData.t) :
  ensures (applyIncorporation state event data) (grows state).
Proof.
  unfold applyIncorporation. apply ensures_bind_any. intros commonClassId.
  eapply ensures_bind.
  - apply (ensures_foldM _ (grows state)).
    + intros s founder _ Hs. apply ensures_bind_any. intros id.
      apply ensures_ret. auto with grows.
    + destruct (IncorporationEventData.esopPool data); auto with grows.
  - intros s Hs. cbn beta. destruct (IncorporationEventData.esopPool data) as [pool|].
    + apply ensures_bind_any. intros optionClassId.
      apply ensures_bind_any. intros esopShares.
      apply ensures_bind_any. intros id. apply ensures_ret. auto with grows.
    + apply ensures_ret. exact Hs.
Qed.

Lemma find_index_lookup {A : Type} (p : A -> bool) (l : list A) (i : nat) (x : A) :
  find_index p l = Some (i, x) -> l !! i = Some x.
Proof.
  revert i. induction l as [|y l IH]; intros i H; cbn in H; [discriminate|].
  destruct (p y).
  - injection H as <- <-. reflexivity.
  - destruct (find_index p l) as [[j z]|]; [|discriminate].
    injection H as <- <-. cbn. apply IH. reflexivity.
Qed.

Lemma convertSAFE_grows (event : EventBase.t) (pricePerShare preRoundFD : Q)
    (preferredClassId : string) (s0 s : CapTableState.t) (safeId : string) :
  grows s0 s ->
  ensures (convertSAFE event pricePerShare preRoundFD preferredClassId s safeId)
    (grows s0).
Proof.
  intros Hs. unfold convertSAFE.
  destruct (find_safe s safeId) as [[i safe]|] eqn:E; [|apply ensures_ret; exact Hs].
  destruct (negb (unconverted safe)); [apply ensures_ret; exact Hs|].
  apply ensures_bind_any. intros conversionResult.
  apply ensures_bind_any. intros id. apply ensures_ret.
  apply grows_convert_safe; [auto with grows|].
  apply find_index_lookup in E. unfold add_person.
  destruct (has_person s _); exact E.
Qed.

Lemma topUpPool_grows (s0 s : CapTableState.t) (targetPercent : Q)
    (poolHolding : SecurityHolding.t -> bool) (s' : CapTableState.t) :
  grows s0 s -> topUpPool s targetPercent poolHolding = Ok s' -> grows s0 s'.
Proof.
  intros Hs H. unfold topUpPool in H.
  destruct (calculateESOPExtension _ _ _) as [extension| |]; cbn in H; try discriminate.
  destruct (0 <? extension).
  - destruct (find_index _ _) as [[i h]|]; injection H as <-; auto with grows.
  - injection H as <-. exact Hs.
Qed.

Lemma applyPricedRound_grows (state : CapTableState.t) (event : EventBase.t)
    (data : PricedRoundEventData.t) :
  ensures (applyPricedRound state event data) (grows state).
Proof.
  unfold applyPricedRound. apply ensures_bind_any. intros pricePerShare.
  eapply (ensures_bind _ _ (fun created => grows state (fst created))).
  { destruct (_ || _).
    - apply ensures_bind_any. intros preferredClassId. apply ensures_ret. cbn.
      auto with grows.
    - apply ensures_ret. cbn. auto with grows. }
  intros [s1 preferredClassId] Hs1. cbn in Hs1.
  eapply (ensures_bind _ _ (grows state)).
  { apply (ensures_foldM _ (grows state)); [|exact Hs1].
    intros s safeId _ Hs. apply convertSAFE_grows. exact Hs. }
  intros s2 Hs2. apply ensures_bind_any. intros totalNewShares.
  eapply (ensures_bind _ _ (grows state)).
  { destruct (_ && _); [|apply ensures_ret; exact Hs2].
    apply (ensures_foldM _ (grows state)); [|exact Hs2].
    intros s investor _ Hs. apply ensures_bind_any. intros id.
    apply ensures_ret. auto with grows. }
  intros s3 Hs3.
  destruct (PricedRoundEventData.esopTargetPercent data) as [esopTargetPercent|];
    [|apply ensures_ret; exact Hs3].
  destruct (Qeq_bool esopTargetPercent 0); [apply ensures_ret; exact Hs3|].
  destruct (find _ _); [|apply ensures_ret; exact Hs3].
  apply ensures_lift. intros s4 H4. exact (topUpPool_grows _ _ _ _ _ Hs3 H4).
Qed.

Lemma applySAFEIssuance_grows (state : CapTableState.t) (event : EventBase.t)
    (safes : list SafeInput.t) :
  ensures (applySAFEIssuance state event safes) (grows state).
Proof.
  unfold applySAFEIssuance. apply (ensures_foldM _ (grows state)); [|apply grows_refl].
  intros s safe _ Hs. apply ensures_bind_any. intros id. apply ensures_ret.
  assert (H : forall p x,
             grows state
               (CapTableState.set_safes (add_person s p)
                  (CapTableState.safes (add_person s p) ++ [x])))
    by (intros; auto with grows).
  apply H.
Qed.

Lemma applyESOPPoolCreation_grows (state : CapTableState.t) (event : EventBase.t)
    (data : EsopPoolInput) :
  ensures (applyESOPPoolCreation state event data) (grows state).
Proof.
  unfold applyESOPPoolCreation.
  eapply (ensures_bind _ _ (fun created => grows state (fst created))).
  { destruct (find _ _).
    - apply ensures_ret. cbn. auto with grows.
    - apply ensures_bind_any. intros optionClassId. apply ensures_ret. cbn.
      auto with grows. }
  intros [s1 optionClass] Hs1. cbn in Hs1.
  apply ensures_bind_any. intros poolShares.
  destruct (find_index _ _) as [[i h]|].
  - apply ensures_ret. auto with grows.
  - apply ensures_bind_any. intros id. apply ensures_ret. auto with grows.
Qed.

Lemma applyESOPPoolExtension_grows (state : CapTableState.t) (event : EventBase.t)
    (targetPercent : Q) :
  ensures (applyESOPPoolExtension state event targetPercent) (grows state).
Proof.
  unfold applyESOPPoolExtension. apply ensures_lift. intros s' H.
  exact (topUpPool_grows _ _ _ _ _ (grows_refl state) H).
Qed.

Lemma applyESOPGrant_grows (state : CapTableState.t) (event : EventBase.t)
    (data : ESOPGrantEventData.t) :
  ensures (applyESOPGrant state event data) (grows state).
Proof.
  unfold applyESOPGrant.
  destruct (find _ _) as [optionClass|]; [|apply ensures_throw].
  eapply (ensures_bind _ _ (grows state)).
  { destruct (find_index _ _) as [[i poolHolding]|]; [|apply ensures_ret; auto with grows].
    destruct (JsNum.lt _ _); [apply ensures_throw|].
    match goal with
    | |- ensures (match ?g with _ => _ end) _ => destruct g
    end; try (apply ensures_lift; discriminate).
    apply ensures_ret. auto with grows. }
  intros s1 Hs1.
  match goal with
  | |- ensures (match ?g with _ => _ end) _ => destruct g
  end; try (apply ensures_lift; discriminate).
  eapply (ensures_bind _ _ (fun created => grows state (fst created))).
  { destruct (ESOPGrantEventData.vestingSchedule data) as [vestingSchedule|].
    - destruct (truthy _).
      + apply ensures_ret. exact Hs1.
      + apply ensures_bind_any. intros vestingScheduleId. apply ensures_ret. cbn.
        auto with grows.
    - apply ensures_ret. exact Hs1. }
  intros [s2 vestingScheduleId] Hs2. cbn in Hs2.
  apply ensures_bind_any. intros id. apply ensures_ret. auto with grows.
Qed.

Lemma applyOptionExercise_grows (state : CapTableState.t) (event : EventBase.t)
    (data : OptionExerciseEventData.t) :
  ensures (applyOptionExercise state event data) (grows state).
Proof.
  unfold applyOptionExercise.
  destruct (find (is_type OPTION) _) as [optionClass|]; [|apply ensures_throw].
  destruct (find (is_type COMMON) _) as [commonClass|]; [|apply ensures_throw].
  destruct (find_index _ _) as [[i optionHolding]|]; [|apply ensures_throw].
  destruct (JsNum.lt _ _); [apply ensures_throw|].
  destruct (find_index _ _) as [[j h]|].
  - apply ensures_ret. auto with grows.
  - apply ensures_bind_any. intros id. apply ensures_ret. auto with grows.
Qed.

(** Whatever the event, the state that [applyEvent] returns is the state
    given, stamped with the event, and grown. *)
Lemma applyEvent_grows (state : CapTableState.t) (event : EventBase.t) :
  ensures (applyEvent state event)
    (grows (CapTableState.set_asOf state (EventBase.id event) (EventBase.date event))).
Proof.
  unfold applyEvent, cloneState. destruct (EventBase.data event).
  - apply applyIncorporation_grows.
  - apply applyPricedRound_grows.
  - apply applySAFEIssuance_grows.
  - apply applyESOPPoolCreation_grows.
  - apply applyESOPPoolExtension_grows.
  - apply applyESOPGrant_grows.
  - apply applyOptionExercise_grows.
  - apply ensures_throw.
Qed.

End Grows.

Section EventEffects.
Local Open Scope Z_scope.

Lemma kept_eq_prefix {A : Type} (l l' : list A) :
  kept eq l l' -> exists more, l' = l ++ more.
Proof.
  intros (l1 & l2 & -> & H). exists l2. f_equal.
  induction H as [|x y l l1 -> H IH]; [reflexivity|]. rewrite IH. reflexivity.
Qed.

(** [X5] An event that is applied stamps the state with its identifier and its
    date, and leaves the company of the state as it is. *)
Theorem applied_event_stamps_state
    (state : CapTableState.t) (event : EventBase.t) (uuid : nat -> string) (n n' : nat)
    (state' : CapTableState.t) :
  applyEvent state event uuid n = Ok (state', n') ->
  CapTableState.companyId state' = CapTableState.companyId state
  /\ CapTableState.asOfEventId state' = Some (EventBase.id event)
  /\ CapTableState.asOfDate state' = Some (EventBase.date event).
Proof.
  intros H. destruct (applyEvent_grows state event _ _ _ _ H) as (H1 & H2 & H3 & _).
  repeat split; assumption.
Qed.

(** On the exercise of 10,000 options. *)
Lemma applied_event_stamps_state_witness :
  exists state',
    applyEvent exercise_state exercise_event numbered_uuid 0%nat = Ok (state', 1%nat)
    /\ CapTableState.asOfEventId state' = Some "exercise-1"%string.
Proof.
  destruct (applyEvent exercise_state exercise_event numbered_uuid 0%nat)
    as [[state' k]| |] eqn:E; [|vm_compute in E; discriminate..].
  exists state'. split.
  - vm_compute in E. injection E as <- <-. reflexivity.
  - apply (applied_event_stamps_state _ _ _ _ _ _ E).
Defined.

(** [X6] No event removes or reorders anything: after an event is applied, the
    share classes, the people and the vesting schedules are those of before
    followed by new ones, every holding of before is at its index with at most
    its quantity changed, and every SAFE of before is at its index with at most
    its conversion recorded. *)
Theorem applied_event_only_appends
    (state : CapTableState.t) (event : EventBase.t) (uuid : nat -> string) (n n' : nat)
    (state' : CapTableState.t) :
  applyEvent state event uuid n = Ok (state', n') ->
  (exists more,
     CapTableState.shareClasses state' = CapTableState.shareClasses state ++ more)
  /\ (exists more, CapTableState.people state' = CapTableState.people state ++ more)
  /\ (exists more,
        CapTableState.vestingSchedules state'
        = CapTableState.vestingSchedules state ++ more)
  /\ kept same_holding (CapTableState.holdings state) (CapTableState.holdings state')
  /\ kept same_safe (CapTableState.safes state) (CapTableState.safes state').
Proof.
  intros H.
  destruct (applyEvent_grows state event _ _ _ _ H)
    as (_ & _ & _ & H4 & H5 & H6 & H7 & H8).
  cbn in H4, H5, H6, H7, H8.
  split; [apply kept_eq_prefix; exact H4|].
  split; [apply kept_eq_prefix; exact H7|].
  split; [apply kept_eq_prefix; exact H8|].
  split; assumption.
Qed.

(** On the exercise of 10,000 options. *)
Lemma applied_event_only_appends_witness :
  exists state',
    applyEvent exercise_state exercise_event numbered_uuid 0%nat = Ok (state', 1%nat)
    /\ kept same_holding (CapTableState.holdings exercise_state)
         (CapTableState.holdings state').
Proof.
  destruct (applyEvent exercise_state exercise_event numbered_uuid 0%nat)
    as [[state' k]| |] eqn:E; [|vm_compute in E; discriminate..].
  exists state'. split.
  - vm_compute in E. injection E as <- <-. reflexivity.
  - apply (applied_event_only_appends _ _ _ _ _ _ E).
Defined.

Lemma fold_left_ext {A B : Type} (f g : A -> B -> A) (l : list B) (a : A) :
  (forall a b, f a b = g a b) -> fold_left f l a = fold_left g l a.
Proof.
  intros H. revert a. induction l as [|b l IH]; intros a; cbn; [reflexivity|].
  rewrite H. apply IH.
Qed.

(** The totals depend on the holdings and the share classes only. *)
Lemma metrics_of_holdings (s s' : CapTableState.t) :
  CapTableState.holdings s' = CapTableState.holdings s ->
  CapTableState.shareClasses s' = CapTableState.shareClasses s ->
  calculatePreRoundMetrics s' = calculatePreRoundMetrics s.
Proof.
  intros Hh Hc. unfold calculatePreRoundMetrics. rewrite Hh.
  apply fold_left_ext. intros m h. unfold find_shareClass. rewrite Hc. reflexivity.
Qed.

(** The SAFE that an issuance records for an entry of its payload. *)
Let issued (event : EventBase.t) (safe : SafeInput.t) (x : SAFE.t) : Prop :=
  SAFE.investorId x = SafeInput.investorId safe
  /\ SAFE.principalAmount x = SafeInput.principalAmount safe
  /\ SAFE.valuationCap x = SafeInput.valuationCap safe
  /\ SAFE.discountPercent x = SafeInput.discountPercent safe
  /\ SAFE.valuationType x = default post_money (SafeInput.valuationType safe)
  /\ SAFE.issueDate x = EventBase.date event
  /\ SAFE.convertedInEventId x = None.

Lemma safe_issuance_fold (event : EventBase.t) (safes : list SafeInput.t) :
  forall (state : CapTableState.t) (uuid : nat -> string) (n : nat),
  exists state' n' new,
    applySAFEIssuance state event safes uuid n = Ok (state', n')
    /\ CapTableState.holdings state' = CapTableState.holdings state
    /\ CapTableState.shareClasses state' = CapTableState.shareClasses state
    /\ CapTableState.vestingSchedules state' = CapTableState.vestingSchedules state
    /\ CapTableState.safes state' = CapTableState.safes state ++ new
    /\ Forall2 (issued event) safes new.
Proof.
  unfold applySAFEIssuance.
  induction safes as [|safe safes IH]; intros state uuid n.
  - exists state, n, []. cbn. rewrite app_nil_r. repeat split. constructor.
  - cbn [foldM].
    set (p := Person.mk (SafeInput.investorId safe) (SafeInput.investorName safe) INVESTOR).
    assert (Hp : CapTableState.holdings (add_person state p) = CapTableState.holdings state
                 /\ CapTableState.shareClasses (add_person state p)
                    = CapTableState.shareClasses state
                 /\ CapTableState.vestingSchedules (add_person state p)
                    = CapTableState.vestingSchedules state
                 /\ CapTableState.safes (add_person state p) = CapTableState.safes state).
    { unfold add_person. destruct (has_person state (Person.id p)); repeat split. }
    destruct Hp as (Hp1 & Hp2 & Hp3 & Hp4).
    unfold bind at 1. unfold bind at 1.
    destruct (truthy (SafeInput.id safe)); cbn [ret uuidv4].
    all: match goal with
         | |- context [foldM ?f ?s ?l ?u ?k] =>
             destruct (IH s u k) as (state' & n' & new & E & H1 & H2 & H3 & H4 & H5)
         end.
    all: cbn in H1, H2, H3, H4.
    all: eexists state', n', (_ :: new).
    all: split; [exact E|].
    all: rewrite H1, H2, H3, H4, Hp1, Hp2, Hp3, Hp4, <- app_assoc.
    all: repeat split.
    all: constructor; [|exact H5].
    all: repeat split.
Qed.

(** [X13] A SAFE issuance never fails.  It appends one outstanding SAFE per
    entry of its payload, dated by the event, and touches neither the holdings
    nor the share classes: the share totals of the company are unchanged until
    the SAFEs convert. *)
Theorem safe_issuance_appends_outstanding_safes
    (state : CapTableState.t) (event : EventBase.t) (safes : list SafeInput.t)
    (uuid : nat -> string) (n : nat) :
  exists state' n' new,
    applySAFEIssuance state event safes uuid n = Ok (state', n')
    /\ CapTableState.holdings state' = CapTableState.holdings state
    /\ CapTableState.shareClasses state' = CapTableState.shareClasses state
    /\ CapTableState.safes state' = CapTableState.safes state ++ new
    /\ length new = length safes
    /\ Forall (fun x => unconverted x = true
                        /\ SAFE.issueDate x = EventBase.date event) new
    /\ map SAFE.investorId new = map SafeInput.investorId safes
    /\ map SAFE.principalAmount new = map SafeInput.principalAmount safes
    /\ calculatePreRoundMetrics state' = calculatePreRoundMetrics state.
Proof.
  destruct (safe_issuance_fold event safes state uuid n)
    as (state' & n' & new & E & H1 & H2 & _ & H4 & H5).
  exists state', n', new. split; [exact E|].
  split; [exact H1|]. split; [exact H2|]. split; [exact H4|].
  split; [symmetry; exact (Forall2_length _ _ _ H5)|].
  split.
  { clear -H5. induction H5 as [|safe x safes new Hx H5 IH]; constructor; [|exact IH].
    destruct Hx as (_ & _ & _ & _ & _ & Hd & Hc).
    split; [unfold unconverted; rewrite Hc; reflexivity|exact Hd]. }
  split.
  { clear -H5. induction H5 as [|safe x safes new Hx H5 IH]; [reflexivity|].
    cbn. rewrite IH. destruct Hx as (-> & _). reflexivity. }
  split.
  { clear -H5. induction H5 as [|safe x safes new Hx H5 IH]; [reflexivity|].
    cbn. rewrite IH. destruct Hx as (_ & -> & _). reflexivity. }
  apply metrics_of_holdings; assumption.
Qed.

End EventEffects.

Section Grant.
Local Open Scope Z_scope.

Lemma add_person_fields (state : CapTableState.t) (p : Person.t) :
  CapTableState.holdings (add_person state p) = CapTableState.holdings state
  /\ CapTableState.shareClasses (add_person state p) = CapTableState.shareClasses state
  /\ CapTableState.vestingSchedules (add_person state p)
     = CapTableState.vestingSchedules state
  /\ CapTableState.safes (add_person state p) = CapTableState.safes state.
Proof. unfold add_person. destruct (has_person state (Person.id p)); repeat split. Qed.







End Grant.

(** * Share totals and pool sizing *)

Section ExactDecimals.
Import Decimal DecimalFacts.
Local Open Scope Q_scope.

(** A decimal with at most 28 digits is not rounded. *)
Lemma finalise_exact (q : Q) (k v : Z) :
  (0 <= k)%Z -> q * ten ^ k == inject_Z v -> (Z.abs v < maxExact)%Z ->
  finalise q == q.
Proof.
  intros Hk Hv Hb. destruct (Qeq_dec q 0) as [E|E].
  - rewrite (finalise_zero q E), E. reflexivity.
  - destruct (exponent_spec q E) as [Hl _]. set (e := exponent q) in *.
    pose proof (ten_pos k) as Hten.
    assert (Habs : Qabs q * ten ^ k == inject_Z (Z.abs v)).
    { rewrite <- (Qabs_pos (ten ^ k)) by lra.
      rewrite <- Qabs_Qmult, Hv. destruct v; reflexivity. }
    assert (Hlt : ten ^ (e + k) < ten ^ 28).
    { rewrite ten_plus. apply Qle_lt_trans with (Qabs q * ten ^ k).
      - apply Qmult_le_compat_r; lra.
      - rewrite Habs. change (ten ^ 28) with (inject_Z maxExact).
        rewrite <- Zlt_Qlt. exact Hb. }
    apply ten_lt_inv in Hlt.
    rewrite finalise_nonzero by exact E. rewrite Qred_correct. fold e.
    apply (round_at_fix _ _ (v * 10 ^ (precision - 1 - e - k))).
    unfold precision in *.
    replace (28 - 1 - e)%Z with (k + (28 - 1 - e - k))%Z at 1 by lia.
    rewrite ten_plus, Qmult_assoc, Hv, inject_Z_mult, ten_inject by lia.
    reflexivity.
Qed.

Lemma finalise_Z (z : Z) : (Z.abs z < maxExact)%Z -> finalise (inject_Z z) == inject_Z z.
Proof.
  intros H. apply (finalise_exact _ 0 z); [lia| |exact H].
  change (ten ^ 0) with 1. ring.
Qed.

Lemma plus_Z (x : Q) (a b : Z) :
  x == inject_Z a -> (Z.abs (a + b) < maxExact)%Z ->
  plus x (inject_Z b) == inject_Z (a + b).
Proof.
  intros Hx Hb. unfold plus.
  rewrite (finalise_comp _ (inject_Z (a + b))) by (rewrite Hx, inject_Z_plus; reflexivity).
  apply finalise_Z. exact Hb.
Qed.

Lemma finalise_pos (q : Q) : 0 < q -> 0 < finalise q.
Proof.
  intros H. destruct (finalise_decade q H) as [Hl _].
  pose proof (ten_pos (exponent q)). lra.
Qed.

(** Adding a quantity that is not negative to a running total does not
    lower the total. *)
Lemma plus_nonneg_le (x q : Q) : finalise x == x -> 0 <= q -> x <= plus x q.
Proof.
  intros Hx Hq. unfold plus. rewrite <- Hx at 1. apply finalise_mono. lra.
Qed.

End ExactDecimals.

Section Totals.
Import Decimal DecimalFacts.
Local Open Scope Z_scope.

(** The body of the loop of [calculatePreRoundMetrics]. *)
Let tally (state : CapTableState.t) (m : Metrics.t) (holding : SecurityHolding.t)
    : Metrics.t :=
  let qty := inject_Z (SecurityHolding.quantity holding) in
  let legal :=
    match find_shareClass state (SecurityHolding.shareClassId holding) with
    | Some shareClass =>
        if is_type OPTION shareClass then Metrics.legalIssuedShares m
        else Decimal.plus (Metrics.legalIssuedShares m) qty
    | None => Metrics.legalIssuedShares m
    end in
  Metrics.mk legal (Decimal.plus (Metrics.fullyDilutedShares m) qty).

Lemma issuedQuantity_range (state : CapTableState.t) (h : SecurityHolding.t) :
  0 <= SecurityHolding.quantity h ->
  0 <= issuedQuantity state h <= SecurityHolding.quantity h.
Proof.
  intros H. unfold issuedQuantity.
  destruct (find_shareClass _ _) as [sc|]; [destruct (is_type OPTION sc)|]; lia.
Qed.

Lemma tally_exact (state : CapTableState.t) (l : list SecurityHolding.t) :
  forall (m : Metrics.t) (a b : Z),
    Forall (fun h => 0 <= SecurityHolding.quantity h) l ->
    (Metrics.fullyDilutedShares m == inject_Z a)%Q ->
    (Metrics.legalIssuedShares m == inject_Z b)%Q ->
    0 <= b <= a ->
    a + sumZ (map SecurityHolding.quantity l) < maxExact ->
    (Metrics.fullyDilutedShares (fold_left (tally state) l m)
     == inject_Z (a + sumZ (map SecurityHolding.quantity l)))%Q
    /\ (Metrics.legalIssuedShares (fold_left (tally state) l m)
        == inject_Z (b + sumZ (map (issuedQuantity state) l)))%Q.
Proof.
  induction l as [|h l IH]; intros m a b Hq Ha Hb Hab Hmax.
  - cbn [fold_left map]. change (sumZ []) with 0. rewrite !Z.add_0_r. split; assumption.
  - inversion Hq as [|? ? Hh Hl]; subst. cbn [fold_left map] in *.
    rewrite sumZ_cons in Hmax. rewrite !sumZ_cons.
    pose proof (sumZ_nonneg (map SecurityHolding.quantity l)) as Hs.
    rewrite Forall_map in Hs. specialize (Hs Hl).
    pose proof (issuedQuantity_range state h Hh) as Hi.
    destruct (IH (tally state m h) (a + SecurityHolding.quantity h)
                (b + issuedQuantity state h) Hl) as [H1 H2].
    + cbn. apply plus_Z; [exact Ha|lia].
    + unfold tally, issuedQuantity. cbn.
      destruct (find_shareClass _ _) as [sc|]; [destruct (is_type OPTION sc)|].
      * rewrite Z.add_0_r. exact Hb.
      * apply plus_Z; [exact Hb|lia].
      * rewrite Z.add_0_r. exact Hb.
    + lia.
    + lia.
    + rewrite H1, H2, !Z.add_assoc. split; reflexivity.
Qed.

(** [X3] As long as the quantities are not negative and add up to less than
    10^28, the totals of [calculatePreRoundMetrics] are exact: the fully diluted
    shares are the sum of all quantities, and the legally issued shares the sum
    over the holdings whose class is known and is no option class. *)
Theorem share_totals_are_exact_sums (state : CapTableState.t) :
  Forall (fun h => 0 <= SecurityHolding.quantity h) (CapTableState.holdings state) ->
  sumZ (map SecurityHolding.quantity (CapTableState.holdings state)) < maxExact ->
  let metrics := calculatePreRoundMetrics state in
  (Metrics.fullyDilutedShares metrics
   == inject_Z (sumZ (map SecurityHolding.quantity (CapTableState.holdings state))))%Q
  /\ (Metrics.legalIssuedShares metrics
      == inject_Z (sumZ (map (issuedQuantity state) (CapTableState.holdings state))))%Q.
Proof.
  intros Hq Hmax metrics.
  destruct (tally_exact state (CapTableState.holdings state) (Metrics.mk 0 0) 0 0 Hq)
    as [H1 H2]; try reflexivity; try lia.
  split; [exact H1|exact H2].
Qed.

(** On 9,000,000 founder shares and a pool of 1,000,000 options. *)
Lemma share_totals_are_exact_sums_witness :
  (Metrics.fullyDilutedShares (calculatePreRoundMetrics pool_state) == 10000000 # 1)%Q
  /\ (Metrics.legalIssuedShares (calculatePreRoundMetrics pool_state) == 9000000 # 1)%Q.
Proof.
  apply (share_totals_are_exact_sums pool_state).
  - repeat constructor; vm_compute; discriminate.
  - vm_compute. reflexivity.
Defined.

Lemma tally_ordered (state : CapTableState.t) (l : list SecurityHolding.t) :
  forall (m : Metrics.t),
    Forall (fun h => 0 <= SecurityHolding.quantity h) l ->
    (finalise (Metrics.fullyDilutedShares m) == Metrics.fullyDilutedShares m)%Q ->
    (0 <= Metrics.legalIssuedShares m <= Metrics.fullyDilutedShares m)%Q ->
    (0 <= Metrics.legalIssuedShares (fold_left (tally state) l m)
     <= Metrics.fullyDilutedShares (fold_left (tally state) l m))%Q.
Proof.
  induction l as [|h l IH]; intros m Hq Hfd Hle; [exact Hle|].
  inversion Hq as [|? ? Hh Hl]; subst. cbn [fold_left].
  assert (Hqty : (0 <= inject_Z (SecurityHolding.quantity h))%Q)
    by (rewrite <- (Zle_Qle 0); exact Hh).
  apply IH; [exact Hl| |].
  - cbn. apply finalise_idem.
  - pose proof (plus_nonneg_le _ _ Hfd Hqty) as Hup.
    unfold tally. cbn.
    destruct (find_shareClass _ _) as [sc|]; [destruct (is_type OPTION sc)|].
    + split; [apply Hle|]. lra.
    + split.
      * apply finalise_nonneg. lra.
      * apply finalise_mono. lra.
    + split; [apply Hle|]. lra.
Qed.

(** [X4] Whatever their size, the legally issued shares never exceed the fully
    diluted shares when no quantity is negative, and neither total is negative. *)
Theorem legal_shares_within_fully_diluted (state : CapTableState.t) :
  Forall (fun h => 0 <= SecurityHolding.quantity h) (CapTableState.holdings state) ->
  let metrics := calculatePreRoundMetrics state in
  (0 <= Metrics.legalIssuedShares metrics <= Metrics.fullyDilutedShares metrics)%Q.
Proof.
  intros Hq metrics.
  apply (tally_ordered state (CapTableState.holdings state) (Metrics.mk 0 0) Hq).
  - reflexivity.
  - cbn. lra.
Qed.

(** On 9,000,000 founder shares and a pool of 1,000,000 options. *)
Lemma legal_shares_within_fully_diluted_witness :
  (0 <= Metrics.legalIssuedShares (calculatePreRoundMetrics pool_state)
   <= Metrics.fullyDilutedShares (calculatePreRoundMetrics pool_state))%Q.
Proof.
  apply (legal_shares_within_fully_diluted pool_state).
  repeat constructor; vm_compute; discriminate.
Defined.

(** [X2] Sizing a pool from a target percentage throws when the target is 100%
    or more, and only then; below 100% it returns a share count, which is not
    negative when neither the existing shares nor the target are. *)
Theorem pool_from_percent_refuses_100
    (existingShares targetPercent : Q) :
  ((1 <= targetPercent)%Q ->
   calculateESOPPoolFromPercent existingShares targetPercent
   = Throw "Target ESOP percentage must be less than 100%")
  /\ ((targetPercent < 1)%Q ->
      exists pool,
        calculateESOPPoolFromPercent existingShares targetPercent = Ok pool
        /\ pool = roundShares
                    (finalise (Decimal.times existingShares targetPercent
                               / Decimal.minus 1 targetPercent))
        /\ ((0 <= existingShares)%Q -> (0 <= targetPercent)%Q -> 0 <= pool)).
Proof.
  unfold calculateESOPPoolFromPercent, Decimal.gte. split.
  - intros H. apply Qle_bool_iff in H. rewrite H. reflexivity.
  - intros H.
    destruct (Qle_bool 1 targetPercent) eqn:E; [apply Qle_bool_iff in E; lra|].
    assert (Hden : (0 < Decimal.minus 1 targetPercent)%Q)
      by (apply finalise_pos; lra).
    rewrite ddiv_ok by lra. cbn [obind]. eexists. split; [reflexivity|].
    split; [reflexivity|]. intros He Hp.
    apply DoubleFacts.ofZ_nonneg, round_half_up_nonneg, finalise_nonneg.
    apply Qle_shift_div_l; [exact Hden|]. rewrite Qmult_0_l.
    apply finalise_nonneg. apply Qmult_le_0_compat; assumption.
Qed.

(** A target of exactly 100%. *)
Lemma pool_from_percent_refuses_100_witness :
  calculateESOPPoolFromPercent (9000000 # 1) 1
  = Throw "Target ESOP percentage must be less than 100%".
Proof.
  apply (proj1 (pool_from_percent_refuses_100 (9000000 # 1) 1)). discriminate.
Defined.

End Totals.

(** * The allocator, recipient by recipient *)

Section AllocationBounds.
Local Open Scope Z_scope.

Lemma Forall2_map_self {A B : Type} (P : A -> B -> Prop) (f : A -> B) (l : list A) :
  (forall a, In a l -> P a (f a)) -> Forall2 P l (map f l).
Proof.
  induction l as [|a l IH]; intros H; cbn; constructor.
  - apply H. left. reflexivity.
  - apply IH. intros b Hb. apply H. right. exact Hb.
Qed.

(** The entry of a recipient in the map of results after the award loop. *)
Lemma awarded_entry (es sorted : list ExactShare.t) (k : nat) (e : ExactShare.t) :
  List.NoDup (map ExactShare.id es) -> Permutation sorted es -> In e es ->
  Z.abs (ExactShare.floor e) < 2 ^ 53 ->
  exists extra,
    fold_left award (take k sorted) (fold_left floor_entry es ∅) !! ExactShare.id e
    = Some (ExactShare.floor e + extra)
    /\ 0 <= extra <= 1.
Proof.
  intros Hnd Hperm He Hsafe.
  assert (Hnds : List.NoDup (map ExactShare.id sorted)).
  { apply (Permutation_NoDup (l := map ExactShare.id es)); [|exact Hnd].
    apply Permutation_map. symmetry. exact Hperm. }
  assert (Hnda : List.NoDup (map ExactShare.id (take k sorted))).
  { rewrite <- (firstn_skipn k sorted), map_app in Hnds.
    apply NoDup_app_remove_r in Hnds. exact Hnds. }
  destruct (in_dec String.string_dec (ExactShare.id e)
              (map ExactShare.id (take k sorted))) as [Hin|Hin].
  - exists 1. rewrite award_lookup by assumption.
    rewrite floors_lookup by assumption.
    change (default 0 (Some (ExactShare.floor e))) with (ExactShare.floor e).
    rewrite DoubleFacts.ofZ_safe by lia. split; [reflexivity|lia].
  - exists 0. rewrite award_lookup_notin by assumption.
    rewrite floors_lookup by assumption. rewrite Z.add_0_r. split; [reflexivity|lia].
Qed.

(** [X1] For a total and exact shares [total * proportion] that are below
    2^53 in magnitude, and recipient identifiers that are pairwise distinct,
    every recipient receives the floor of their exact share or one share
    more. *)
Theorem distribute_within_one_share_of_exact
    (totalShares : Z) (recipients : list (string * Q)) :
  Z.abs totalShares <= 2 ^ 53 ->
  Forall (fun r => Z.abs (Qfloor (exactShare totalShares r)) < 2 ^ 53) recipients ->
  List.NoDup (map fst recipients) ->
  Forall2 (fun (r : string * Q) (s : string * Z) =>
             fst s = fst r
             /\ Qfloor (exactShare totalShares r) <= snd s
                <= Qfloor (exactShare totalShares r) + 1)
    recipients (distributeSharesByLargestRemainder totalShares recipients).
Proof.
  intros Htotal Hsafe Hnd. unfold distributeSharesByLargestRemainder.
  rewrite (DoubleFacts.toDecimal_safe totalShares) by exact Htotal.
  set (mk := fun r : string * Q =>
               ExactShare.mk (fst r) (Decimal.times (inject_Z totalShares) (snd r))
                 (Double.ofZ
                    (Decimal.round_floor (Decimal.times (inject_Z totalShares) (snd r))))
                 (Decimal.minus (Decimal.times (inject_Z totalShares) (snd r))
                    (Double.toDecimal
                       (inject_Z
                          (Double.ofZ
                             (Decimal.round_floor
                                (Decimal.times (inject_Z totalShares) (snd r)))))))).
  set (es := map mk recipients).
  assert (Hids : map ExactShare.id es = map fst recipients).
  { subst es. rewrite map_map. reflexivity. }
  apply Forall2_map_self. intros r Hr. cbn [fst snd]. split; [reflexivity|].
  rewrite List.Forall_forall in Hsafe. specialize (Hsafe r Hr).
  assert (Hfloor : ExactShare.floor (mk r) = Qfloor (exactShare totalShares r)).
  { cbn. apply DoubleFacts.ofZ_safe. unfold Decimal.round_floor.
    fold (exactShare totalShares r). lia. }
  match goal with
  | |- context [fold_left award (take ?k ?sorted) _] =>
      destruct (awarded_entry es sorted k (mk r)) as (extra & Hlookup & Hextra)
  end.
  - rewrite Hids. exact Hnd.
  - apply sort_perm.
  - subst es. apply in_map. exact Hr.
  - rewrite Hfloor. exact Hsafe.
  - cbn [ExactShare.id mk] in Hlookup. rewrite Hlookup. cbn [default].
    rewrite Hfloor. unfold id. lia.
Qed.

(** Ten shares among three recipients with a third each. *)
Lemma distribute_within_one_share_of_exact_witness :
  Forall2 (fun (r : string * Q) (s : string * Z) =>
             fst s = fst r
             /\ Qfloor (exactShare 10 r) <= snd s <= Qfloor (exactShare 10 r) + 1)
    third_recipients (distributeSharesByLargestRemainder 10 third_recipients).
Proof.
  apply distribute_within_one_share_of_exact.
  - vm_compute. discriminate.
  - repeat constructor; vm_compute; reflexivity.
  - repeat constructor; cbn; intuition discriminate.
Defined.

(** An exact share beyond 2^53 is not kept: of 10^17 shares the proportion
    0.18014398509481985 is 2^54 + 1 shares, and the recipient receives
    2^54. *)
Example distribute_share_beyond_safe_integers :
  Qfloor (exactShare (10 ^ 17)
            ("a"%string, (18014398509481985 # 100000000000000000)%Q))
  = 2 ^ 54 + 1
  /\ distributeSharesByLargestRemainder (10 ^ 17)
       [("a"%string, (18014398509481985 # 100000000000000000)%Q)]
     = [("a"%string, 2 ^ 54)].
Proof. split; vm_compute; reflexivity. Qed.

End AllocationBounds.

Section FounderShares.
Import Decimal DecimalFacts.
Local Open Scope Z_scope.

Lemma sumQ_map_ext {A : Type} (f g : A -> Q) (l : list A) :
  (forall a, In a l -> (f a == g a)%Q) -> (sumQ (map f l) == sumQ (map g l))%Q.
Proof.
  induction l as [|a l IH]; intros H; [reflexivity|].
  cbn [map]. rewrite !sumQ_cons.
  rewrite (H a (or_introl eq_refl)), IH; [reflexivity|].
  intros b Hb. apply H. right. exact Hb.
Qed.

Lemma sumQ_map_scale {A : Type} (f : A -> Q) (c : Q) (l : list A) :
  (sumQ (map (fun a => c * f a) l) == c * sumQ (map f l))%Q.
Proof.
  induction l as [|a l IH]; [unfold sumQ; cbn; ring|].
  cbn [map]. rewrite !sumQ_cons, IH. ring.
Qed.

Lemma sumQ_member_le {A : Type} (f : A -> Q) (l : list A) (a : A) :
  (forall b, In b l -> (0 <= f b)%Q) -> In a l -> (f a <= sumQ (map f l))%Q.
Proof.
  induction l as [|b l IH]; intros Hpos Ha; [destruct Ha|].
  cbn [map]. rewrite sumQ_cons.
  assert (Hrest : (0 <= sumQ (map f l))%Q).
  { clear -Hpos. induction l as [|c l IH]; [unfold sumQ; cbn; lra|].
    cbn [map]. rewrite sumQ_cons.
    pose proof (Hpos c (or_intror (or_introl eq_refl))).
    assert (0 <= sumQ (map f l))%Q by (apply IH; intros d [->|Hd]; apply Hpos; cbn; auto).
    lra. }
  destruct Ha as [->|Ha].
  - lra.
  - pose proof (Hpos b (or_introl eq_refl)).
    assert (f a <= sumQ (map f l))%Q by (apply IH; [intros; apply Hpos; right|]; assumption).
    lra.
Qed.

(** The percentage of a founder, as a proportion, and the exact share it
    gives of a whole number of shares, are not rounded. *)
Lemma founder_share_exact (total : Z) (p : Q) :
  0 <= total < 10 ^ 20 -> plain_percentage p -> (p <= 100)%Q ->
  (Decimal.times (inject_Z total) (finalise (p / 100)) == inject_Z total * (p / 100))%Q.
Proof.
  intros Ht (v & Hv & Hv0) Hp.
  assert (Hv100 : v <= 100000000).
  { rewrite Zle_Qle, <- Hv. change (inject_Z 100000000) with (100 * (1000000 # 1))%Q.
    apply Qmult_le_compat_r; [exact Hp|discriminate]. }
  assert (Hprop : (finalise (p / 100) == p / 100)%Q).
  { apply (finalise_exact _ 8 v); [lia| |unfold maxExact; lia].
    rewrite <- Hv. change (ten ^ 8)%Q with (100 * (1000000 # 1))%Q. field. }
  unfold Decimal.times.
  rewrite (finalise_comp _ (inject_Z total * (p / 100))%Q) by (rewrite Hprop; reflexivity).
  apply (finalise_exact _ 8 (total * v)); [lia| |].
  - rewrite inject_Z_mult, <- Hv. change (ten ^ 8)%Q with (100 * (1000000 # 1))%Q. field.
  - unfold maxExact. rewrite Z.abs_eq by nia. nia.
Qed.

Lemma allocated_distribution (distribution : list (string * Z)) :
  List.NoDup (map fst distribution) ->
  map (allocated (map (fun d : string * Z => (fst d, Some (snd d))) distribution)
         (fun s => s))
      (map fst distribution)
  = map snd distribution.
Proof.
  induction distribution as [|[k v] l IH]; intros Hnd; [reflexivity|].
  cbn [map fst snd] in *. apply NoDup_cons_iff in Hnd as [Hk Hnd]. f_equal.
  - unfold allocated, find. cbn. rewrite String.eqb_refl. reflexivity.
  - rewrite <- (IH Hnd). apply map_ext_in. intros k' Hk'.
    unfold allocated, find. cbn.
    destruct (String.eqb k k') eqn:E; [|destruct (find_index _ _) as [[i y]|]; reflexivity].
    apply String.eqb_eq in E. subst k'. contradiction.
Qed.

Lemma bind_Ok_eq {A B : Type} (c : M A) (k : A -> M B) (uuid : nat -> string)
    (n n' : nat) (a : A) :
  c uuid n = Ok (a, n') -> bind c k uuid n = k a uuid n'.
Proof. intros H. unfold bind. rewrite H. reflexivity. Qed.

(** The loop of [applyIncorporation] over the founders appends one common
    holding per founder, with the share count allocated to them. *)
Lemma founder_holdings (event : EventBase.t) (commonClassId : string)
    (founderAllocations : list (string * option Z)) (founders : list Founder.t) :
  forall (state : CapTableState.t) (uuid : nat -> string) (n : nat),
  exists state' new,
    foldM (fun state founder =>
             let state :=
               add_person state
                 (Person.mk (Founder.personId founder) (Founder.name founder) FOUNDER) in
             id <- uuidv4 ;;
             ret (push_holding state
                    (plainHolding id (Founder.personId founder) commonClassId
                       (allocated founderAllocations (fun s => s)
                          (Founder.personId founder))
                       (EventBase.id event) false None)))
          state founders uuid n
    = Ok (state', (n + length founders)%nat)
    /\ CapTableState.holdings state' = CapTableState.holdings state ++ new
    /\ CapTableState.shareClasses state' = CapTableState.shareClasses state
    /\ map SecurityHolding.holderId new = map Founder.personId founders
    /\ map SecurityHolding.quantity new
       = map (allocated founderAllocations (fun s => s)) (map Founder.personId founders)
    /\ Forall (fun h => SecurityHolding.shareClassId h = commonClassId
                        /\ SecurityHolding.isOption h = false) new.
Proof.
  induction founders as [|founder founders IH]; intros state uuid n.
  - exists state, []. cbn. rewrite app_nil_r, Nat.add_0_r. repeat split. constructor.
  - destruct (IH (push_holding
                    (add_person state
                       (Person.mk (Founder.personId founder) (Founder.name founder)
                          FOUNDER))
                    (plainHolding (uuid n) (Founder.personId founder) commonClassId
                       (allocated founderAllocations (fun s => s)
                          (Founder.personId founder))
                       (EventBase.id event) false None))
                 uuid (S n))
      as (state' & new & E & H1 & H2 & H3 & H4 & H5).
    eexists state', (_ :: new). split.
    + match goal with
      | |- foldM ?F ?s (?f :: ?l) ?u ?k = _ =>
          match type of E with
          | foldM _ ?s1 _ _ _ = _ =>
              change (foldM F s (f :: l) u k) with (foldM F s1 l u (S k))
          end
      end.
      rewrite E. f_equal. f_equal. cbn. lia.
    + cbn in H1, H2.
      destruct (add_person_fields state
                  (Person.mk (Founder.personId founder) (Founder.name founder) FOUNDER))
        as (Hh & Hc & _ & _).
      rewrite H1, H2, Hh, Hc, <- app_assoc. cbn [map]. rewrite H3, H4.
      repeat split. constructor; [split; reflexivity|exact H5].
Qed.

(** [X11] An incorporation by percentages issues exactly the shares of the
    company to its founders: with founders that are pairwise distinct,
    percentages of at most six decimals that add up to 100 and a whole number of
    shares below 2^53, the handler appends one common holding per founder, in
    order, and their quantities add up to the number of shares. *)
Theorem incorporation_issues_all_founder_shares
    (state : CapTableState.t) (event : EventBase.t) (data : IncorporationEventData.t)
    (total : Z) (uuid : nat -> string) (n n' : nat) (state' : CapTableState.t) :
  IncorporationEventData.founderInputMode data = mode_percentage ->
  List.NoDup (map Founder.personId (IncorporationEventData.founders data)) ->
  Forall (fun f => plain_percentage (toDecimal (Founder.percentage f)))
    (IncorporationEventData.founders data) ->
  (sumQ (map (fun f => toDecimal (Founder.percentage f))
           (IncorporationEventData.founders data)) == 100)%Q ->
  (IncorporationEventData.totalIssuedShares data == inject_Z total)%Q ->
  0 <= total < 2 ^ 53 ->
  applyIncorporation state event data uuid n = Ok (state', n') ->
  exists new rest,
    CapTableState.holdings state' = CapTableState.holdings state ++ new ++ rest
    /\ map SecurityHolding.holderId new
       = map Founder.personId (IncorporationEventData.founders data)
    /\ Forall (fun h => SecurityHolding.shareClassId h = uuid n
                        /\ SecurityHolding.isOption h = false) new
    /\ sumZ (map SecurityHolding.quantity new) = total
    /\ Forall (fun h => SecurityHolding.holderId h = ESOP_POOL_HOLDER_ID) rest.
Proof.
  intros Hmode Hnd Hpct Hsum Htotal Hrange H.
  set (founders := IncorporationEventData.founders data) in *.
  set (allocations :=
         map (fun f => (Founder.personId f,
                        finalise (toDecimal (Founder.percentage f) / 100)))
             founders).
  assert (Hround : roundShares (IncorporationEventData.totalIssuedShares data) = total).
  { unfold roundShares. rewrite (round_half_up_comp _ _ Htotal), round_half_up_Z.
    apply DoubleFacts.ofZ_safe. lia. }
  set (distribution := distributeSharesByLargestRemainder total allocations).
  assert (Hids : map fst allocations = map Founder.personId founders).
  { subst allocations. rewrite map_map. reflexivity. }
  assert (Hdids : map fst distribution = map Founder.personId founders).
  { subst distribution. rewrite distribute_ids. exact Hids. }
  assert (Hle : forall f, In f founders -> (toDecimal (Founder.percentage f) <= 100)%Q).
  { intros f Hf. rewrite <- Hsum.
    apply (sumQ_member_le (fun f => toDecimal (Founder.percentage f))); [|exact Hf].
    intros b Hb. rewrite List.Forall_forall in Hpct.
    destruct (Hpct b Hb) as (v & Hv & Hv0).
    assert (0 <= inject_Z v)%Q by (rewrite <- (Zle_Qle 0); exact Hv0). nra. }
  assert (Hexact : (sumQ (map (exactShare total) allocations) == inject_Z total)%Q).
  { subst allocations. rewrite map_map.
    rewrite (sumQ_map_ext _ (fun f => (inject_Z total / 100)
                                      * toDecimal (Founder.percentage f))%Q).
    - rewrite sumQ_map_scale, Hsum. field.
    - intros f Hf. unfold exactShare. cbn [snd].
      rewrite founder_share_exact; [field| | |apply Hle; exact Hf].
      + change (2 ^ 53) with 9007199254740992 in Hrange.
        change (10 ^ 20) with 100000000000000000000. lia.
      + rewrite List.Forall_forall in Hpct. apply Hpct. exact Hf. }
  assert (Hdsum : sumZ (map snd distribution) = total).
  { subst distribution. apply distribute_sum.
    - exact Hrange.
    - subst allocations. apply List.Forall_forall. intros r Hr.
      apply in_map_iff in Hr as (f & <- & Hf). cbn [snd]. apply finalise_nonneg.
      rewrite List.Forall_forall in Hpct. destruct (Hpct f Hf) as (v & Hv & Hv0).
      assert (0 <= inject_Z v)%Q by (rewrite <- (Zle_Qle 0); exact Hv0).
      apply Qle_shift_div_l; [reflexivity|]. nra.
    - rewrite Hids. exact Hnd.
    - apply shortfall_range. exact Hexact. }
  unfold applyIncorporation in H. rewrite Hmode, Hround in H.
  change (IncorporationEventData.founders data) with founders in H.
  apply bind_Ok in H as (commonClassId & k0 & Hc & H). injection Hc as <- <-.
  apply bind_Ok in H as (s1 & k1 & Hfold & H).
  match type of Hfold with
  | foldM _ ?s ?l ?u ?k = _ =>
      destruct (founder_holdings event (uuid n)
                  (map (fun d : string * Z => (fst d, Some (snd d))) distribution)
                  l s u k)
        as (s1' & new & E & H1 & H2 & H3 & H4 & H5)
  end.
  pose proof (eq_trans (eq_sym Hfold) E) as Es. injection Es as -> ->. clear E.
  assert (Hq : map SecurityHolding.quantity new = map snd distribution).
  { rewrite H4, <- Hdids. apply allocated_distribution. rewrite Hdids. exact Hnd. }
  assert (Hbase : CapTableState.holdings s1' = CapTableState.holdings state ++ new).
  { rewrite H1. destruct (IncorporationEventData.esopPool data); reflexivity. }
  destruct (IncorporationEventData.esopPool data) as [esopPool|].
  - apply bind_Ok in H as (optionClassId & k1 & _ & H).
    apply bind_Ok in H as (esopShares & k2 & _ & H).
    apply bind_Ok in H as (id & k3 & _ & H).
    injection H as <- <-. eexists new, [_].
    cbn [CapTableState.holdings push_holding push_shareClass
         CapTableState.set_holdings CapTableState.set_shareClasses].
    rewrite Hbase, <- app_assoc. split; [reflexivity|].
    split; [exact H3|]. split; [exact H5|]. split; [rewrite Hq; exact Hdsum|].
    repeat constructor.
  - injection H as <- <-. exists new, []. rewrite app_nil_r.
    split; [exact Hbase|]. split; [exact H3|]. split; [exact H5|].
    split; [rewrite Hq; exact Hdsum|]. constructor.
Qed.

(** A thousand shares among founders at 33.34%, 33.33% and 33.33%. *)
Lemma incorporation_issues_all_founder_shares_witness :
  exists state' n' new rest,
    applyIncorporation (createInitialState "company-1") incorporation_event
      thirds_incorporation numbered_uuid 0%nat = Ok (state', n')
    /\ CapTableState.holdings state' = new ++ rest
    /\ sumZ (map SecurityHolding.quantity new) = 1000.
Proof.
  destruct (applyIncorporation (createInitialState "company-1") incorporation_event
              thirds_incorporation numbered_uuid 0%nat) as [[state' k]| |] eqn:E;
    [|vm_compute in E; discriminate..].
  assert (H1 : IncorporationEventData.founderInputMode thirds_incorporation
               = mode_percentage) by reflexivity.
  assert (H2 : List.NoDup (map Founder.personId
                             (IncorporationEventData.founders thirds_incorporation)))
    by (repeat constructor; cbn; intuition discriminate).
  assert (H3 : Forall (fun f => plain_percentage (toDecimal (Founder.percentage f)))
                 (IncorporationEventData.founders thirds_incorporation)).
  { repeat constructor;
      [exists 33340000|exists 33330000|exists 33330000]; split; try reflexivity; lia. }
  assert (H4 : (sumQ (map (fun f => toDecimal (Founder.percentage f))
                        (IncorporationEventData.founders thirds_incorporation))
                == 100)%Q) by reflexivity.
  assert (H5 : (IncorporationEventData.totalIssuedShares thirds_incorporation
                == inject_Z 1000)%Q) by reflexivity.
  assert (H6 : 0 <= 1000 < 2 ^ 53) by lia.
  destruct (incorporation_issues_all_founder_shares _ _ _ _ _ _ _ _
              H1 H2 H3 H4 H5 H6 E) as (new & rest & Hh & _ & _ & Hsum & _).
  exists state', k, new, rest. split; [reflexivity|]. split; [exact Hh|exact Hsum].
Defined.

End FounderShares.

Section FounderSharesEntered.
Local Open Scope Z_scope.




End FounderSharesEntered.

(** * Vested options of a holding with a schedule *)

Section VestedOptions.
Local Open Scope Z_scope.

Variable state : CapTableState.t.
Variable holding : SecurityHolding.t.
Variable schedule : VestingSchedule.t.
Variable scheduleId : string.
Variable start : date.

Hypothesis holding_schedule :
  SecurityHolding.vestingScheduleId holding = Some scheduleId.
Hypothesis id_not_empty : scheduleId <> ""%string.
Hypothesis schedule_found : find_vestingSchedule state scheduleId = Some schedule.
Hypothesis holding_start : SecurityHolding.vestingStartDate holding = Some start.




Hypothesis quantity_nonneg : 0 <= SecurityHolding.quantity holding.
Hypothesis cliff_before_end :
  VestingSchedule.cliffMonths schedule < VestingSchedule.totalMonths schedule.
Hypothesis percent_range :
  (0 <= VestingSchedule.initialCliffPercent schedule <= 100)%Q.







End VestedOptions.

Section VestedOptionsWitnesses.
Local Open Scope Z_scope.



(** With a percentage that has a fraction the doubles of the source fall
    short of the exact quotient: 33.3% of 3,000 options are 998 options. *)
Example cliff_percentage_with_fraction :
  cliffVestedNumber 3000 (333 # 10) = JsNum.Int 998
  /\ Qfloor (inject_Z 3000 * (333 # 10) / 100) = 999.
Proof. split; vm_compute; reflexivity. Qed.

End VestedOptionsWitnesses.

(** * Cap table views *)

Section Descending.

Context {A : Type} (key : A -> Z).

Let descending (a b : A) : bool := key a <? key b.

Lemma descending_sorted (l : list A) :
  StronglySorted (fun a b => key b <= key a) (sort descending l).
Proof.
  apply (StronglySorted_weaken (fun a b => descending a b = false)).
  - intros a b H. unfold descending in H. apply Z.ltb_ge in H. exact H.
  - apply sort_sorted.
    + intros a b H. unfold descending in *. apply Z.ltb_lt in H. apply Z.ltb_ge. lia.
    + intros a b c H1 H2. unfold descending in *.
      apply Z.ltb_ge in H1, H2. apply Z.ltb_ge. lia.
Qed.

End Descending.

Section Views.
Local Open Scope Z_scope.

Lemma in_omap {A B : Type} (f : A -> option B) (l : list A) (b : B) :
  In b (omap f l) -> exists a, In a l /\ f a = Some b.
Proof.
  induction l as [|a l IH]; cbn; [intros []|].
  destruct (f a) as [b'|] eqn:E.
  - intros [<-|H].
    + exists a. split; [left; reflexivity|exact E].
    + destruct (IH H) as (a' & Ha' & E'). exists a'. split; [right; exact Ha'|exact E'].
  - intros H. destruct (IH H) as (a' & Ha' & E'). exists a'. split; [right; exact Ha'|exact E'].
Qed.

(** [X19] The legal cap table has no row for the option pool and lists no option
    class; each of its rows is the row of a person of the state, and the rows
    come in descending order of their share counts. *)
Theorem legal_cap_table_leaves_out_pool_and_options (state : CapTableState.t) :
  let table := buildLegalCapTable state in
  Forall (fun row =>
            LegalCapTableRow.holderId row <> ESOP_POOL_HOLDER_ID
            /\ exists person,
                 In person (CapTableState.people state)
                 /\ LegalCapTableRow.holderId row = Person.id person
                 /\ LegalCapTableRow.holderName row = Person.name person)
    (LegalCapTable.rows table)
  /\ StronglySorted (fun a b => LegalCapTableRow.totalShares b
                                <= LegalCapTableRow.totalShares a)
       (LegalCapTable.rows table)
  /\ Forall (fun sc => ShareClass.type sc <> OPTION) (LegalCapTable.shareClasses table).
Proof.
  intros table. split; [|split].
  - apply List.Forall_forall. intros row Hrow.
    apply (Permutation_in _ (sort_perm _ _)) in Hrow.
    apply in_omap in Hrow as (person & Hperson & Hrow).
    unfold legalRow in Hrow.
    destruct (String.eqb (Person.id person) ESOP_POOL_HOLDER_ID) eqn:E; [discriminate|].
    destruct (fold_left _ _ _) as [totalShares byClass].
    destruct (Decimal.gt totalShares 0); [|discriminate].
    injection Hrow as <-. cbn. split.
    + apply String.eqb_neq. exact E.
    + exists person. repeat split. exact Hperson.
  - apply (descending_sorted LegalCapTableRow.totalShares).
  - apply List.Forall_forall. intros sc Hsc. cbn in Hsc.
    apply filter_In in Hsc as [_ Hsc]. unfold is_type in Hsc.
    destruct (bool_decide (ShareClass.type sc = OPTION)) eqn:E; [discriminate|].
    apply bool_decide_eq_false in E. exact E.
Qed.

(** ** Vested and unvested options of the fully diluted cap table *)


Lemma calculateVestedOptions_no_schedule (state : CapTableState.t)
    (h : SecurityHolding.t) (d : date) :
  truthy (SecurityHolding.vestingScheduleId h) = false ->
  calculateVestedOptions h d state = JsNum.Int (SecurityHolding.quantity h).
Proof. intros H. unfold calculateVestedOptions. rewrite H. reflexivity. Qed.


Lemma filter_filter_and {A : Type} (p q : A -> bool) (l : list A) :
  List.filter q (List.filter p l) = List.filter (fun a => p a && q a) l.
Proof.
  induction l as [|a l IH]; [reflexivity|]. cbn.
  destruct (p a); cbn; [destruct (q a); rewrite IH; reflexivity|exact IH].
Qed.






End Views.

Section OwnershipHistory.
Local Open Scope Z_scope.

(** [X23] The ownership history has one entry per event, in ascending order of
    the event dates; no entry lists the option pool or a holder without
    ownership, although the percentages are taken of the fully diluted shares,
    those of the pool included. *)
Theorem ownership_history_follows_events
    (companyId : string) (events : list EventBase.t) (uuid : nat -> string) (n n' : nat)
    (history : list OwnershipSnapshot.t) :
  computeOwnershipHistory companyId events uuid n = Ok (history, n') ->
  map OwnershipSnapshot.eventId history = map EventBase.id (sort by_date events)
  /\ map OwnershipSnapshot.date history = map EventBase.date (sort by_date events)
  /\ Forall (fun snapshot =>
               Forall (fun o => Ownership.holderId o <> ESOP_POOL_HOLDER_ID
                                /\ (0 < Ownership.ownershipPercent o)%Q)
                 (OwnershipSnapshot.ownership snapshot))
       history.
Proof.
  intros H. unfold computeOwnershipHistory in H.
  apply bind_Ok in H as (r & k & Hr & H). injection H as <- <-.
  unfold replayAllEvents in Hr.
  destruct (replay_fold _ _ _ _ _ _ Hr) as (states & Hlen & Hsnaps & _).
  cbn [Replay.snapshots app] in Hsnaps.
  change (sort (fun a b => EventBase.date b <? EventBase.date a) events)
    with (sort by_date events) in Hlen, Hsnaps.
  destruct (zip_with_snapshots _ states Hlen) as (H1 & H2 & _ & _).
  rewrite !map_map. cbn [OwnershipSnapshot.eventId OwnershipSnapshot.date].
  rewrite Hsnaps. split; [exact H1|]. split; [exact H2|].
  apply List.Forall_forall. intros snapshot Hs.
  apply in_map_iff in Hs as (s & <- & _). cbn [OwnershipSnapshot.ownership].
  apply List.Forall_forall. intros o Ho. unfold ownershipOf in Ho.
  apply filter_In in Ho as [Ho Hpos].
  apply in_map_iff in Ho as (person & <- & Hperson).
  apply filter_In in Hperson as [_ Hperson]. cbn in *. split.
  - apply String.eqb_neq. destruct (String.eqb (Person.id person) ESOP_POOL_HOLDER_ID);
      [discriminate|reflexivity].
  - apply gt_true. exact Hpos.
Qed.

(** On a grant, an incorporation and a pool creation given out of order. *)
Lemma ownership_history_follows_events_witness :
  exists history,
    computeOwnershipHistory "company-1" [grant_event; incorporation_event; pool_event]
      numbered_uuid 0%nat = Ok (history, 7%nat)
    /\ map OwnershipSnapshot.eventId history = ["incorporation"; "pool"; "grant"]%string.
Proof.
  destruct (computeOwnershipHistory "company-1"
              [grant_event; incorporation_event; pool_event] numbered_uuid 0%nat)
    as [[history k]| |] eqn:E; [|vm_compute in E; discriminate..].
  exists history. split.
  - vm_compute in E. injection E as <- <-. reflexivity.
  - rewrite (proj1 (ownership_history_follows_events _ _ _ _ _ _ E)). reflexivity.
Defined.

End OwnershipHistory.

Section LegalRows.
Import Decimal DecimalFacts.
Local Open Scope Z_scope.

Lemma sumZ_filter {A : Type} (q : A -> Z) (p : A -> bool) (l : list A) :
  sumZ (map q (List.filter p l)) = sumZ (map (fun a => if p a then q a else 0) l).
Proof.
  induction l as [|a l IH]; [reflexivity|]. cbn [List.filter map].
  rewrite sumZ_cons. destruct (p a); [cbn [map]; rewrite sumZ_cons|]; lia.
Qed.

Lemma sumZ_map_nonneg {A : Type} (f : A -> Z) (l : list A) :
  (forall a, In a l -> 0 <= f a) -> 0 <= sumZ (map f l).
Proof.
  intros H. apply sumZ_nonneg. apply List.Forall_forall. intros z Hz.
  apply in_map_iff in Hz as (a & <- & Ha). apply H. exact Ha.
Qed.

Lemma sumZ_map_le {A : Type} (f g : A -> Z) (l : list A) :
  (forall a, In a l -> f a <= g a) -> sumZ (map f l) <= sumZ (map g l).
Proof.
  induction l as [|a l IH]; intros H; [reflexivity|]. cbn [map]. rewrite !sumZ_cons.
  pose proof (H a (or_introl eq_refl)).
  assert (sumZ (map f l) <= sumZ (map g l)) by (apply IH; intros; apply H; right; assumption).
  lia.
Qed.

Lemma sumZ_map_zero {A : Type} (f : A -> Z) (l : list A) :
  (forall a, In a l -> f a = 0) -> sumZ (map f l) = 0.
Proof. intros H. rewrite (sumZ_map_const 0 f l H). lia. Qed.

Lemma sumZ_swap {A B : Type} (g : A -> B -> Z) (la : list A) (lb : list B) :
  sumZ (map (fun a => sumZ (map (g a) lb)) la)
  = sumZ (map (fun b => sumZ (map (fun a => g a b) la)) lb).
Proof.
  induction la as [|a la IH]; cbn [map].
  - change (sumZ []) with 0. symmetry. apply sumZ_map_zero. intros; reflexivity.
  - rewrite sumZ_cons, IH.
    rewrite <- sumZ_map_add. apply sumZ_map_ext. intros b _. rewrite sumZ_cons. reflexivity.
Qed.

Lemma sumZ_omap {A B : Type} (f : A -> option B) (q : B -> Z) (l : list A) :
  sumZ (map q (omap f l))
  = sumZ (map (fun a => match f a with Some b => q b | None => 0 end) l).
Proof.
  induction l as [|a l IH]; [reflexivity|].
  change (omap f (a :: l))
    with (match f a with Some b => b :: omap f l | None => omap f l end).
  cbn [map]. rewrite sumZ_cons.
  destruct (f a); [cbn [map]; rewrite sumZ_cons|]; lia.
Qed.

(** Among people with distinct identifiers, one has a given identifier. *)
Lemma sumZ_unique (people : list Person.t) (k : string) (c : Z) (p : Person.t -> bool) :
  List.NoDup (map Person.id people) -> In k (map Person.id people) ->
  (forall person, Person.id person = k -> p person = true) ->
  sumZ (map (fun person => if p person && String.eqb k (Person.id person) then c else 0)
          people) = c.
Proof.
  intros Hnd Hk Hp. induction people as [|a people IH]; [destruct Hk|].
  cbn [map] in *. rewrite sumZ_cons. apply NoDup_cons_iff in Hnd as [Ha Hnd].
  destruct (String.eqb k (Person.id a)) eqn:E.
  - apply String.eqb_eq in E. rewrite (Hp a (eq_sym E)). cbn [andb].
    rewrite (sumZ_map_const 0).
    + lia.
    + intros b Hb. destruct (String.eqb k (Person.id b)) eqn:Eb.
      * apply String.eqb_eq in Eb. exfalso. apply Ha. rewrite <- E, Eb.
        apply in_map. exact Hb.
      * rewrite andb_false_r. reflexivity.
  - rewrite andb_false_r. apply String.eqb_neq in E.
    destruct Hk as [Hk|Hk]; [congruence|]. rewrite (IH Hnd Hk). lia.
Qed.

Lemma tallyIssued_total (state : CapTableState.t) (l : list SecurityHolding.t) :
  forall (x : Q) (m : gmap string Z) (a : Z),
    (x == inject_Z a)%Q ->
    Forall (fun h => 0 <= SecurityHolding.quantity h) l -> 0 <= a ->
    a + sumZ (map SecurityHolding.quantity l) < maxExact ->
    (fst (fold_left (tallyIssued state) l (x, m))
     == inject_Z (a + sumZ (map SecurityHolding.quantity l)))%Q.
Proof.
  induction l as [|h l IH]; intros x m a Hx Hq Ha Hmax.
  - cbn. change (sumZ []) with 0. rewrite Z.add_0_r. exact Hx.
  - inversion Hq as [|? ? Hh Hl]; subst. cbn [fold_left map] in *.
    rewrite sumZ_cons in *.
    pose proof (sumZ_nonneg (map SecurityHolding.quantity l)) as Hs.
    rewrite Forall_map in Hs. specialize (Hs Hl).
    cbn [tallyIssued].
    rewrite (IH _ _ (a + SecurityHolding.quantity h)); [|apply plus_Z; [exact Hx|lia]
                                                        |exact Hl|lia|lia].
    rewrite Z.add_assoc. reflexivity.
Qed.

Variable state : CapTableState.t.

Hypothesis people_distinct : List.NoDup (map Person.id (CapTableState.people state)).
Hypothesis quantities_nonneg :
  Forall (fun h => 0 <= SecurityHolding.quantity h) (CapTableState.holdings state).
Hypothesis quantities_safe :
  sumZ (map SecurityHolding.quantity (CapTableState.holdings state)) < 2 ^ 53.
Hypothesis holdings_booked :
  Forall (consistently_booked state) (CapTableState.holdings state).

(** The issued shares of a person. *)
Let issuedTo (personId : string) : Z :=
  sumZ (map SecurityHolding.quantity
          (List.filter (is_issued_holding_of personId) (CapTableState.holdings state))).

Lemma issuedTo_range (personId : string) :
  0 <= issuedTo personId
  <= sumZ (map SecurityHolding.quantity (CapTableState.holdings state)).
Proof.
  unfold issuedTo. rewrite sumZ_filter. rewrite List.Forall_forall in quantities_nonneg.
  split.
  - apply sumZ_map_nonneg. intros h Hh. specialize (quantities_nonneg h Hh).
    destruct (is_issued_holding_of personId h); lia.
  - apply sumZ_map_le. intros h Hh. specialize (quantities_nonneg h Hh).
    destruct (is_issued_holding_of personId h); lia.
Qed.

Lemma legalRow_shares (totalLegal : Q) (person : Person.t) :
  match legalRow state totalLegal person with
  | Some row => LegalCapTableRow.totalShares row
  | None => 0
  end
  = if String.eqb (Person.id person) ESOP_POOL_HOLDER_ID then 0
    else issuedTo (Person.id person).
Proof.
  unfold legalRow.
  destruct (String.eqb (Person.id person) ESOP_POOL_HOLDER_ID); [reflexivity|].
  pose proof (issuedTo_range (Person.id person)) as Hr.
  pose proof (tallyIssued_total state
                (List.filter (is_issued_holding_of (Person.id person))
                   (CapTableState.holdings state)) 0%Q ∅ 0) as Ht.
  fold (issuedTo (Person.id person)) in Ht. rewrite Z.add_0_l in Ht.
  destruct (fold_left _ _ _) as [totalShares byClass]. cbn [fst] in Ht.
  assert (Htotal : (totalShares == inject_Z (issuedTo (Person.id person)))%Q).
  { apply Ht; [reflexivity| |lia|unfold maxExact; lia].
    rewrite List.Forall_forall in *. intros h Hh. apply filter_In in Hh as [Hh _].
    apply quantities_nonneg. exact Hh. }
  unfold Decimal.gt. destruct (Qle_bool totalShares 0) eqn:E; cbn [negb].
  - apply Qle_bool_iff in E. rewrite Htotal in E. rewrite <- (Zle_Qle _ 0) in E. lia.
  - cbn [LegalCapTableRow.totalShares]. unfold roundShares.
    rewrite (round_half_up_comp _ _ Htotal), round_half_up_Z.
    apply DoubleFacts.ofZ_safe. lia.
Qed.

Lemma issued_by_person (h : SecurityHolding.t) :
  In h (CapTableState.holdings state) ->
  sumZ (map (fun person =>
               if negb (String.eqb (Person.id person) ESOP_POOL_HOLDER_ID)
                  && is_issued_holding_of (Person.id person) h
               then SecurityHolding.quantity h else 0)
          (CapTableState.people state))
  = issuedQuantity state h.
Proof.
  intros Hh. rewrite List.Forall_forall in holdings_booked.
  destruct (holdings_booked h Hh) as [(sc & Hsc & Htype) Hissued].
  unfold issuedQuantity, is_issued_holding_of. rewrite Hsc, Htype.
  destruct (SecurityHolding.isOption h) eqn:Eo.
  - apply sumZ_map_zero. intros person _. cbn [negb]. rewrite !andb_false_r. reflexivity.
  - destruct (Hissued eq_refl) as [Hpool Hlisted]. cbn [negb].
    rewrite (sumZ_map_ext _
               (fun person =>
                  if negb (String.eqb (Person.id person) ESOP_POOL_HOLDER_ID)
                     && String.eqb (SecurityHolding.holderId h) (Person.id person)
                  then SecurityHolding.quantity h else 0)).
    + apply sumZ_unique; [exact people_distinct|exact Hlisted|].
      intros person E. rewrite E. apply negb_true_iff, String.eqb_neq. exact Hpool.
    + intros person _. rewrite andb_true_r. reflexivity.
Qed.

(** [X20] In a state whose people have distinct identifiers, whose quantities
    are not negative and add up to less than 2^53, and whose holdings are
    booked consistently, the share counts of the rows of the legal cap table add
    up to the total of the table, which is the number of legally issued shares. *)
Theorem legal_cap_table_rows_add_up :
  sumZ (map LegalCapTableRow.totalShares (LegalCapTable.rows (buildLegalCapTable state)))
  = LegalCapTable.totalShares (buildLegalCapTable state)
  /\ LegalCapTable.totalShares (buildLegalCapTable state)
     = sumZ (map (issuedQuantity state) (CapTableState.holdings state)).
Proof.
  assert (Htotal : LegalCapTable.totalShares (buildLegalCapTable state)
                   = sumZ (map (issuedQuantity state) (CapTableState.holdings state))).
  { change (LegalCapTable.totalShares (buildLegalCapTable state))
      with (roundShares (Metrics.legalIssuedShares (calculatePreRoundMetrics state))).
    destruct (tally_exact state (CapTableState.holdings state) (Metrics.mk 0 0) 0 0
                quantities_nonneg) as [_ H2];
      try reflexivity; try (unfold maxExact; lia).
    rewrite Z.add_0_l in H2.
    assert (H2' : (Metrics.legalIssuedShares (calculatePreRoundMetrics state)
                   == inject_Z (sumZ (map (issuedQuantity state)
                                        (CapTableState.holdings state))))%Q)
      by exact H2.
    unfold roundShares. rewrite (round_half_up_comp _ _ H2'), round_half_up_Z.
    apply DoubleFacts.ofZ_safe.
    assert (Hlow : 0 <= sumZ (map (issuedQuantity state) (CapTableState.holdings state))).
    { apply sumZ_map_nonneg. intros h Hh. rewrite List.Forall_forall in quantities_nonneg.
      apply issuedQuantity_range, quantities_nonneg. exact Hh. }
    assert (Hhigh : sumZ (map (issuedQuantity state) (CapTableState.holdings state))
                    <= sumZ (map SecurityHolding.quantity (CapTableState.holdings state))).
    { apply sumZ_map_le. intros h Hh. rewrite List.Forall_forall in quantities_nonneg.
      apply issuedQuantity_range, quantities_nonneg. exact Hh. }
    lia. }
  split; [|exact Htotal]. rewrite Htotal.
  change (LegalCapTable.rows (buildLegalCapTable state))
    with (sort (fun a b => LegalCapTableRow.totalShares a
                           <? LegalCapTableRow.totalShares b)
            (omap (legalRow state
                     (Metrics.legalIssuedShares (calculatePreRoundMetrics state)))
               (CapTableState.people state))).
  rewrite (sumZ_perm _ _ (Permutation_map _ (sort_perm _ _))).
  rewrite sumZ_omap.
  rewrite (sumZ_map_ext _
             (fun person =>
                sumZ (map (fun h =>
                             if negb (String.eqb (Person.id person) ESOP_POOL_HOLDER_ID)
                                && is_issued_holding_of (Person.id person) h
                             then SecurityHolding.quantity h else 0)
                        (CapTableState.holdings state)))).
  - rewrite sumZ_swap. apply sumZ_map_ext. intros h Hh. apply issued_by_person. exact Hh.
  - intros person _. rewrite legalRow_shares.
    destruct (String.eqb (Person.id person) ESOP_POOL_HOLDER_ID); cbn [negb andb].
    + symmetry. apply sumZ_map_zero. intros; reflexivity.
    + unfold issuedTo. apply sumZ_filter.
Qed.

End LegalRows.

Section LegalRowsWitness.
Local Open Scope Z_scope.

(** On 9,000,000 founder shares and a pool of 1,000,000 options. *)
Lemma legal_cap_table_rows_add_up_witness :
  sumZ (map LegalCapTableRow.totalShares
          (LegalCapTable.rows (buildLegalCapTable pool_state)))
  = LegalCapTable.totalShares (buildLegalCapTable pool_state)
  /\ LegalCapTable.totalShares (buildLegalCapTable pool_state) = 9000000.
Proof.
  apply (legal_cap_table_rows_add_up pool_state).
  - repeat constructor; cbn; intuition discriminate.
  - repeat constructor; vm_compute; discriminate.
  - vm_compute. reflexivity.
  - repeat apply List.Forall_cons; [| |apply List.Forall_nil].
    + split.
      * exists commonClass. split; reflexivity.
      * intros _. split; [discriminate|]. left. reflexivity.
    + split.
      * exists optionsClass. split; reflexivity.
      * discriminate.
Defined.

(** From 2^53 shares on the total of the table, a double, can miss the sum
    of its rows: holdings of 2^53 shares and of one share make a table of
    2^53 shares. *)
Example legal_cap_table_beyond_safe_integers :
  map LegalCapTableRow.totalShares
    (LegalCapTable.rows (buildLegalCapTable large_holdings_state)) = [2 ^ 53; 1]
  /\ LegalCapTable.totalShares (buildLegalCapTable large_holdings_state) = 2 ^ 53.
Proof. split; vm_compute; reflexivity. Qed.

End LegalRowsWitness.

(** * Local storage provider *)

Section Store.
Import localStorageProvider.
Local Open Scope Z_scope.

Lemma find_filter_keeps {A : Type} (p q : A -> bool) (l : list A) :
  (forall a, p a = true -> q a = true) ->
  find p (List.filter q l) = find p l.
Proof.
  intros H. induction l as [|a l IH]; [reflexivity|].
  cbn [List.filter]. unfold find in *. destruct (q a) eqn:Eq.
  - cbn [find_index]. destruct (p a); [reflexivity|].
    destruct (find_index p (List.filter q l)) as [[i x]|];
      destruct (find_index p l) as [[j y]|]; cbn in *; congruence.
  - cbn [find_index]. destruct (p a) eqn:Ep.
    + rewrite (H a Ep) in Eq. discriminate.
    + rewrite IH. destruct (find_index p l) as [[j y]|]; reflexivity.
Qed.

Lemma find_filter_drops {A : Type} (p q : A -> bool) (l : list A) :
  (forall a, p a = true -> q a = false) -> find p (List.filter q l) = None.
Proof.
  intros H. induction l as [|a l IH]; [reflexivity|].
  cbn [List.filter]. destruct (q a) eqn:Eq; [|exact IH].
  unfold find in *. cbn [find_index]. destruct (p a) eqn:Ep.
  - rewrite (H a Ep) in Eq. discriminate.
  - destruct (find_index p (List.filter q l)) as [[i x]|]; [discriminate|reflexivity].
Qed.

Lemma filter_ext_in {A : Type} (p q : A -> bool) (l : list A) :
  (forall a, In a l -> p a = q a) -> List.filter p l = List.filter q l.
Proof.
  induction l as [|a l IH]; intros H; [reflexivity|]. cbn.
  rewrite (H a (or_introl eq_refl)), IH; [reflexivity|].
  intros b Hb. apply H. right. exact Hb.
Qed.

Lemma filter_none {A : Type} (p : A -> bool) (l : list A) :
  (forall a, In a l -> p a = false) -> List.filter p l = [].
Proof.
  induction l as [|a l IH]; intros H; [reflexivity|]. cbn.
  rewrite (H a (or_introl eq_refl)). apply IH. intros b Hb. apply H. right. exact Hb.
Qed.

Let by_stored_date (a b : StoredEvent.t) : bool :=
  EventBase.date (StoredEvent.event b) <? EventBase.date (StoredEvent.event a).

(** [X25] [getEvents] returns the stored events of the company and no other, in
    ascending order of their dates; the replay, which sorts its events the same
    way, reads them in the order in which they are returned. *)
Theorem stored_events_are_returned_by_date (companyId : string) (ls : LocalStorage.t) :
  let events := getEvents companyId ls in
  Forall (fun e => EventBase.companyId (StoredEvent.event e) = companyId) events
  /\ Permutation events
       (List.filter
          (fun e => String.eqb (EventBase.companyId (StoredEvent.event e)) companyId)
          (getLocalData (LocalStorage.captable_events ls)))
  /\ StronglySorted
       (fun a b => EventBase.date (StoredEvent.event a)
                   <= EventBase.date (StoredEvent.event b)) events
  /\ sort by_date (map StoredEvent.event events) = map StoredEvent.event events.
Proof.
  intros events. subst events. unfold getEvents.
  set (stored := List.filter _ _).
  assert (Hsorted : StronglySorted
                      (fun a b => EventBase.date (StoredEvent.event a)
                                  <= EventBase.date (StoredEvent.event b))
                      (sort by_stored_date stored))
    by apply (ascending_sorted (fun e => EventBase.date (StoredEvent.event e))).
  split; [|split; [|split]].
  - apply List.Forall_forall. intros e He.
    apply (Permutation_in _ (sort_perm _ _)) in He.
    apply filter_In in He as [_ He]. apply String.eqb_eq. exact He.
  - apply sort_perm.
  - exact Hsorted.
  - apply sort_of_sorted.
    fold by_stored_date. induction Hsorted as [|e l Hl IH He]; cbn [map]; constructor.
    + exact IH.
    + rewrite Forall_map. eapply Forall_impl; [exact He|].
      intros e' H. cbn. unfold by_date. apply Z.ltb_ge. exact H.
Qed.

(** [X26] A created event is stored under a fresh identifier with the company,
    the date, the label and the payload given, and stamped with the time of its
    creation.  It joins the events that [getEvents] returns for its company; the
    events of the other companies and the companies stay as they are. *)
Theorem created_event_is_stored
    (companyId : string) (data : NewEvent.t) (now : string) (ls : LocalStorage.t)
    (uuid : nat -> string) (n : nat) :
  exists event ls',
    createEvent companyId data now ls uuid n = Ok ((event, ls'), S n)
    /\ StoredEvent.event event
       = EventBase.mk (uuid n) companyId (NewEvent.date data) (NewEvent.label data)
           (NewEvent.data data)
    /\ StoredEvent.createdAt event = Some now
    /\ StoredEvent.updatedAt event = Some now
    /\ Permutation (getEvents companyId ls') (event :: getEvents companyId ls)
    /\ (forall other, other <> companyId -> getEvents other ls' = getEvents other ls)
    /\ getCompanies ls' = getCompanies ls.
Proof.
  unfold createEvent, bind, uuidv4, ret. cbn zeta.
  eexists _, _. split; [reflexivity|]. cbn [StoredEvent.event StoredEvent.createdAt
                                             StoredEvent.updatedAt].
  split; [reflexivity|]. split; [reflexivity|]. split; [reflexivity|].
  unfold getEvents, setEvents. cbn [LocalStorage.captable_events getLocalData].
  rewrite !List.filter_app. cbn [List.filter StoredEvent.event EventBase.companyId].
  split; [|split].
  - rewrite (proj2 (String.eqb_eq companyId companyId) eq_refl). rewrite !sort_perm.
    symmetry. apply Permutation_cons_append.
  - intros other Hother. apply String.eqb_neq in Hother.
    rewrite List.filter_app. cbn [List.filter StoredEvent.event EventBase.companyId].
    rewrite String.eqb_sym, Hother, app_nil_r. reflexivity.
  - reflexivity.
Qed.

(** [X30] Deleting a company deletes its events with it: afterwards the company
    is not found and has no events, while every other company and its events are
    found as before. *)
Theorem deleted_company_takes_its_events (id : string) (ls : LocalStorage.t) :
  let ls' := deleteCompany id ls in
  getCompany id ls' = None
  /\ getEvents id ls' = []
  /\ (forall other, other <> id ->
        getCompany other ls' = getCompany other ls
        /\ getEvents other ls' = getEvents other ls).
Proof.
  intros ls'. subst ls'. unfold deleteCompany, getCompany, getEvents, setCompanies, setEvents.
  cbn [LocalStorage.captable_companies LocalStorage.captable_events getLocalData].
  split; [|split].
  - apply find_filter_drops. intros c Hc. rewrite Hc. reflexivity.
  - rewrite filter_filter_and. rewrite filter_none; [reflexivity|].
    intros e _. destruct (String.eqb _ id); reflexivity.
  - intros other Hother. split.
    + apply find_filter_keeps. intros c Hc. apply String.eqb_eq in Hc.
      apply negb_true_iff, String.eqb_neq. congruence.
    + f_equal. rewrite filter_filter_and. apply filter_ext_in. intros e _.
      destruct (String.eqb (EventBase.companyId (StoredEvent.event e)) other) eqn:E;
        [|apply andb_false_r].
      apply String.eqb_eq in E. rewrite andb_true_r.
      apply negb_true_iff, String.eqb_neq. congruence.
Qed.

Lemma find_index_insert_same {A : Type} (p : A -> bool) (l : list A) (i : nat)
    (x x' : A) :
  find_index p l = Some (i, x) -> p x' = true ->
  find_index p (<[i := x']> l) = Some (i, x').
Proof.
  revert i. induction l as [|y l IH]; intros i H Hx'; cbn in H; [discriminate|].
  destruct (p y) eqn:Hy.
  - injection H as <- <-. cbn. rewrite Hx'. reflexivity.
  - destruct (find_index p l) as [[j z]|] eqn:E; [|discriminate].
    injection H as <- <-.
    change (<[S j := x']> (y :: l)) with (y :: <[j := x']> l).
    cbn [find_index]. rewrite Hy, (IH j eq_refl Hx'). reflexivity.
Qed.

Lemma find_find_index {A : Type} (p : A -> bool) (l : list A) (x : A) :
  find p l = Some x <-> exists i, find_index p l = Some (i, x).
Proof.
  unfold find. destruct (find_index p l) as [[i y]|]; cbn; split.
  - intros H. injection H as <-. exists i. reflexivity.
  - intros [j H]. injection H as _ <-. reflexivity.
  - discriminate.
  - intros [j H]. discriminate.
Qed.

(** [X29] Updating a company that is not stored throws and stores nothing.  For
    a stored company the update overwrites the fields that the patch holds,
    stamps the time of the update and keeps the company at its place among the
    others; with a patch that holds no identifier the company is then found
    updated under its identifier, and every other company is found as before. *)
Theorem update_company_patches_in_place
    (id : string) (data : CompanyPatch.t) (now : string) (ls : LocalStorage.t) :
  (getCompany id ls = None ->
   updateCompany id data now ls = Throw "Company not found")
  /\ (forall company,
        getCompany id ls = Some company ->
        exists ls',
          updateCompany id data now ls = Ok (patchCompany company data now, ls')
          /\ Company.updatedAt (patchCompany company data now) = Some now
          /\ length (getCompanies ls') = length (getCompanies ls)
          /\ getEvents id ls' = getEvents id ls
          /\ (CompanyPatch.id data = None ->
              getCompany id ls' = Some (patchCompany company data now)
              /\ forall other, other <> id ->
                   getCompany other ls' = getCompany other ls)).
Proof.
  unfold updateCompany, getCompany, getCompanies. split.
  - intros H. unfold find in H.
    destruct (find_index _ _) as [[i c]|]; [discriminate|reflexivity].
  - intros company H. apply find_find_index in H as [i H]. rewrite H.
    pose proof (find_index_Some _ _ _ _ H) as [Hi Hid].
    eexists. split; [reflexivity|]. split; [reflexivity|].
    cbn [setCompanies LocalStorage.captable_companies getLocalData].
    split; [apply length_insert|]. split; [reflexivity|].
    intros Hpatch.
    assert (Hsame : Company.id (patchCompany company data now) = Company.id company)
      by (cbn; rewrite Hpatch; reflexivity).
    split.
    + apply find_find_index. exists i. apply (find_index_insert_same _ _ _ company).
      * exact H.
      * rewrite Hsame. exact Hid.
    + intros other Hother. unfold find. f_equal.
      apply (find_index_insert_false _ _ _ company); [exact Hi| |].
      * apply String.eqb_eq in Hid. apply String.eqb_neq. congruence.
      * rewrite Hsame. apply String.eqb_eq in Hid. apply String.eqb_neq. congruence.
Qed.

(** Renaming the second of two companies. *)
Lemma update_company_patches_in_place_witness :
  exists ls',
    updateCompany "company-2" (rename "Globex Corporation") "t3" two_companies
    = Ok (patchCompany globex (rename "Globex Corporation") "t3", ls')
    /\ getCompany "company-1" ls' = Some acme.
Proof.
  destruct (proj2 (update_company_patches_in_place "company-2"
                     (rename "Globex Corporation") "t3" two_companies) globex eq_refl)
    as (ls' & E & _ & _ & _ & H).
  exists ls'. split; [exact E|].
  destruct (H eq_refl) as [_ Hother]. rewrite Hother; [reflexivity|discriminate].
Defined.

(** [X28] A created company is stored after the others under a fresh identifier,
    named ["New Company"] and valued in ["USD"] where the data give no name and
    no currency; it is found under its identifier provided that no stored
    company bears it already. *)
Theorem created_company_is_stored
    (data : CompanyPatch.t) (now : string) (ls : LocalStorage.t)
    (uuid : nat -> string) (n : nat) :
  exists company ls',
    createCompany data now ls uuid n = Ok ((company, ls'), S n)
    /\ Company.id company = uuid n
    /\ Company.name company = or_default_string (CompanyPatch.name data) "New Company"
    /\ Company.baseCurrency company
       = or_default_string (CompanyPatch.baseCurrency data) "USD"
    /\ getCompanies ls' = getCompanies ls ++ [company]
    /\ hasLocalData ls' = true
    /\ (getCompany (uuid n) ls = None -> getCompany (uuid n) ls' = Some company)
    /\ (forall id, getEvents id ls' = getEvents id ls).
Proof.
  unfold createCompany, bind, uuidv4, ret. cbn zeta.
  eexists _, _. split; [reflexivity|]. cbn [Company.id Company.name Company.baseCurrency].
  split; [reflexivity|]. split; [reflexivity|]. split; [reflexivity|].
  split; [reflexivity|].
  unfold hasLocalData, getCompany, setCompanies.
  cbn [LocalStorage.captable_companies getLocalData].
  split; [|split].
  - rewrite length_app. cbn. destruct (length _); reflexivity.
  - intros H. unfold find in *.
    destruct (find_index _ (getLocalData _)) as [[i c]|] eqn:E; [discriminate|].
    rewrite (find_index_app_new _ _ _ E); [reflexivity|]. cbn. apply String.eqb_refl.
  - intros id. reflexivity.
Qed.

End Store.

Section DeleteEvent.
Import localStorageProvider.
Local Open Scope Z_scope.

(** [X27] Deleting an event removes the events that bear the identifier, and
    those only: what [getEvents] returns afterwards are the events that it
    returned before, less the ones with that identifier.  The companies are
    untouched, and deleting again changes nothing. *)
Theorem deleted_event_is_gone (eventId : string) (ls : LocalStorage.t) :
  let ls' := deleteEvent eventId ls in
  (forall companyId e,
     In e (getEvents companyId ls')
     <-> In e (getEvents companyId ls) /\ EventBase.id (StoredEvent.event e) <> eventId)
  /\ getCompanies ls' = getCompanies ls
  /\ deleteEvent eventId ls' = ls'.
Proof.
  intros ls'. subst ls'. unfold deleteEvent, getEvents, getCompanies, setEvents.
  cbn [LocalStorage.captable_companies LocalStorage.captable_events getLocalData].
  split; [|split].
  - intros companyId e. split.
    + intros H. apply (Permutation_in _ (sort_perm _ _)) in H.
      apply filter_In in H as [H Hc]. apply filter_In in H as [H Hid].
      split.
      * apply (Permutation_in _ (Permutation_sym (sort_perm _ _))).
        apply filter_In. split; assumption.
      * apply String.eqb_neq, negb_true_iff. exact Hid.
    + intros [H Hid]. apply (Permutation_in _ (sort_perm _ _)) in H.
      apply filter_In in H as [H Hc].
      apply (Permutation_in _ (Permutation_sym (sort_perm _ _))).
      apply filter_In. split; [|exact Hc]. apply filter_In. split; [exact H|].
      apply negb_true_iff, String.eqb_neq. exact Hid.
  - reflexivity.
  - f_equal. f_equal. rewrite filter_filter_and. apply filter_ext_in.
    intros e _. apply andb_diag.
Qed.

End DeleteEvent.

(** * The state at the end of a replay *)

Section FinalState.
Local Open Scope Z_scope.

Lemma replay_stamps (l : list EventBase.t) :
  forall (r0 r : Replay.t) (uuid : nat -> string) (n n' : nat),
    foldM (fun (r : Replay.t) event =>
             state <- applyEvent (Replay.finalState r) event ;;
             ret (Replay.mk state
                    (Replay.snapshots r ++
                     [Snapshot.mk (EventBase.id event) (EventBase.date event)
                        (EventBase.label event) (cloneState state)])))
          r0 l uuid n = Ok (r, n') ->
    CapTableState.companyId (Replay.finalState r)
    = CapTableState.companyId (Replay.finalState r0)
    /\ match last l with
       | Some event =>
           CapTableState.asOfEventId (Replay.finalState r) = Some (EventBase.id event)
           /\ CapTableState.asOfDate (Replay.finalState r) = Some (EventBase.date event)
       | None => Replay.finalState r = Replay.finalState r0
       end.
Proof.
  induction l as [|e l IH]; intros r0 r uuid n n' H; cbn [foldM] in H.
  - injection H as <- <-. split; reflexivity.
  - apply bind_Ok in H as (r1 & n1 & H1 & H).
    apply bind_Ok in H1 as (s1 & n2 & H1 & Hr1). injection Hr1 as <- <-.
    destruct (applyEvent_grows _ _ _ _ _ _ H1) as (Hc & He & Hd & _).
    destruct (IH _ _ _ _ _ H) as [Hc' Hlast].
    cbn [Replay.finalState CapTableState.set_asOf CapTableState.companyId
         CapTableState.asOfEventId CapTableState.asOfDate] in Hc', Hlast, Hc, He, Hd.
    split; [congruence|].
    destruct l as [|e' l].
    + cbn [last] in Hlast |- *. rewrite Hlast. split; assumption.
    + change (last (e :: e' :: l)) with (last (e' :: l)).
      destruct (last (e' :: l)) eqn:El; [exact Hlast|].
      apply last_None in El. discriminate.
Qed.

(** [X10] The state at the end of a replay is a state of the company given,
    stamped with the identifier and the date of the latest event; without events
    it is the initial state, which bears no stamp. *)
Theorem replay_ends_at_latest_event
    (companyId : string) (events : list EventBase.t) (uuid : nat -> string) (n n' : nat)
    (r : Replay.t) :
  replayAllEvents companyId events uuid n = Ok (r, n') ->
  CapTableState.companyId (Replay.finalState r) = companyId
  /\ match last (sort by_date events) with
     | Some event =>
         CapTableState.asOfEventId (Replay.finalState r) = Some (EventBase.id event)
         /\ CapTableState.asOfDate (Replay.finalState r) = Some (EventBase.date event)
         /\ Forall (fun e => EventBase.date e <= EventBase.date event) events
     | None => events = [] /\ Replay.finalState r = createInitialState companyId
     end.
Proof.
  intros H. unfold replayAllEvents in H.
  destruct (replay_stamps _ _ _ _ _ _ H) as [Hc Hlast]. cbn in Hc.
  split; [exact Hc|].
  change (sort (fun a b => EventBase.date b <? EventBase.date a) events)
    with (sort by_date events) in Hlast.
  pose proof (ascending_sorted EventBase.date events) as Hsorted.
  pose proof (sort_perm by_date events) as Hperm.
  change (sort (fun a b => EventBase.date b <? EventBase.date a) events)
    with (sort by_date events) in Hsorted.
  destruct (last (sort by_date events)) as [event|] eqn:El.
  - destruct Hlast as [H1 H2]. split; [exact H1|]. split; [exact H2|].
    eapply Permutation_Forall; [exact Hperm|].
    apply last_Some in El as [l' El]. rewrite El in Hsorted |- *.
    clear -Hsorted. induction l' as [|x l' IH]; cbn in *.
    + constructor; [lia|constructor].
    + inversion Hsorted as [|? ? Hs Hx]; subst. constructor; [|apply IH; exact Hs].
      rewrite List.Forall_forall in Hx. apply Hx. apply in_or_app. right. left. reflexivity.
  - apply last_None in El. split; [|exact Hlast].
    rewrite El in Hperm. apply Permutation_nil in Hperm. exact Hperm.
Qed.

(** On a grant, an incorporation and a pool creation given out of order. *)
Lemma replay_ends_at_latest_event_witness :
  exists r,
    replayAllEvents "company-1" [grant_event; incorporation_event; pool_event]
      numbered_uuid 0%nat = Ok (r, 7%nat)
    /\ CapTableState.companyId (Replay.finalState r) = "company-1"%string.
Proof.
  destruct (replayAllEvents "company-1" [grant_event; incorporation_event; pool_event]
              numbered_uuid 0%nat) as [[r k]| |] eqn:E;
    [|vm_compute in E; discriminate..].
  exists r. split.
  - vm_compute in E. injection E as <- <-. reflexivity.
  - apply (replay_ends_at_latest_event _ _ _ _ _ _ E).
Defined.

End FinalState.

(** * SAFEs in a priced round *)

Section RoundConversion.
Local Open Scope Z_scope.

Variable event : EventBase.t.

Hypothesis event_id : EventBase.id event <> ""%string.

(** The SAFEs after the conversion of the first SAFE that bears [safeId]. *)
Let convertFirst (safes : list SAFE.t) (safeId : string) : list SAFE.t :=
  match find_index (fun s => String.eqb (SAFE.id s) safeId) safes with
  | Some (i, safe) =>
      if unconverted safe
      then <[i := SAFE.set_convertedInEventId safe (EventBase.id event)]> safes
      else safes
  | None => safes
  end.

(** The conversion of the outstanding SAFEs that bear one of [ids]. *)
Let converted (ids : list string) (s : SAFE.t) : SAFE.t :=
  if unconverted s && bool_decide (SAFE.id s ∈ ids)
  then SAFE.set_convertedInEventId s (EventBase.id event)
  else s.

Lemma converted_is_converted (s : SAFE.t) :
  unconverted (SAFE.set_convertedInEventId s (EventBase.id event)) = false.
Proof.
  unfold unconverted. cbn. apply String.eqb_neq in event_id. rewrite event_id. reflexivity.
Qed.

Lemma converted_other (ids : list string) (i : string) (s : SAFE.t) :
  SAFE.id s <> i -> converted (i :: ids) s = converted ids s.
Proof.
  intros H. unfold converted.
  rewrite (bool_decide_ext (SAFE.id s ∈ i :: ids) (SAFE.id s ∈ ids)); [reflexivity|].
  rewrite elem_of_cons. intuition congruence.
Qed.

Lemma convertFirst_ids (safes : list SAFE.t) (i : string) :
  map SAFE.id (convertFirst safes i) = map SAFE.id safes.
Proof.
  unfold convertFirst.
  destruct (find_index _ safes) as [[k x]|] eqn:E; [|reflexivity].
  destruct (unconverted x); [|reflexivity].
  apply find_index_lookup in E. clear -E.
  revert k E. induction safes as [|y l IH]; intros [|k] E; try discriminate.
  - injection E as ->. reflexivity.
  - change (<[S k := SAFE.set_convertedInEventId x (EventBase.id event)]> (y :: l))
      with (y :: <[k := SAFE.set_convertedInEventId x (EventBase.id event)]> l).
    cbn [map]. rewrite (IH k E). reflexivity.
Qed.

Lemma convertFirst_converted (safes : list SAFE.t) (i : string) (ids : list string) :
  List.NoDup (map SAFE.id safes) ->
  map (converted ids) (convertFirst safes i) = map (converted (i :: ids)) safes.
Proof.
  unfold convertFirst. induction safes as [|y l IH]; intros Hnd; [reflexivity|].
  cbn [map] in Hnd. apply NoDup_cons_iff in Hnd as [Hy Hnd]. cbn [find_index].
  destruct (String.eqb (SAFE.id y) i) eqn:E.
  - apply String.eqb_eq in E.
    assert (Hrest : map (converted ids) l = map (converted (i :: ids)) l).
    { apply map_ext_in. intros z Hz. symmetry. apply converted_other.
      intros Ez. apply Hy. rewrite E, <- Ez. apply in_map. exact Hz. }
    destruct (unconverted y) eqn:Eu.
    + change (<[0%nat := SAFE.set_convertedInEventId y (EventBase.id event)]> (y :: l))
        with (SAFE.set_convertedInEventId y (EventBase.id event) :: l).
      cbn [map]. rewrite Hrest. f_equal.
      unfold converted. rewrite converted_is_converted, Eu. cbn [andb].
      rewrite bool_decide_eq_true_2 by (apply elem_of_cons; left; exact E). reflexivity.
    + cbn [map]. rewrite Hrest. f_equal. unfold converted. rewrite Eu. reflexivity.
  - apply String.eqb_neq in E. specialize (IH Hnd).
    destruct (find_index _ l) as [[k x]|].
    + destruct (unconverted x).
      * change (<[S k := SAFE.set_convertedInEventId x (EventBase.id event)]> (y :: l))
          with (y :: <[k := SAFE.set_convertedInEventId x (EventBase.id event)]> l).
        cbn [map]. rewrite IH, (converted_other ids i y E). reflexivity.
      * cbn [map] in *. rewrite IH, (converted_other ids i y E). reflexivity.
    + cbn [map] in *. rewrite IH, (converted_other ids i y E). reflexivity.
Qed.

Lemma convertSAFE_safes (pricePerShare preRoundFD : Q) (preferredClassId : string)
    (s : CapTableState.t) (safeId : string) :
  ensures (convertSAFE event pricePerShare preRoundFD preferredClassId s safeId)
    (fun s' => CapTableState.safes s' = convertFirst (CapTableState.safes s) safeId).
Proof.
  unfold convertSAFE, convertFirst, find_safe.
  destruct (find_index _ _) as [[i safe]|]; [|apply ensures_ret; reflexivity].
  destruct (unconverted safe); cbn [negb]; [|apply ensures_ret; reflexivity].
  apply ensures_bind_any. intros conversionResult.
  apply ensures_bind_any. intros id. apply ensures_ret.
  cbn [CapTableState.safes CapTableState.set_safes push_holding
       CapTableState.set_holdings].
  destruct (add_person_fields s
              (Person.mk (SAFE.investorId safe)
                 (or_default_string (SAFE.investorName safe) "SAFE Investor") INVESTOR))
    as (_ & _ & _ & ->).
  reflexivity.
Qed.

Lemma convert_all (pricePerShare preRoundFD : Q) (preferredClassId : string)
    (ids : list string) :
  forall s : CapTableState.t,
    List.NoDup (map SAFE.id (CapTableState.safes s)) ->
    ensures (foldM (convertSAFE event pricePerShare preRoundFD preferredClassId) s ids)
      (fun s' => CapTableState.safes s' = map (converted ids) (CapTableState.safes s)).
Proof.
  induction ids as [|i ids IH]; intros s Hnd; cbn [foldM].
  - apply ensures_ret. symmetry. rewrite <- (map_id (CapTableState.safes s)) at 2.
    apply map_ext. intros x. unfold converted.
    rewrite bool_decide_eq_false_2 by apply not_elem_of_nil.
    rewrite andb_false_r. reflexivity.
  - eapply ensures_bind; [apply convertSAFE_safes|].
    intros s1 Hs1. cbn beta in Hs1.
    intros uuid n s' n' H.
    assert (Hnd1 : List.NoDup (map SAFE.id (CapTableState.safes s1)))
      by (rewrite Hs1, convertFirst_ids; exact Hnd).
    rewrite (IH s1 Hnd1 _ _ _ _ H), Hs1. apply convertFirst_converted. exact Hnd.
Qed.

(** [X14] A priced round that names no SAFE converts every outstanding SAFE:
    with SAFEs whose identifiers are pairwise distinct and an event whose
    identifier is not empty, the SAFEs after the round are those of before in
    which every outstanding one bears the event as its conversion, so that none
    is outstanding any more. *)
Theorem priced_round_converts_outstanding_safes
    (state : CapTableState.t) (data : PricedRoundEventData.t)
    (uuid : nat -> string) (n n' : nat) (state' : CapTableState.t) :
  PricedRoundEventData.safesToConvert data = None ->
  List.NoDup (map SAFE.id (CapTableState.safes state)) ->
  applyPricedRound state event data uuid n = Ok (state', n') ->
  CapTableState.safes state'
  = map (fun s => if unconverted s
                  then SAFE.set_convertedInEventId s (EventBase.id event) else s)
      (CapTableState.safes state)
  /\ Forall (fun s => unconverted s = false) (CapTableState.safes state').
Proof.
  intros Hnone Hnd H.
  set (target := map (fun s => if unconverted s
                               then SAFE.set_convertedInEventId s (EventBase.id event)
                               else s)
                   (CapTableState.safes state)).
  assert (Htarget : CapTableState.safes state' = target).
  { revert uuid n state' n' H.
    change (ensures (applyPricedRound state event data)
              (fun s' => CapTableState.safes s' = target)).
    unfold applyPricedRound. rewrite Hnone.
    apply ensures_bind_any. intros pricePerShare.
    eapply (ensures_bind _ _ (fun created => CapTableState.safes (fst created)
                                             = CapTableState.safes state)).
    { destruct (_ || _).
      - apply ensures_bind_any. intros preferredClassId. apply ensures_ret. reflexivity.
      - apply ensures_ret. reflexivity. }
    intros [s1 preferredClassId] Hs1. cbn [fst] in Hs1.
    eapply (ensures_bind _ _ (fun s2 => CapTableState.safes s2 = target)).
    { intros u k s2 k2 H2.
      rewrite (convert_all _ _ _ _ s1 ltac:(rewrite Hs1; exact Hnd) _ _ _ _ H2), Hs1.
      subst target. apply map_ext_in. intros x Hx. unfold converted.
      destruct (unconverted x) eqn:Eu; [|reflexivity]. cbn [andb].
      rewrite bool_decide_eq_true_2; [reflexivity|].
      apply list_elem_of_In, in_map, filter_In. split; assumption. }
    intros s2 Hs2. apply ensures_bind_any. intros totalNewShares.
    eapply (ensures_bind _ _ (fun s3 => CapTableState.safes s3 = target)).
    { destruct (_ && _); [|apply ensures_ret; exact Hs2].
      apply (ensures_foldM _ (fun s3 => CapTableState.safes s3 = target)); [|exact Hs2].
      intros s investor _ Hs. apply ensures_bind_any. intros id. apply ensures_ret.
      cbn [CapTableState.safes push_holding CapTableState.set_holdings].
      destruct (add_person_fields s
                  (Person.mk (Investor.personId investor) (Investor.name investor)
                     INVESTOR)) as (_ & _ & _ & ->).
      exact Hs. }
    intros s3 Hs3.
    destruct (PricedRoundEventData.esopTargetPercent data) as [esopTargetPercent|];
      [|apply ensures_ret; exact Hs3].
    destruct (Qeq_bool esopTargetPercent 0); [apply ensures_ret; exact Hs3|].
    destruct (find _ _); [|apply ensures_ret; exact Hs3].
    apply ensures_lift. intros s4 H4. unfold topUpPool in H4.
    destruct (calculateESOPExtension _ _ _) as [extension| |]; cbn in H4; try discriminate.
    destruct (0 <? extension); [|injection H4 as <-; exact Hs3].
    destruct (find_index _ _) as [[i h]|]; injection H4 as <-; [|exact Hs3].
    unfold add_quantity. destruct (_ !! i); exact Hs3. }
  split; [exact Htarget|]. rewrite Htarget. subst target.
  apply List.Forall_forall. intros x Hx. apply in_map_iff in Hx as (y & <- & _).
  destruct (unconverted y) eqn:Eu; [apply converted_is_converted|exact Eu].
Qed.

End RoundConversion.

Section RoundConversionWitness.
Local Open Scope Z_scope.

(** The SAFE of scenario B in a round at $1.00 a share. *)
Lemma priced_round_converts_outstanding_safes_witness :
  exists state' n',
    applyEvent safe_state round_at_1 numbered_uuid 0%nat = Ok (state', n')
    /\ Forall (fun s => unconverted s = false) (CapTableState.safes state')
    /\ map SecurityHolding.quantity (CapTableState.holdings state')
       = [10000000; 1000000; 1000000].
Proof.
  destruct (applyEvent safe_state round_at_1 numbered_uuid 0%nat)
    as [[state' k]| |] eqn:E; [|vm_compute in E; discriminate..].
  exists state', k. split; [reflexivity|]. split.
  - unfold applyEvent in E. cbn [EventBase.data round_at_1] in E.
    match type of E with
    | applyPricedRound ?s ?e ?d ?u ?n = Ok (?s', ?n') =>
        apply (proj2 (priced_round_converts_outstanding_safes e ltac:(discriminate)
                        s d u n n' s' eq_refl
                        ltac:(repeat constructor; cbn; intuition) E))
    end.
  - vm_compute in E. injection E as <- <-. reflexivity.
Defined.

End RoundConversionWitness.

(** * The rows of the exit waterfall *)

Section ExitRows.
Import Decimal DecimalFacts.
Local Open Scope Q_scope.

(** Amounts in cents below 2^46 read as numbers in their order. *)
Lemma cents_read_in_order (x y : Q) :
  is_cents x -> is_cents y ->
  Qabs x < inject_Z (2 ^ 46) -> Qabs y < inject_Z (2 ^ 46) ->
  Extended.lt (parseFloat x) (parseFloat y) = false -> y <= x.
Proof.
  intros [v Hv] [u Hu] Hx Hy H.
  rewrite DoubleFacts.two_inject in Hx, Hy by lia.
  unfold parseFloat in H.
  rewrite (DoubleFacts.ofQ_finite x 46), (DoubleFacts.ofQ_finite y 46) in H
    by (try lia; assumption).
  cbn [Extended.lt] in H. apply lt_false in H.
  pose proof (DoubleFacts.round_error_below x 46 ltac:(lia) Hx) as Ex.
  pose proof (DoubleFacts.round_error_below y 46 ltac:(lia) Hy) as Ey.
  change (Double.two ^ (46 - 53) * (1 # 2)) with (1 # 256) in Ex, Ey.
  apply Qnot_lt_le. intros Hlt.
  assert (Hvu : (v < u)%Z).
  { rewrite Zlt_Qlt, <- Hv, <- Hu. lra. }
  assert (Hstep : (v + 1 <= u)%Z) by lia.
  rewrite Zle_Qle, inject_Z_plus in Hstep. change (inject_Z 1) with 1 in Hstep.
  apply Qabs_Qle_condition in Ex, Ey. lra.
Qed.

(** [X24] The waterfall has no row for the option pool and the proceeds of
    every row are an amount in cents.  The rows come in descending order of
    the numbers that their proceeds read as ([parseFloat]), which is the
    descending order of the proceeds while these stay below 2^46 (about 70
    trillion) in magnitude. *)
Theorem exit_rows_leave_out_pool
    (state : CapTableState.t) (exitValuation : Q) (uuid : nat -> string) (n n' : nat)
    (w : ExitWaterfall.t) :
  calculateExitWaterfall state exitValuation uuid n = Ok (w, n') ->
  Forall (fun row => ExitDistribution.holderId row <> ESOP_POOL_HOLDER_ID
                     /\ is_cents (ExitDistribution.proceeds row))
    (ExitWaterfall.distributions w)
  /\ StronglySorted
       (fun a b => Extended.lt (parseFloat (ExitDistribution.proceeds a))
                     (parseFloat (ExitDistribution.proceeds b)) = false)
       (ExitWaterfall.distributions w)
  /\ (Forall (fun row => Qabs (ExitDistribution.proceeds row) < inject_Z (2 ^ 46))
        (ExitWaterfall.distributions w) ->
      StronglySorted
        (fun a b => ExitDistribution.proceeds b <= ExitDistribution.proceeds a)
        (ExitWaterfall.distributions w)).
Proof.
  intros H. unfold calculateExitWaterfall in H.
  apply bind_Ok in H as (exitState & n1 & _ & H).
  apply bind_Ok in H as (d1 & n2 & _ & H).
  apply bind_Ok in H as (d2 & n3 & _ & H).
  injection H as <- <-. cbn [ExitWaterfall.distributions].
  set (rows := sort by_proceeds _).
  assert (Hrows : Forall (fun row => ExitDistribution.holderId row <> ESOP_POOL_HOLDER_ID
                                     /\ is_cents (ExitDistribution.proceeds row)) rows).
  { apply List.Forall_forall. intros row Hrow.
    apply (Permutation_in _ (sort_perm _ _)) in Hrow. split.
    + unfold buildResults in Hrow. apply in_omap in Hrow as (person & _ & Hrow).
      destruct (String.eqb (Person.id person) ESOP_POOL_HOLDER_ID) eqn:E; [discriminate|].
      destruct (dist_get _ _) as [[i [k dist]]|]; [|discriminate].
      injection Hrow as <-. cbn. apply String.eqb_neq. exact E.
    + pose proof (buildResults_cents exitValuation
                    (holderInvestmentsOf (CapTableState.holdings exitState))
                    (CapTableState.people exitState) d2) as Hc.
      rewrite List.Forall_forall in Hc.
      apply Hc. exact Hrow. }
  assert (Hsorted : StronglySorted (fun a b => by_proceeds a b = false) rows).
  { apply sort_sorted.
    - intros a b. apply DoubleFacts.lt_asym.
    - intros a b c. apply DoubleFacts.nlt_trans, DoubleFacts.ofQ_not_NaN. }
  split; [exact Hrows|]. split; [exact Hsorted|].
  intros Hbound. clear -Hrows Hsorted Hbound.
  induction Hsorted as [|a l Hl IH Ha]; constructor.
  - apply IH.
    + inversion Hrows; assumption.
    + inversion Hbound; assumption.
  - inversion Hrows as [|? ? [_ Hca] Hrl]; subst.
    inversion Hbound as [|? ? Hba Hbl]; subst.
    rewrite List.Forall_forall in *. intros b Hb.
    apply cents_read_in_order.
    + exact Hca.
    + apply Hrl. exact Hb.
    + exact Hba.
    + apply Hbl. exact Hb.
    + apply Ha. exact Hb.
Qed.

(** An exit of a company with a founder and an option pool. *)
Lemma exit_rows_leave_out_pool_witness :
  exists w,
    calculateExitWaterfall pool_state (10000000 # 1) numbered_uuid 0%nat = Ok (w, 0%nat)
    /\ map ExitDistribution.holderId (ExitWaterfall.distributions w)
       = ["founder-1"%string]
    /\ Forall (fun row => ExitDistribution.holderId row <> ESOP_POOL_HOLDER_ID
                          /\ is_cents (ExitDistribution.proceeds row))
         (ExitWaterfall.distributions w).
Proof.
  destruct (calculateExitWaterfall pool_state (10000000 # 1) numbered_uuid 0%nat)
    as [[w k]| |] eqn:E; [|vm_compute in E; discriminate..].
  exists w. split; [|split].
  - vm_compute in E. injection E as <- <-. reflexivity.
  - vm_compute in E. injection E as <- <-. reflexivity.
  - apply (proj1 (exit_rows_leave_out_pool _ _ _ _ _ _ E)).
Defined.

(** From 2^46 on, two amounts a cent apart can read as the same number,
    and rows with these proceeds keep the order in which they were built. *)
Example proceeds_read_as_one_number :
  parseFloat (7036874417766401 # 100) = parseFloat (7036874417766402 # 100).
Proof. vm_compute. reflexivity. Qed.

End ExitRows.
